(** * Narwhale game server: a shallow embedding of [src/server.js]

    The development follows the source class by class: [Vec2],
    [InputValidator], [NarwhalePart], [Player], [Food], [GameRoom] and
    [PacketEncoder].  Each JavaScript method becomes a Rocq function of
    the same name.

    Modelling conventions.
    - JavaScript numbers that only ever hold integers in the program
      (scores, levels, sizes, counters, identifiers, millisecond
      timestamps, colours) are [Z]; the 32-bit wrap-around of the bit
      operators is written out in module [Js].
    - The remaining numbers (coordinates, velocities, angles, durations)
      are exact rationals [Q]: rounding error, infinities and NaN of
      IEEE doubles are not modelled.
    - [Date.now()] and [Math.random()] read an explicit [World]; code
      that can throw runs in the state-and-error monad [M].
    - Library functions whose results are not fixed by the language
      ([Math.cos], [Math.sin], [Math.atan2], [Math.sqrt], [Math.hypot],
      [Buffer.writeFloatLE]) are the fields of the classes [MathLib]
      and [BufferLib].
    - Objects shared by reference (the players of a room) live in a
      list and are named by their position in it.
    - Sockets and logging are outside the model. *)

From Stdlib Require Import ZArith QArith Qround Qminmax Qabs Lia Lqa String Ascii Znumtheory Sorted.
From stdpp Require Import base option list gmap.

(** * JavaScript integers and comparisons *)

Module Js.

(** [ToInt32] of an integer-valued number: wrap into [-2^31, 2^31). *)
Definition ToInt32 (z : Z) : Z :=
  ((z + 2147483648) mod 4294967296 - 2147483648)%Z.

(** [ToUint32] of an integer-valued number: wrap into [0, 2^32). *)
Definition ToUint32 (z : Z) : Z := (z mod 4294967296)%Z.

(** [a & b] *)
Definition band (a b : Z) : Z := Z.land (ToInt32 a) (ToInt32 b).

(** [a | b] *)
Definition bor (a b : Z) : Z := Z.lor (ToInt32 a) (ToInt32 b).

(** [a << n] *)
Definition shl (a n : Z) : Z :=
  ToInt32 (Z.shiftl (ToInt32 a) (Z.land (ToUint32 n) 31)).

(** [a >> n] *)
Definition sar (a n : Z) : Z :=
  Z.shiftr (ToInt32 a) (Z.land (ToUint32 n) 31).

(** [a >>> 0] *)
Definition ushr0 (a : Z) : Z := ToUint32 a.

(** [x < y] and [x <= y] on non-integer numbers. *)
Definition ltb (x y : Q) : bool :=
  (Qnum x * QDen y <? Qnum y * QDen x)%Z.
Definition leb (x y : Q) : bool :=
  (Qnum x * QDen y <=? Qnum y * QDen x)%Z.

(** [Math.floor], [Math.round], [Math.max], [Math.min]. *)
Definition floor (x : Q) : Z := Qfloor x.
Definition round (x : Q) : Z := Qfloor (x + (1 # 2))%Q.
Definition max (x y : Q) : Q := if ltb x y then y else x.
Definition min (x y : Q) : Q := if ltb y x then y else x.

(** [Math.PI], the double nearest to pi: 0x400921FB54442D18. *)
Definition PI : Q := 884279719003555 # 281474976710656.

End Js.

(** * The environment: wall clock, random source, exceptions *)

(** Every call of [Date.now()] takes the next reading of [clock], every
    call of [Math.random()] the next value of [draws]. *)
Record World := mkWorld {
  clock : nat -> Z;
  clockPos : nat;
  draws : nat -> Q;
  drawPos : nat
}.

(** A computation reads and advances the world; [None] is a thrown
    exception that nothing catches. *)
Definition M (A : Type) : Type := World -> option (A * World).

Definition ret {A} (a : A) : M A := fun w => Some (a, w).

Definition bind {A B} (c : M A) (k : A -> M B) : M B :=
  fun w => match c w with
           | Some (a, w') => k a w'
           | None => None
           end.

Definition throw {A} : M A := fun _ => None.

Definition Date_now : M Z :=
  fun w => Some (clock w (clockPos w),
                 mkWorld (clock w) (S (clockPos w)) (draws w) (drawPos w)).

Definition Math_random : M Q :=
  fun w => Some (draws w (drawPos w),
                 mkWorld (clock w) (clockPos w) (draws w) (S (drawPos w))).

Declare Scope js_scope.
Delimit Scope js_scope with js.
Notation "'let!' x := c 'in' k" := (bind c (fun x => k))
  (at level 10, x pattern, c at level 100, k at level 200) : js_scope.
Open Scope js_scope.

(** Sequential loops over a list. *)
Fixpoint foldM {A B} (f : A -> B -> M A) (l : list B) (a : A) : M A :=
  match l with
  | [] => ret a
  | b :: l' => let! a' := f a b in foldM f l' a'
  end.

Fixpoint mapM {A B} (f : A -> M B) (l : list A) : M (list B) :=
  match l with
  | [] => ret []
  | a :: l' => let! b := f a in let! bs := mapM f l' in ret (b :: bs)
  end.

(** * Library functions *)

Class MathLib := {
  Math_cos : Q -> Q;
  Math_sin : Q -> Q;
  Math_atan2 : Q -> Q -> Q;
  Math_sqrt : Q -> Q;
  Math_hypot : Q -> Q -> Q
}.

(** [Buffer.writeFloatLE] stores four bytes. *)
Class BufferLib := {
  floatLE : Q -> list Z;
  floatLE_length : forall q, length (floatLE q) = 4%nat;
  floatLE_bytes : forall q, Forall (fun b => (0 <= b <= 255)%Z) (floatLE q)
}.

(** * Configuration *)

Module CONFIG.
Definition worldWidth : Q := 6400.
Definition worldHeight : Q := 6400.
Definition maxInputRate : Z := 120.
Definition maxVelocity : Q := 500.
Definition friction : Q := 0.95.
Definition acceleration : Q := 200.
Definition dashPower : Q := 300.
Definition collisionDamage : Z := 100.
End CONFIG.

Module OPCODES.
Definition JOIN : Z := 16.
Definition START : Z := 18.
Definition RIP : Z := 34.
Definition SET_ELEMENTS : Z := 48.
Definition LEADER_BOARD : Z := 50.
End OPCODES.

Module ELEMENT_TYPES.
Definition FISH : Z := 0.
Definition FOOD : Z := 6.
End ELEMENT_TYPES.

(** * Vec2 *)

Module Vec2.

Record t := mk { x : Q; y : Q }.

Section WithMath.
Context `{MathLib}.

Definition distance (a o : t) : Q :=
  let dx := (x a - x o)%Q in
  let dy := (y a - y o)%Q in
  Math_sqrt (dx * dx + dy * dy)%Q.

End WithMath.

Definition clone (a : t) : t := mk (x a) (y a).

End Vec2.

(** * Rooms *)

(** [room.config.options], the part of [ROOMS_CONFIG] the simulation
    reads: the width and height of the arena. *)
Module Options.
Record t := mk { width : Q; height : Q }.
End Options.

Definition ROOMS_CONFIG : list (Z * Options.t) :=
  [ (0%Z, Options.mk 6400 6400);
    (1%Z, Options.mk 6400 6400);
    (2%Z, Options.mk 6400 6400);
    (3%Z, Options.mk 3840 3840);
    (4%Z, Options.mk 3840 3840);
    (5%Z, Options.mk 6400 3840);
    (7%Z, Options.mk 6400 5120);
    (8%Z, Options.mk 6400 6400) ].

(** [global.gameServer.rooms.get(roomId)], as far as the options go;
    [None] is [undefined].  The server creates one room per entry of
    [ROOMS_CONFIG] and never removes one. *)
Definition rooms_get (roomId : option Z) : option Options.t :=
  match roomId with
  | None => None
  | Some i => snd <$> List.find (fun e => (fst e =? i)%Z) ROOMS_CONFIG
  end.

(** * NarwhalePart *)

Module NarwhalePart.

Record t := mk { x : Q; y : Q; vx : Q; vy : Q; rot : Q; vt : Q; oriRot : Q }.

(** [new NarwhalePart()] *)
Definition new : t := mk 0 0 0 0 0 0 0.

(** [update(dt)] *)
Definition update (dt : Q) (p : t) : t :=
  mk (x p + vx p * dt) (y p + vy p * dt) (vx p) (vy p)
     (rot p + vt p * dt) (vt p) (oriRot p).

End NarwhalePart.

(** * Player *)

Module Player.

Record t := mk {
  id : Z;
  name : string;
  uid : Z;
  color : Z;
  team : Z;
  size : Z;
  alpha : Q;
  level : Z;
  score : Z;
  kills : Z;
  deaths : Z;
  pos : Vec2.t;
  vel : Vec2.t;
  angle : Q;
  speed : Q;
  maxSpeed : Z;
  parts : list NarwhalePart.t;
  breakPoint : nat;
  maxDash : Z;
  curDash : Z;
  overDash : Q;
  dashRegenRate : Q;
  tuskRatio : Q;
  decoration : Z;
  invincibleDur : Q;
  skincode : Z;
  isAlive : bool;
  isSpawned : bool;
  respawnTime : Z;
  currentRoom : option Z;
  targetX : Q;
  targetY : Q;
  inputFlags : Z;
  lastPosition : Vec2.t;
  lastDashTime : Z;
  inputSequence : Z;
  lastInputTime : Z
}.

(** Assignment to one field, [p.f = v].  [eta] lists every field once;
    [setter f] replaces the projection [f] in it by the new value, so
    [set_f v p] is [p] with field [f] set to [v] and every other field
    kept. *)
Definition eta (p : t) : t :=
  mk (id p) (name p) (uid p) (color p) (team p) (size p) (alpha p) (level p)
     (score p) (kills p) (deaths p) (pos p) (vel p) (angle p) (speed p)
     (maxSpeed p) (parts p) (breakPoint p) (maxDash p) (curDash p)
     (overDash p) (dashRegenRate p) (tuskRatio p) (decoration p)
     (invincibleDur p) (skincode p) (isAlive p) (isSpawned p)
     (respawnTime p) (currentRoom p) (targetX p) (targetY p) (inputFlags p)
     (lastPosition p) (lastDashTime p) (inputSequence p) (lastInputTime p).

Ltac setter proj :=
  let e := eval cbv delta [eta] in eta in
  lazymatch eval pattern proj in e with
  | ?g _ =>
      let r := eval cbv beta in (fun v p => g (fun _ => v) p) in exact r
  end.

Definition set_color : Z -> t -> t := ltac:(setter color).
Definition set_size : Z -> t -> t := ltac:(setter size).
Definition set_level : Z -> t -> t := ltac:(setter level).
Definition set_score : Z -> t -> t := ltac:(setter score).
Definition set_kills : Z -> t -> t := ltac:(setter kills).
Definition set_deaths : Z -> t -> t := ltac:(setter deaths).
Definition set_pos : Vec2.t -> t -> t := ltac:(setter pos).
Definition set_vel : Vec2.t -> t -> t := ltac:(setter vel).
Definition set_angle : Q -> t -> t := ltac:(setter angle).
Definition set_speed : Q -> t -> t := ltac:(setter speed).
Definition set_maxSpeed : Z -> t -> t := ltac:(setter maxSpeed).
Definition set_parts : list NarwhalePart.t -> t -> t := ltac:(setter parts).
Definition set_curDash : Z -> t -> t := ltac:(setter curDash).
Definition set_overDash : Q -> t -> t := ltac:(setter overDash).
Definition set_invincibleDur : Q -> t -> t := ltac:(setter invincibleDur).
Definition set_skincode : Z -> t -> t := ltac:(setter skincode).
Definition set_isAlive : bool -> t -> t := ltac:(setter isAlive).
Definition set_isSpawned : bool -> t -> t := ltac:(setter isSpawned).
Definition set_respawnTime : Z -> t -> t := ltac:(setter respawnTime).
Definition set_currentRoom : option Z -> t -> t := ltac:(setter currentRoom).
Definition set_targetX : Q -> t -> t := ltac:(setter targetX).
Definition set_targetY : Q -> t -> t := ltac:(setter targetY).
Definition set_lastPosition : Vec2.t -> t -> t := ltac:(setter lastPosition).
Definition set_lastDashTime : Z -> t -> t := ltac:(setter lastDashTime).

(** [hslToRgb(h, s, l)] *)
Definition hue2rgb (p q t : Q) : Q :=
  let t := if Js.ltb t 0 then (t + 1)%Q else t in
  let t := if Js.ltb 1 t then (t - 1)%Q else t in
  if Js.ltb t (1 / 6) then (p + (q - p) * 6 * t)%Q
  else if Js.ltb t (1 / 2) then q
  else if Js.ltb t (2 / 3) then (p + (q - p) * (2 / 3 - t) * 6)%Q
  else p.

Definition hslToRgb (h s l : Q) : Z :=
  let '(r, g, b) :=
    if Qeq_bool s 0 then (l, l, l)
    else
      let q := if Js.ltb l 0.5 then (l * (1 + s))%Q else (l + s - l * s)%Q in
      let p := (2 * l - q)%Q in
      (hue2rgb p q (h + 1 / 3), hue2rgb p q h, hue2rgb p q (h - 1 / 3)) in
  Js.bor (Js.bor (Js.shl (Js.round (r * 255)) 16)
                 (Js.shl (Js.round (g * 255)) 8))
         (Js.round (b * 255)).

(** [randomColor()] *)
Definition randomColor : M Z :=
  let! h := Math_random in
  ret (hslToRgb h 0.9 0.635).

(** [initializeParts()], run on the empty [parts] of the constructor:
    eleven parts behind the head position. *)
Definition initializeParts (pos : Vec2.t) (angle : Q) : list NarwhalePart.t :=
  List.map
    (fun i : nat =>
       NarwhalePart.mk (Vec2.x pos - inject_Z (Z.of_nat i) * 20) (Vec2.y pos)
                       0 0 angle 0 0)
    (seq 0 11).

(** [new Player(id, socket, name)] *)
Definition new (id : Z) (name : string) : M t :=
  let name := String.substring 0 16 (if String.eqb name "" then "Narwhal" else name) in
  let! color := randomColor in
  let! r := Math_random in
  let team := if Js.ltb 0.5 r then 1%Z else (-1)%Z in
  let pos := Vec2.mk (CONFIG.worldWidth / 2) (CONFIG.worldHeight / 2) in
  let! r := Math_random in
  let angle := (r * Js.PI * 2)%Q in
  let! r := Math_random in
  let skincode := Js.floor (r * 18) in
  let! now := Date_now in
  ret (mk id name id color team 36 1 1 0 0 0 pos (Vec2.mk 0 0) angle 0 150
          (initializeParts pos angle) 11 5 5 0 0.6 0.5 0 0 skincode
          true false 0 None 0.001 0 0 (Vec2.clone pos) 0 0 now).

(** [spawn(room)] *)
Definition spawn_part (pos : Vec2.t) (angle : Q) (i : nat) (part : NarwhalePart.t)
  : NarwhalePart.t :=
  NarwhalePart.mk (Vec2.x pos - inject_Z (Z.of_nat i) * 20) (Vec2.y pos) 0 0
                  angle (NarwhalePart.vt part) (NarwhalePart.oriRot part).

Definition spawn (room : Options.t) (p : t) : M t :=
  let p := set_isSpawned true (set_isAlive true p) in
  let w := Options.width room in
  let h := Options.height room in
  let! r := Math_random in
  let px := (r * (w - 400) + 200)%Q in
  let! r := Math_random in
  let py := (r * (h - 400) + 200)%Q in
  let p := set_pos (Vec2.mk px py) p in
  let p := set_vel (Vec2.mk 0 0) p in
  let p := set_invincibleDur 2 p in
  let p := set_curDash (maxDash p) p in
  let p := set_size 36 p in
  let p := set_level 1 p in
  let p := set_parts (imap (spawn_part (pos p) (angle p)) (parts p)) p in
  ret (set_lastPosition (Vec2.clone (pos p)) p).

Section WithMath.
Context `{MathLib}.

(** [processMovement(dt)] *)
Definition processMovement (dt : Q) (p : t) : t :=
  let dx := (targetX p - Vec2.x (pos p))%Q in
  let dy := (targetY p - Vec2.y (pos p))%Q in
  let dist := Math_sqrt (dx * dx + dy * dy) in
  let p :=
    if Js.ltb 10 dist then
      let nx := (dx / dist)%Q in
      let ny := (dy / dist)%Q in
      let v := Vec2.mk (Vec2.x (vel p) + nx * CONFIG.acceleration * dt)
                       (Vec2.y (vel p) + ny * CONFIG.acceleration * dt) in
      let sp := Math_sqrt (Vec2.x v * Vec2.x v + Vec2.y v * Vec2.y v) in
      let v :=
        if Js.ltb (inject_Z (maxSpeed p)) sp then
          Vec2.mk (Vec2.x v / sp * inject_Z (maxSpeed p))
                  (Vec2.y v / sp * inject_Z (maxSpeed p))
        else v in
      set_angle (Math_atan2 dy dx) (set_vel v p)
    else p in
  let v := Vec2.mk (Vec2.x (vel p) * CONFIG.friction)
                   (Vec2.y (vel p) * CONFIG.friction) in
  let p := set_vel v p in
  let p := set_pos (Vec2.mk (Vec2.x (pos p) + Vec2.x v * dt)
                            (Vec2.y (pos p) + Vec2.y v * dt)) p in
  set_speed (Math_sqrt (Vec2.x v * Vec2.x v + Vec2.y v * Vec2.y v)) p.

(** The two bodies of the loop of [updateParts(dt)]: a part that
    follows its predecessor [prev], and the part at the break point. *)
Definition follow (size : Z) (prev part : NarwhalePart.t) : NarwhalePart.t :=
  let seg := (25 + inject_Z size * 0.2)%Q in
  let tx := (NarwhalePart.x prev - Math_cos (NarwhalePart.rot prev) * seg)%Q in
  let ty := (NarwhalePart.y prev - Math_sin (NarwhalePart.rot prev) * seg)%Q in
  let px := (NarwhalePart.x part + (tx - NarwhalePart.x part) * 0.4)%Q in
  let py := (NarwhalePart.y part + (ty - NarwhalePart.y part) * 0.4)%Q in
  let dx := (NarwhalePart.x prev - px)%Q in
  let dy := (NarwhalePart.y prev - py)%Q in
  let r := Math_atan2 dy dx in
  NarwhalePart.mk px py (NarwhalePart.vx part) (NarwhalePart.vy part) r
                  (NarwhalePart.vt part) r.

Definition freeBody (dt : Q) (part : NarwhalePart.t) : NarwhalePart.t :=
  let part := NarwhalePart.update dt part in
  NarwhalePart.mk (NarwhalePart.x part) (NarwhalePart.y part)
                  (NarwhalePart.vx part * 0.98) (NarwhalePart.vy part * 0.98)
                  (NarwhalePart.rot part) (NarwhalePart.vt part * 0.95)
                  (NarwhalePart.oriRot part).

(** The loop [for (let i=1; i<this.parts.length; i++)], entered at index
    [i] with [prev] the already updated part [i-1] and [rest] the parts
    from [i] on. *)
Fixpoint updateParts_loop (bp : nat) (size : Z) (dt : Q) (i : nat)
    (prev : NarwhalePart.t) (rest : list NarwhalePart.t) : list NarwhalePart.t :=
  match rest with
  | [] => []
  | part :: rest' =>
      let part' :=
        if negb (i =? bp)%nat then follow size prev part
        else freeBody dt part in
      part' :: updateParts_loop bp size dt (S i) part' rest'
  end.

(** [updateParts(dt)]; on an empty chain [this.parts[0].x = ...] throws. *)
Definition updateParts (dt : Q) (p : t) : M t :=
  match parts p with
  | [] => throw
  | head :: rest =>
      let head :=
        NarwhalePart.mk (Vec2.x (pos p)) (Vec2.y (pos p))
                        (Vec2.x (vel p)) (Vec2.y (vel p)) (angle p)
                        (NarwhalePart.vt head) (NarwhalePart.oriRot head) in
      ret (set_parts
             (head :: updateParts_loop (breakPoint p) (size p) dt 1 head rest) p)
  end.

End WithMath.

(** [clampToWorld()] *)
Definition clampToWorld (p : t) : t :=
  match rooms_get (currentRoom p) with
  | None => p
  | Some room =>
      let margin := 100%Q in
      let px := Js.max margin (Js.min (Options.width room - margin) (Vec2.x (pos p))) in
      let p := set_pos (Vec2.mk px (Vec2.y (pos p))) p in
      let py := Js.max margin (Js.min (Options.height room - margin) (Vec2.y (pos p))) in
      set_pos (Vec2.mk (Vec2.x (pos p)) py) p
  end.

(** [updateSize()]; the score is an integer, so
    [Math.floor(score / 100)] is the floor division. *)
Definition updateSize (p : t) : t :=
  let p := set_level (score p / 100 + 1)%Z p in
  let p := set_size (36 + (level p - 1) * 3)%Z p in
  set_maxSpeed (Z.max 80 (150 - (level p - 1) * 5)) p.

(** [setTarget(x, y, validator)] *)
Definition setTarget (x y : Q) (p : t) : t :=
  match rooms_get (currentRoom p) with
  | None => p
  | Some room =>
      let p := set_targetX (Js.max 0 (Js.min (Options.width room) x)) p in
      set_targetY (Js.max 0 (Js.min (Options.height room) y)) p
  end.

(** [useDash(validator)]; [validateDash] is the method of the validator
    passed in. *)
Section WithMath.
Context `{MathLib}.

Definition useDash (validateDash : t -> M bool) (p : t) : M (bool * t) :=
  let! ok := validateDash p in
  if negb ok then ret (false, p)
  else if (0 <? curDash p)%Z then
    let p := set_curDash (curDash p - 1)%Z p in
    let! now := Date_now in
    let p := set_lastDashTime now p in
    let p := set_vel (Vec2.mk (Vec2.x (vel p) + Math_cos (angle p) * CONFIG.dashPower)
                              (Vec2.y (vel p))) p in
    let p := set_vel (Vec2.mk (Vec2.x (vel p))
                              (Vec2.y (vel p) + Math_sin (angle p) * CONFIG.dashPower)) p in
    ret (true, p)
  else ret (false, p).

End WithMath.

(** [die()]; the RIP byte sent to the socket is outside the model. *)
Definition die (p : t) : M t :=
  let p := set_isAlive false p in
  let p := set_isSpawned false p in
  let p := set_deaths (deaths p + 1)%Z p in
  let! now := Date_now in
  ret (set_respawnTime (now + 3000)%Z p).

(** [attacker.kills++; attacker.score += 100 + this.level*20] *)
Definition credit (victimLevel : Z) (a : t) : t :=
  let a := set_kills (kills a + 1)%Z a in
  set_score (score a + (100 + victimLevel * 20))%Z a.

(** [this.takeDamage(amount, attacker)] on the players [ps] of a room:
    [this] and [attacker] are positions in [ps], so [attacker !== this]
    is a comparison of positions, and [attacker = None] is [null].
    A position outside [ps] names no object: the call throws. *)
Definition takeDamage (amount : Z) (attacker : option nat) (this : nat)
    (ps : list t) : M (bool * list t) :=
  match ps !! this with
  | None => throw
  | Some self =>
      if Js.ltb 0 (invincibleDur self) then ret (false, ps)
      else
        let ps :=
          match attacker with
          | Some a =>
              if negb (a =? this)%nat then alter (credit (level self)) a ps
              else ps
          | None => ps
          end in
        match ps !! this with
        | None => throw
        | Some self =>
            let! self := die self in
            ret (true, <[this := self]> ps)
        end
  end.

(** [update(dt, validator)] *)
Section WithMath.
Context `{MathLib}.

Definition update (dt : Q) (p : t) : M t :=
  if negb (isAlive p) then
    let! now := Date_now in
    if (respawnTime p <? now)%Z then
      match rooms_get (currentRoom p) with
      | Some room => spawn room p
      | None => ret p
      end
    else ret p
  else
    let p := set_invincibleDur (Js.max 0 (invincibleDur p - dt)) p in
    let p :=
      if (curDash p <? maxDash p)%Z then
        let p := set_overDash (overDash p + dt * dashRegenRate p) p in
        if Js.leb 1 (overDash p) then
          let p := set_curDash (Z.min (maxDash p) (curDash p + 1)) p in
          set_overDash 0 p
        else p
      else p in
    let p := processMovement dt p in
    let! p := updateParts dt p in
    let p := clampToWorld p in
    let p := updateSize p in
    ret (set_lastPosition (Vec2.clone (pos p)) p).

End WithMath.

End Player.

(** * InputValidator *)

Module InputValidator.

(** One entry of [playerInputs]: [{count, lastReset}]. *)
Record entry := mkEntry { count : Z; lastReset : Z }.

(** [validateInputRate(playerId)] on the map [playerInputs]. *)
Definition validateInputRate (playerId : Z) (playerInputs : gmap Z entry)
  : M (bool * gmap Z entry) :=
  let! now := Date_now in
  let d :=
    match playerInputs !! playerId with
    | Some d => d
    | None => mkEntry 0 now
    end in
  let d := if (1000 <? now - lastReset d)%Z then mkEntry 0 now else d in
  let d := mkEntry (count d + 1) (lastReset d) in
  ret ((count d <=? CONFIG.maxInputRate)%Z, <[playerId := d]> playerInputs).

(** [validateDash(player)]; a time stamp of 0 is falsy. *)
Definition validateDash (player : Player.t) : M bool :=
  let! now := Date_now in
  if (Player.curDash player <=? 0)%Z then ret false
  else if negb (Player.lastDashTime player =? 0)%Z
          && (now - Player.lastDashTime player <? 100)%Z then ret false
  else ret true.

Section WithMath.
Context `{MathLib}.

(** [validatePosition(oldPos, newPos, deltaTime)] *)
Definition validatePosition (oldPos newPos : Vec2.t) (deltaTime : Q) : bool :=
  let maxDistance := (CONFIG.maxVelocity * deltaTime)%Q in
  let actualDistance := Vec2.distance oldPos newPos in
  if Js.ltb (maxDistance * 2) actualDistance then false else true.

End WithMath.

End InputValidator.

(** * Food *)

Module Food.

Record t := mk { id : Z; x : Q; y : Q; value : Z; size : Z; color : Z }.

(** [new Food(x, y, value)] *)
Definition new (x y : Q) (value : Z) : M t :=
  let! now := Date_now in
  let! r := Math_random in
  ret (mk (now + Js.floor (r * 1000)) x y value
          (if (1 <? value)%Z then 8 else 4)
          (if (1 <? value)%Z then 16739179 else 5164484)).

End Food.

(** * GameRoom *)

Module GameRoom.

(** [players] lists the values of the [players] map in insertion
    order; [options] is [config.options]. *)
Record t := mk {
  id : Z;
  name : string;
  options : Options.t;
  players : list Player.t;
  foods : list Food.t
}.

Definition set_players (ps : list Player.t) (r : t) : t :=
  mk (id r) (name r) (options r) ps (foods r).
Definition set_foods (fs : list Food.t) (r : t) : t :=
  mk (id r) (name r) (options r) (players r) fs.

(** The food placed by [generateFood] and by the replacement in
    [checkCollisions]: position and value are drawn, then
    [new Food(x, y, value)] runs. *)
Definition randomFood (opts : Options.t) : M Food.t :=
  let! r := Math_random in
  let x := (r * (Options.width opts - 200) + 100)%Q in
  let! r := Math_random in
  let y := (r * (Options.height opts - 200) + 100)%Q in
  let! r := Math_random in
  let value := if Js.ltb r 0.1 then 3%Z else 1%Z in
  Food.new x y value.

(** [generateFood(count)] *)
Fixpoint generateFood (count : nat) (r : t) : M t :=
  match count with
  | O => ret r
  | S n =>
      let! f := randomFood (options r) in
      generateFood n (set_foods (foods r ++ [f]) r)
  end.

(** [new GameRoom(config)] *)
Definition new (id : Z) (name : string) (opts : Options.t) : M t :=
  generateFood 300 (mk id name opts [] []).

(** [this.players.set(player.id, player)]: a known key keeps its place. *)
Fixpoint players_set (player : Player.t) (ps : list Player.t) : list Player.t :=
  match ps with
  | [] => [player]
  | q :: ps' =>
      if (Player.id q =? Player.id player)%Z then player :: ps'
      else q :: players_set player ps'
  end.

(** The position of the key [playerId] in the map. *)
Fixpoint players_index (playerId : Z) (ps : list Player.t) : nat :=
  match ps with
  | [] => O
  | q :: ps' =>
      if (Player.id q =? playerId)%Z then O
      else S (players_index playerId ps')
  end.

(** [addPlayer(player)] *)
Definition addPlayer (player : Player.t) (r : t) : M t :=
  let player := Player.set_currentRoom (Some (id r)) player in
  let! player := Player.spawn (options r) player in
  ret (set_players (players_set player (players r)) r).

(** [removePlayer(playerId)] *)
Definition removePlayer (playerId : Z) (r : t) : t :=
  set_players
    (List.filter (fun q => negb (Player.id q =? playerId)%Z) (players r)) r.

(** [Array.from(this.players.values()).filter(p => p.isAlive)], as
    positions in [players], counted from [i]. *)
Fixpoint alive_from (i : nat) (ps : list Player.t) : list nat :=
  match ps with
  | [] => []
  | p :: ps' =>
      if Player.isAlive p then i :: alive_from (S i) ps'
      else alive_from (S i) ps'
  end.

Definition alive (ps : list Player.t) : list nat := alive_from 0 ps.

(** The pairs [(alive[i], alive[j])], [i < j], in the order of the two
    nested loops. *)
Fixpoint pairs (l : list nat) : list (nat * nat) :=
  match l with
  | [] => []
  | a :: l' => List.map (pair a) l' ++ pairs l'
  end.

Section WithMath.
Context `{MathLib}.

(** The body of the inner loop of the player sweep, for [p1] at
    position [i] and [p2] at position [j]. *)
Definition collide (ps : list Player.t) (ij : nat * nat) : M (list Player.t) :=
  let '(i, j) := ij in
  match ps !! i, ps !! j with
  | Some p1, Some p2 =>
      let d := Vec2.distance (Player.pos p1) (Player.pos p2) in
      let colD := (inject_Z (Player.size p1 + Player.size p2) * 0.6)%Q in
      if Js.ltb d colD then
        let diff := (Player.size p1 - Player.size p2)%Z in
        let threshold := 10%Z in
        if (threshold <? diff)%Z then
          let! (_, ps) := Player.takeDamage CONFIG.collisionDamage (Some i) j ps in
          ret ps
        else if (diff <? - threshold)%Z then
          let! (_, ps) := Player.takeDamage CONFIG.collisionDamage (Some j) i ps in
          ret ps
        else ret ps
      else ret ps
  | _, _ => throw
  end.

(** The player-against-player sweep of [checkCollisions()], over the
    positions [alive]. *)
Definition collidePlayers (alive : list nat) (ps : list Player.t)
  : M (list Player.t) :=
  foldM collide (pairs alive) ps.

(** The loop [for (let i=this.foods.length-1; i>=0; i--)] for one
    player, entered with [n = i + 1]. *)
Fixpoint eatFoods (opts : Options.t) (n : nat) (player : Player.t)
    (foods : list Food.t) : M (Player.t * list Food.t) :=
  match n with
  | O => ret (player, foods)
  | S i =>
      match foods !! i with
      | None => throw
      | Some food =>
          let dist :=
            Math_hypot (Vec2.x (Player.pos player) - Food.x food)
                       (Vec2.y (Player.pos player) - Food.y food) in
          if Js.ltb dist (inject_Z (Player.size player) / 2
                          + inject_Z (Food.size food)) then
            let player :=
              Player.set_score (Player.score player + Food.value food * 10)%Z
                               player in
            let foods := delete i foods in
            let! r := Math_random in
            if Js.ltb r 0.7 then
              let! f := randomFood opts in
              eatFoods opts i player (foods ++ [f])
            else eatFoods opts i player foods
          else eatFoods opts i player foods
      end
  end.

(** The player-against-food sweep, over the positions [alive]. *)
Definition eatStep (r : t) (k : nat) : M t :=
  match players r !! k with
  | None => throw
  | Some player =>
      let! (player, foods) :=
        eatFoods (options r) (length (foods r)) player (foods r) in
      ret (set_foods foods (set_players (<[k := player]> (players r)) r))
  end.

(** [checkCollisions()] *)
Definition checkCollisions (r : t) : M t :=
  let alive := alive (players r) in
  let! ps := collidePlayers alive (players r) in
  foldM eatStep alive (set_players ps r).

(** [update(dt)] *)
Definition update (dt : Q) (r : t) : M t :=
  let! ps := mapM (Player.update dt) (players r) in
  let! r := checkCollisions (set_players ps r) in
  if (length (foods r) <? 250)%nat then generateFood 10 r else ret r.

End WithMath.

End GameRoom.

(** * PacketEncoder *)

Module PacketEncoder.

(** The integer writes of a [Buffer]: a value outside the range of the
    field throws a [RangeError]; the bytes are little endian. *)
Definition writeUInt8 (v : Z) : M (list Z) :=
  if ((0 <=? v) && (v <=? 255))%Z then ret [v] else throw.

Definition writeUInt16LE (v : Z) : M (list Z) :=
  if ((0 <=? v) && (v <=? 65535))%Z
  then ret [v mod 256; v / 256 mod 256]%Z else throw.

Definition writeUInt32LE (v : Z) : M (list Z) :=
  if ((0 <=? v) && (v <=? 4294967295))%Z
  then ret [v mod 256; v / 256 mod 256; v / 65536 mod 256; v / 16777216 mod 256]%Z
  else throw.

(** [Buffer.from(name, 'utf8')] for a name of ASCII characters. *)
Definition utf8 (s : string) : list Z :=
  List.map (fun c => Z.of_N (N_of_ascii c)) (list_ascii_of_string s).

(** [encodeUintAngle(angle)] *)
Definition encodeUintAngle (angle : Q) : Z :=
  Js.band (Js.floor (((angle / Js.PI + 1) / 2) * 255)) 255.

(** The byte [(player.team & 0xFF) | ((player.level & 0x1F) << 3)]. *)
Definition teamLevelByte (player : Player.t) : Z :=
  Js.bor (Js.band (Player.team player) 255)
         (Js.shl (Js.band (Player.level player) 31) 3).

Section WithLibs.
Context `{MathLib} `{BufferLib}.

Definition writeFloatLE (v : Q) : M (list Z) := ret (floatLE v).

(** The loop over [player.parts] from index [i] on, [rest] being the
    parts from [i]. *)
Fixpoint encodeParts (bp : nat) (i : nat) (rest : list NarwhalePart.t)
  : list Z :=
  match rest with
  | [] => []
  | part :: rest' =>
      (if negb (i =? bp)%nat then [encodeUintAngle (NarwhalePart.rot part)]
       else floatLE (NarwhalePart.x part) ++ floatLE (NarwhalePart.y part)
            ++ floatLE (NarwhalePart.vx part) ++ floatLE (NarwhalePart.vy part))
      ++ encodeParts bp (S i) rest'
  end.

(** [_encodeFishElement(buffer, offset, player)]: the bytes written
    from [offset] on.  The buffer of [encodeSetElements] is larger than
    what is written into it, so each write lands in range and the bytes
    returned are those written, in order. *)
Definition _encodeFishElement (player : Player.t) : M (list Z) :=
  let! b_type := writeUInt8 ELEMENT_TYPES.FISH in
  let pid := Js.ushr0 (Player.id player) in
  let! b_pid := writeUInt32LE pid in
  let! b_r := writeUInt8 (Js.band (Js.sar (Player.color player) 16) 255) in
  let! b_g := writeUInt8 (Js.band (Js.sar (Player.color player) 8) 255) in
  let! b_b := writeUInt8 (Js.band (Player.color player) 255) in
  let nameBytes := utf8 (Player.name player) in
  let nameLength := Nat.min (length nameBytes) 20 in
  let b_name := take nameLength nameBytes in
  let! b_nul := writeUInt8 0 in
  let! b_team := writeUInt8 (teamLevelByte player) in
  let! b_alpha := writeUInt8 (Js.band (Js.floor (Player.alpha player * 255)) 255) in
  let! b_dash :=
    writeUInt8 (Js.bor (Js.band (Player.maxDash player) 15)
                       (Js.shl (Js.band (Player.curDash player) 15) 4)) in
  let! b_over := writeUInt8 (Js.band (Js.floor (Player.overDash player * 255)) 255) in
  let! b_tusk := writeUInt8 (Js.band (Js.floor (Player.tuskRatio player * 127)) 255) in
  let! b_deco := writeUInt8 (Js.band (Player.decoration player) 255) in
  match Player.parts player with
  | [] => throw
  | head :: rest =>
      let! b_x := writeFloatLE (NarwhalePart.x head) in
      let! b_y := writeFloatLE (NarwhalePart.y head) in
      let sp := Math_sqrt (NarwhalePart.vx head * NarwhalePart.vx head
                           + NarwhalePart.vy head * NarwhalePart.vy head) in
      let ang := Math_atan2 (NarwhalePart.vy head) (NarwhalePart.vx head) in
      let! b_sp := writeUInt16LE (Z.min (Js.floor sp) 65535) in
      let! b_ang := writeUInt8 (encodeUintAngle ang) in
      let! b_rot := writeUInt8 (encodeUintAngle (NarwhalePart.rot head)) in
      let! b_skin := writeUInt8 (Js.band (Player.skincode player) 255) in
      let! b_inv :=
        writeUInt8 (Js.band (Js.floor (Player.invincibleDur player * 255)) 255) in
      let! b_len :=
        writeUInt8 (Z.max 0 (Z.min 255 (Z.of_nat (length (Player.parts player)) - 1))) in
      ret (b_type ++ b_pid ++ b_r ++ b_g ++ b_b ++ b_name ++ b_nul ++ b_team
           ++ b_alpha ++ b_dash ++ b_over ++ b_tusk ++ b_deco ++ b_x ++ b_y
           ++ b_sp ++ b_ang ++ b_rot ++ b_skin ++ b_inv ++ b_len
           ++ encodeParts (Player.breakPoint player) 1 rest)
  end.

(** [_encodeFoodElement(buffer, offset, food)] *)
Definition _encodeFoodElement (food : Food.t) : M (list Z) :=
  let! b_type := writeUInt8 ELEMENT_TYPES.FOOD in
  let! b_id := writeUInt32LE (Js.band (Food.id food) 4294967295) in
  let! b_x := writeFloatLE (Food.x food) in
  let! b_y := writeFloatLE (Food.y food) in
  let! b_value := writeUInt8 (Js.band (Food.value food) 255) in
  let! b_size := writeUInt8 (Js.band (Food.size food) 255) in
  let! b_r := writeUInt8 (Js.band (Js.sar (Food.color food) 16) 255) in
  let! b_g := writeUInt8 (Js.band (Js.sar (Food.color food) 8) 255) in
  let! b_b := writeUInt8 (Js.band (Food.color food) 255) in
  ret (b_type ++ b_id ++ b_x ++ b_y ++ b_value ++ b_size ++ b_r ++ b_g ++ b_b).

(** [encodeSetElements(room)] *)
Definition encodeSetElements (room : GameRoom.t) : M (list Z) :=
  let players :=
    List.filter (fun p => Player.isAlive p && Player.isSpawned p)
                (GameRoom.players room) in
  let foods := take 100 (GameRoom.foods room) in
  let! b_op := writeUInt8 OPCODES.SET_ELEMENTS in
  let! now := Date_now in
  let! b_time := writeUInt16LE (Js.band now 65535) in
  let! b_flags := writeUInt8 0 in
  let! b_players := mapM _encodeFishElement players in
  let! b_foods := mapM _encodeFoodElement foods in
  ret (b_op ++ b_time ++ b_flags ++ concat b_players ++ concat b_foods).

End WithLibs.

(** The size [encodeSetElements] allocates for its buffer:
    [bufferSize] after the [forEach] over the players and the addition
    for the foods. *)
Definition bufferSize (room : GameRoom.t) : nat :=
  let players :=
    List.filter (fun p => Player.isAlive p && Player.isSpawned p)
                (GameRoom.players room) in
  let foods := take 100 (GameRoom.foods room) in
  let bufferSize :=
    fold_left
      (fun bufferSize p =>
         bufferSize + (64 + length (utf8 (Player.name p))
                       + length (Player.parts p) * 5))%nat
      players 64%nat in
  (bufferSize + length foods * 20)%nat.

(** [sort((a,b) => b.score - a.score)]: the sort of an array is stable,
    so the result is the one of inserting each player, from the last to
    the first, in front of the first player whose score is not larger. *)
Fixpoint sort_insert (p : Player.t) (l : list Player.t) : list Player.t :=
  match l with
  | [] => [p]
  | q :: l' =>
      if (Player.score q <=? Player.score p)%Z then p :: l
      else q :: sort_insert p l'
  end.

Definition sortByScore (l : list Player.t) : list Player.t :=
  foldr sort_insert [] l.

(** The first loop of [encodeLeaderBoard]: level, name, terminator. *)
Definition _leaderBoardEntry (p : Player.t) : M (list Z) :=
  let! b_level := writeUInt8 (Js.band (Player.level p) 255) in
  let nb := utf8 (Player.name p) in
  let len := Nat.min (length nb) 25 in
  let! b_nul := writeUInt8 0 in
  ret (b_level ++ take len nb ++ b_nul).

(** [encodeLeaderBoard(players)]: the bytes written, in order.  The
    buffer has [3 + top.length * 30] bytes, more than are written. *)
Definition encodeLeaderBoard (players : list Player.t) : M (list Z) :=
  let top := take 10 (sortByScore (List.filter Player.isAlive players)) in
  let! b_op := writeUInt8 OPCODES.LEADER_BOARD in
  let! b_count := writeUInt8 (Z.of_nat (length top)) in
  let! b_entries := mapM _leaderBoardEntry top in
  let! b_count2 := writeUInt8 (Z.of_nat (length top)) in
  let! b_levels := mapM (fun p => writeUInt8 (Z.min (Player.level p) 255)) top in
  ret (b_op ++ b_count ++ concat b_entries ++ b_count2 ++ concat b_levels).

End PacketEncoder.

(** * The server, seen from one room *)

Module Server.

(** What happens to a room between two broadcasts: the tick of the game
    loop, and the calls the message handlers and the collision sweep
    make on the players of the room.  A player is named by its position
    [k] in [players]; a call on a position that holds no player does not
    happen. *)
Inductive command :=
| Tick (dt : Q)
| SetTarget (k : nat) (x y : Q)
| UseDash (k : nat)
| TakeDamage (k : nat) (attacker : option nat)
| Spawn (k : nat)
| Start (playerId : Z) (skincode colorcode : Z) (playerName : string).

Section WithMath.
Context `{MathLib}.

(** [handleStart], for a socket that has joined the room [r]. *)
Definition handleStart (playerId skincode colorcode : Z) (playerName : string)
    (r : GameRoom.t) : M GameRoom.t :=
  let! player := Player.new playerId playerName in
  let player := Player.set_skincode skincode player in
  let player := Player.set_color colorcode player in
  let! r := GameRoom.addPlayer player r in
  (* [player.spawn(room)] once more, on the object now in the map *)
  let ps := GameRoom.players r in
  let k := GameRoom.players_index playerId ps in
  match ps !! k with
  | None => throw
  | Some player =>
      let! player := Player.spawn (GameRoom.options r) player in
      ret (GameRoom.set_players (<[k := player]> ps) r)
  end.

Definition step (r : GameRoom.t) (c : command) : M GameRoom.t :=
  let ps := GameRoom.players r in
  match c with
  | Tick dt => GameRoom.update dt r
  | SetTarget k x y =>
      match ps !! k with
      | None => ret r
      | Some p => ret (GameRoom.set_players (<[k := Player.setTarget x y p]> ps) r)
      end
  | UseDash k =>
      match ps !! k with
      | None => ret r
      | Some p =>
          let! (_, p) := Player.useDash InputValidator.validateDash p in
          ret (GameRoom.set_players (<[k := p]> ps) r)
      end
  | TakeDamage k attacker =>
      match ps !! k with
      | None => ret r
      | Some _ =>
          let! (_, ps) := Player.takeDamage CONFIG.collisionDamage attacker k ps in
          ret (GameRoom.set_players ps r)
      end
  | Spawn k =>
      match ps !! k with
      | None => ret r
      | Some p =>
          let! p := Player.spawn (GameRoom.options r) p in
          ret (GameRoom.set_players (<[k := p]> ps) r)
      end
  | Start playerId skincode colorcode playerName =>
      handleStart playerId skincode colorcode playerName r
  end.

Definition run (cs : list command) (r : GameRoom.t) : M GameRoom.t :=
  foldM step cs r.

End WithMath.

Section WithLibs.
Context `{MathLib} `{BufferLib}.


End WithLibs.

End Server.

(** * Messages *)

(** The reads of a [Buffer], a list of bytes: an offset outside the
    buffer throws a [RangeError]. *)
Module Buffer.

Definition readUInt8 (buf : list Z) (off : nat) : M Z :=
  match buf !! off with
  | Some b => ret b
  | None => throw
  end.

Definition readUInt32LE (buf : list Z) (off : nat) : M Z :=
  match buf !! off, buf !! (off + 1)%nat, buf !! (off + 2)%nat,
        buf !! (off + 3)%nat with
  | Some b0, Some b1, Some b2, Some b3 =>
      ret (b0 + 256 * b1 + 65536 * b2 + 16777216 * b3)%Z
  | _, _, _, _ => throw
  end.

(** [buf.toString('utf8')] for ASCII bytes. *)
Definition toString (buf : list Z) : string :=
  string_of_list_ascii (List.map (fun b => ascii_of_N (Z.to_N b)) buf).

(** [buf.slice(0, buf.indexOf(0))], or [buf] itself when it holds no 0. *)
Fixpoint untilNul (buf : list Z) : list Z :=
  match buf with
  | [] => []
  | b :: buf' => if (b =? 0)%Z then [] else b :: untilNul buf'
  end.

End Buffer.

(** What the handlers read and write of a socket. *)
Module Socket.
Record t := mk { playerId : Z; currentRoom : option Z }.
End Socket.

(** * NarwhaleGameServer *)

Module NarwhaleGameServer.

(** [this.players.get(id)] is an object that a room may hold as well.
    The server's map records where the object lives: with the players
    of the room it was added to, under the same key, or, for a player
    started outside any room, in the map itself. *)
Inductive slot :=
| Detached (player : Player.t)
| InRoom (roomId : Z).

(** [rooms] lists the values of [this.rooms] in insertion order. *)
Record t := mk {
  players : gmap Z slot;
  rooms : list GameRoom.t;
  lastTick : Z;
  validator : gmap Z InputValidator.entry
}.

Definition set_players (ps : gmap Z slot) (s : t) : t :=
  mk ps (rooms s) (lastTick s) (validator s).
Definition set_rooms (rs : list GameRoom.t) (s : t) : t :=
  mk (players s) rs (lastTick s) (validator s).
Definition set_lastTick (now : Z) (s : t) : t :=
  mk (players s) (rooms s) now (validator s).
Definition set_validator (v : gmap Z InputValidator.entry) (s : t) : t :=
  mk (players s) (rooms s) (lastTick s) v.

(** [this.rooms.get(roomId)] *)
Definition rooms_find (roomId : Z) (rs : list GameRoom.t) : option GameRoom.t :=
  List.find (fun r => (GameRoom.id r =? roomId)%Z) rs.

(** The rooms after a call that changed the room [room]. *)
Definition rooms_put (room : GameRoom.t) (rs : list GameRoom.t) : list GameRoom.t :=
  List.map (fun r => if (GameRoom.id r =? GameRoom.id room)%Z then room else r) rs.

(** [room.players.get(playerId)] *)
Definition room_player (playerId : Z) (room : GameRoom.t) : option Player.t :=
  List.find (fun p => (Player.id p =? playerId)%Z) (GameRoom.players room).

(** [this.players.get(playerId)] *)
Definition players_get (playerId : Z) (s : t) : option Player.t :=
  match players s !! playerId with
  | None => None
  | Some (Detached player) => Some player
  | Some (InRoom roomId) =>
      match rooms_find roomId (rooms s) with
      | Some room => room_player playerId room
      | None => None
      end
  end.

(** The server after a call that changed the object
    [this.players.get(playerId)] into [player]. *)
Definition players_put (playerId : Z) (player : Player.t) (s : t) : t :=
  match players s !! playerId with
  | None => s
  | Some (Detached _) => set_players (<[playerId := Detached player]> (players s)) s
  | Some (InRoom roomId) =>
      match rooms_find roomId (rooms s) with
      | Some room =>
          let ps := GameRoom.players room in
          let k := GameRoom.players_index playerId ps in
          set_rooms (rooms_put (GameRoom.set_players (<[k := player]> ps) room)
                               (rooms s)) s
      | None => s
      end
  end.

(** The names of [ROOMS_CONFIG]. *)
Definition room_name (id : Z) : string :=
  match id with
  | 0%Z => "Large 1"
  | 1%Z => "Large 2"
  | 2%Z => "Sparse"
  | 3%Z => "Small 1"
  | 4%Z => "Small 2"
  | 5%Z => "Narwhale Ball!"
  | 7%Z => "Narwhale Egg Hunt!"
  | _ => "Team Deathmatch"
  end.

(** [new NarwhaleGameServer()] *)
Definition new : M t :=
  let! now := Date_now in
  let! rooms :=
    mapM (fun cfg => GameRoom.new (fst cfg) (room_name (fst cfg)) (snd cfg))
         ROOMS_CONFIG in
  ret (mk ∅ rooms now ∅).

(** [handleNewConnection(socket, req)]: the fields set on the socket. *)
Definition handleNewConnection : M Socket.t :=
  let! now := Date_now in
  let! r := Math_random in
  ret (Socket.mk (now + Js.floor (r * 1000)) None).

(** [handleJoin(socket, buf)]: the socket afterwards and the packets
    sent to it. *)
Definition handleJoin (socket : Socket.t) (buf : list Z) (s : t)
  : M (Socket.t * list (list Z)) :=
  if (length buf <? 5)%nat then ret (socket, [])
  else
    let! roomId := Buffer.readUInt32LE buf 1 in
    match rooms_find roomId (rooms s) with
    | None => ret (socket, [])
    | Some _ =>
        let socket := Socket.mk (Socket.playerId socket) (Some roomId) in
        let! b_op := PacketEncoder.writeUInt8 OPCODES.JOIN in
        let! b_room := PacketEncoder.writeUInt32LE roomId in
        ret (socket, [b_op ++ b_room])
    end.

(** The name [handleStart] reads from its message. *)
Definition startName (buf : list Z) : string :=
  if (9 <? length buf)%nat then
    let playerName := Buffer.toString (Buffer.untilNul (drop 9 buf)) in
    let playerName := String.substring 0 16 playerName in
    if String.eqb playerName EmptyString then "Player" else playerName
  else "Player".

(** The START packet of [handleStart]: a zero-filled buffer of
    [19 + nameBuf.length] bytes, written from its start and sent whole.
    An indexed store [packet[i] = v] keeps the low eight bits of [v]. *)
Definition startPacket (playerId colorcode skincode : Z) (playerName : string)
  : M (list Z) :=
  let nameBuf := PacketEncoder.utf8 playerName in
  let size := (19 + length nameBuf)%nat in
  let b_op := [OPCODES.START mod 256]%Z in
  let! b_uid := PacketEncoder.writeUInt16LE (Js.band playerId 65535) in
  let! b_color := PacketEncoder.writeUInt32LE colorcode in
  let b_skin := [skincode mod 256]%Z in
  let b_zeros := [0; 0; 0]%Z in
  let b_len := [Js.band (Z.of_nat (length nameBuf)) 255 mod 256]%Z in
  let b_end := [0; 1]%Z in
  let written :=
    b_op ++ b_uid ++ b_color ++ b_skin ++ b_zeros ++ b_len ++ nameBuf ++ b_end in
  ret (written ++ replicate (size - length written) 0%Z).

Section WithMath.
Context `{MathLib}.

(** [handleStart(socket, buf)]: the server afterwards and the packets
    sent to the socket at once.  A player started in a room is the
    room's; its predecessor under the same identifier stays where it
    was. *)
Definition handleStart (socket : Socket.t) (buf : list Z) (s : t)
  : M (t * list (list Z)) :=
  if (length buf <? 9)%nat then ret (s, [])
  else
    let! skincode := Buffer.readUInt8 buf 1 in
    let! colorcode := Buffer.readUInt32LE buf 2 in
    let playerName := startName buf in
    let playerId := Socket.playerId socket in
    let room :=
      match Socket.currentRoom socket with
      | Some roomId => rooms_find roomId (rooms s)
      | None => None
      end in
    let! s :=
      match room with
      | Some room =>
          let! room :=
            Server.handleStart playerId skincode colorcode playerName room in
          ret (set_rooms (rooms_put room (rooms s))
                 (set_players (<[playerId := InRoom (GameRoom.id room)]> (players s)) s))
      | None =>
          let! player := Player.new playerId playerName in
          let player := Player.set_skincode skincode player in
          let player := Player.set_color colorcode player in
          ret (set_players (<[playerId := Detached player]> (players s)) s)
      end in
    let! packet := startPacket playerId colorcode skincode playerName in
    ret (s, [packet]).

(** [handleInput(socket, buf)] *)
Definition handleInput (socket : Socket.t) (buf : list Z) (s : t) : M t :=
  if (2 <=? length buf)%nat then
    let! (ok, v) :=
      InputValidator.validateInputRate (Socket.playerId socket) (validator s) in
    let s := set_validator v s in
    if negb ok then ret s
    else
      let! control := Buffer.readUInt8 buf 1 in
      match players_get (Socket.playerId socket) s with
      | Some player =>
          if negb (Js.band control 16 =? 0)%Z then
            let! (_, player) := Player.useDash InputValidator.validateDash player in
            ret (players_put (Socket.playerId socket) player s)
          else ret s
      | None => ret s
      end
  else ret s.

End WithMath.

(** [handleDisconnection(socket)], also [handleLeave(socket)] *)
Definition handleDisconnection (socket : Socket.t) (s : t) : t :=
  let playerId := Socket.playerId socket in
  let s :=
    match players_get playerId s with
    | Some player =>
        match Player.currentRoom player with
        | Some roomId =>
            match rooms_find roomId (rooms s) with
            | Some room =>
                set_rooms (rooms_put (GameRoom.removePlayer playerId room) (rooms s)) s
            | None => s
            end
        | None => s
        end
    | None => s
    end in
  set_players (delete playerId (players s)) s.

Section WithLibs.
Context `{MathLib} `{BufferLib}.

(** The callback [handleStart] leaves with [setTimeout]: the packets it
    sends to the socket. *)
Definition startTimer (socket : Socket.t) (s : t) : M (list (list Z)) :=
  match Socket.currentRoom socket with
  | Some roomId =>
      match rooms_find roomId (rooms s) with
      | Some room =>
          let! state := PacketEncoder.encodeSetElements room in
          if (0 <? length state)%nat then ret [state] else ret []
      | None => ret []
      end
  | None => ret []
  end.

(** [_sendUpdates()]: the packets built, each with the identifier of
    the room whose players it is sent to. *)
Definition _sendUpdates (s : t) : M (list (Z * list Z)) :=
  let! states :=
    mapM (fun room =>
            if (0 <? length (GameRoom.players room))%nat then
              let! state := PacketEncoder.encodeSetElements room in
              ret [(GameRoom.id room, state)]
            else ret [])
         (rooms s) in
  let! now := Date_now in
  let! boards :=
    if (Z.rem now 5000 <? 17)%Z then
      mapM (fun room =>
              if (1 <? length (GameRoom.players room))%nat then
                let! lb := PacketEncoder.encodeLeaderBoard (GameRoom.players room) in
                ret [(GameRoom.id room, lb)]
              else ret [])
           (rooms s)
    else ret [] in
  ret (concat states ++ concat boards).

(** The callback of [_startGameLoop()]: one tick. *)
Definition tick (s : t) : M (t * list (Z * list Z)) :=
  let! now := Date_now in
  let dt := (inject_Z (now - lastTick s) / 1000)%Q in
  let s := set_lastTick now s in
  let! rooms := mapM (GameRoom.update dt) (rooms s) in
  let s := set_rooms rooms s in
  let! sent := _sendUpdates s in
  ret (s, sent).

End WithLibs.

End NarwhaleGameServer.

(** * Reference library functions

    Rational stand-ins for the library functions, used to run the model
    on concrete inputs: truncated series for the trigonometric
    functions, an integer square root scaled by [10^6], and the
    IEEE 754 binary32 encoding (round to nearest, ties to even) for
    [writeFloatLE]. *)

Module Reference.

(** Results are cut to a multiple of [2^-24], as a stand-in for the
    rounding of the library. *)
Definition cut (x : Q) : Q :=
  Qred (inject_Z (Qfloor (x * 16777216)) / 16777216).

Definition cos (x : Q) : Q :=
  let x := cut x in
  cut (1 - x * x / 2 + x * x * x * x / 24).

Definition sin (x : Q) : Q :=
  let x := cut x in
  cut (x - x * x * x / 6 + x * x * x * x * x / 120).

Definition sqrt (x : Q) : Q :=
  Qred (inject_Z (Z.sqrt (Qfloor (x * 1000000000000))) / 1000000).

Definition atan (t : Q) : Q := (t / (1 + 0.28 * t * t))%Q.

Definition atan2 (y x : Q) : Q :=
  if Qeq_bool x 0 then
    if Js.ltb 0 y then cut (Js.PI / 2)
    else if Js.ltb y 0 then cut (- Js.PI / 2) else 0%Q
  else
    let t := cut (y / x) in
    let u := cut (x / y) in
    let a :=
      if Js.leb (Qabs y) (Qabs x) then atan t
      else ((if Js.ltb 0 t then Js.PI / 2 else - Js.PI / 2) - atan u)%Q in
    if Js.ltb 0 x then cut a
    else if Js.ltb y 0 then cut (a - Js.PI) else cut (a + Js.PI).

#[export] Instance math : MathLib := {|
  Math_cos := cos;
  Math_sin := sin;
  Math_atan2 := atan2;
  Math_sqrt := sqrt;
  Math_hypot := fun x y => sqrt (x * x + y * y)
|}.

Definition pow2 (k : Z) : Q := Qpower 2 k.

Definition round_even (x : Q) : Z :=
  let f := Qfloor x in
  let r := (x - inject_Z f)%Q in
  if Js.ltb r (1 # 2) then f
  else if Js.ltb (1 # 2) r then (f + 1)%Z
  else if Z.even f then f else (f + 1)%Z.

Definition float32_bits (q : Q) : Z :=
  if Qeq_bool q 0 then 0%Z
  else
    let s := if Js.ltb q 0 then 2147483648%Z else 0%Z in
    let a := Qabs q in
    let e0 := (Z.log2 (Qnum a) - Z.log2 (Zpos (Qden a)))%Z in
    let e := if Js.ltb a (pow2 e0) then (e0 - 1)%Z else e0 in
    let e := Z.max e (-126) in
    let m := round_even (a / pow2 (e - 23)) in
    (s + Z.min ((e + 126) * 8388608 + m) 2139095040)%Z.

Definition float32LE (q : Q) : list Z :=
  let b := float32_bits q in
  [b mod 256; b / 256 mod 256; b / 65536 mod 256; b / 16777216 mod 256]%Z.

#[export] Instance buffer : BufferLib.
Proof.
  refine {| floatLE := float32LE |}.
  - intros q. reflexivity.
  - intros q. unfold float32LE.
    repeat constructor;
      match goal with
      | |- (_ <= ?a mod 256)%Z => pose proof (Z.mod_pos_bound a 256); lia
      | |- (?a mod 256 <= _)%Z => pose proof (Z.mod_pos_bound a 256); lia
      end.
Defined.

(** A world whose clock starts at [t0] and advances one millisecond per
    reading, and whose random source cycles through sixteenths. *)
Definition world (t0 : Z) : World :=
  mkWorld (fun n => (t0 + Z.of_nat n)%Z) 0
          (fun n => (inject_Z (Z.of_nat (n * 7 mod 16)) / 16)%Q) 0.

(** A player of room 0 as the constructor and [spawn] leave it, with
    the level and size [updateSize] derives from [score]. *)
Definition narwhal (id team score : Z) (x y : Q) : Player.t :=
  let level := (score / 100 + 1)%Z in
  Player.mk id "A" id 16711680 team (36 + (level - 1) * 3) 1 level score 0 0
            (Vec2.mk x y) (Vec2.mk 0 0) 0 0 150
            (Player.initializeParts (Vec2.mk x y) 0) 11 5 5 0 0.6 0.5 0 0 3
            true true 0 (Some 0%Z) 0.001 0 0 (Vec2.mk x y) 0 0 1000.

(** Room 0 with the players [ps] and no food. *)
Definition room (ps : list Player.t) : GameRoom.t :=
  GameRoom.mk 0 "Large 1" (Options.mk 6400 6400) ps [].

(** Two players that touch: the first of size 48, the second of size
    36, 30 apart. *)
Definition large : Player.t := narwhal 7 1 400 3200 3200.
Definition small : Player.t := narwhal 8 (-1) 0 3230 3200.


(** A player of level 3, 30 away from [large], of level 5. *)
Definition medium : Player.t := narwhal 8 (-1) 200 3230 3200.

(** Room 1, empty. *)
Definition room1 : GameRoom.t :=
  GameRoom.mk 1 "Large 2" (Options.mk 6400 6400) [] [].

(** A START message: skin 3, colour 0xFF0000, name "Bob". *)
Definition startBob : list Z :=
  [18; 3; 0; 0; 255; 0; 0; 0; 0; 66; 111; 98; 0]%Z.

End Reference.

(** * Definitions used to state the properties *)


(** [n] successive calls of [validateInputRate(playerId)] and their
    results. *)
Fixpoint validateInputRate_calls (n : nat) (playerId : Z)
    (playerInputs : gmap Z InputValidator.entry)
  : M (list bool * gmap Z InputValidator.entry) :=
  match n with
  | O => ret ([], playerInputs)
  | S n' =>
      let! (b, playerInputs) :=
        InputValidator.validateInputRate playerId playerInputs in
      let! (bs, playerInputs) :=
        validateInputRate_calls n' playerId playerInputs in
      ret (b :: bs, playerInputs)
  end.

(** The world after [n] more readings of the clock. *)
Definition clock_advance (n : nat) (w : World) : World :=
  mkWorld (clock w) (clockPos w + n) (draws w) (drawPos w).

(** The state [die()] leaves, given the clock reading [now]. *)
Definition dead (now : Z) (p : Player.t) : Player.t :=
  Player.set_respawnTime (now + 3000)%Z
    (Player.set_deaths (Player.deaths p + 1)%Z
       (Player.set_isSpawned false (Player.set_isAlive false p))).

(** [ensures c Q]: from every world, [c] returns (it does not throw) and
    its result satisfies [Q]. *)
Definition ensures {A} (c : M A) (Q : A -> Prop) : Prop :=
  forall w, exists a w', c w = Some (a, w') /\ Q a.

(** What the constructor establishes and every operation keeps: a chain
    of eleven parts, a dash charge between 0 and [maxDash], and, as no
    operation assigns [breakPoint], any property [B] of the break
    point. *)
Definition wellFormed (B : nat -> Prop) (p : Player.t) : Prop :=
  length (Player.parts p) = 11%nat
  /\ B (Player.breakPoint p)
  /\ (0 <= Player.curDash p <= Player.maxDash p)%Z.

(** The players of a room: all well formed, and as many as [n]. *)
Definition playersOk (B : nat -> Prop) (n : nat) (ps : list Player.t) : Prop :=
  Forall (wellFormed B) ps /\ length ps = n.

Section SpecWithMath.
Context `{MathLib}.

(** A tail in which every part follows its predecessor. *)
Fixpoint followChain (size : Z) (prev : NarwhalePart.t)
    (rest : list NarwhalePart.t) : list NarwhalePart.t :=
  match rest with
  | [] => []
  | part :: rest' =>
      let part' := Player.follow size prev part in
      part' :: followChain size part' rest'
  end.





End SpecWithMath.




(** A computation that reads neither the clock nor the random source:
    it throws, or returns [a], whatever the world, and leaves the world
    as it is. *)
Definition worldFree {A} (c : M A) : Prop :=
  exists r : option A, forall w, c w = (fun a => (a, w)) <$> r.
(** * Definitions used to state the properties of the packets, the rooms
    and the server *)

(** A byte of a packet. *)
Definition byte (b : Z) : Prop := (0 <= b <= 255)%Z.

(** [returns c a]: [c] returns [a] without reading the world. *)
Definition returns {A} (c : M A) (a : A) : Prop :=
  forall w, c w = Some (a, w).

(** [post c Q]: whenever [c] returns, its result satisfies [Q]. *)
Definition post {A} (c : M A) (Q : A -> Prop) : Prop :=
  forall w a w', c w = Some (a, w') -> Q a.

(** The number of bytes the parts after the head take in a FISH
    record: one each, and sixteen for a part at the break point. *)
Definition partsLength (bp n : nat) : nat :=
  (n - 1) + (if (1 <=? bp)%nat && (bp <? n)%nat then 15 else 0).

(** The number of bytes of the FISH record of a player. *)
Definition fishLength (p : Player.t) : nat :=
  30 + Nat.min (length (PacketEncoder.utf8 (Player.name p))) 20
  + partsLength (Player.breakPoint p) (length (Player.parts p)).

(** The players [encodeSetElements] writes. *)
Definition visible (room : GameRoom.t) : list Player.t :=
  List.filter (fun p => Player.isAlive p && Player.isSpawned p)
              (GameRoom.players room).

(** The [k]-th food [generateFood] creates from the world [w]: it takes
    the clock reading [k] and the draws [4k] to [4k+3] from [w] on. *)
Definition foodAt (opts : Options.t) (w : World) (k : nat) : Food.t :=
  let d i := draws w (drawPos w + 4 * k + i) in
  let value := if Js.ltb (d 2%nat) 0.1 then 3%Z else 1%Z in
  Food.mk (clock w (clockPos w + k) + Js.floor (d 3%nat * 1000))
          (d 0%nat * (Options.width opts - 200) + 100)
          (d 1%nat * (Options.height opts - 200) + 100)
          value
          (if (1 <? value)%Z then 8 else 4)
          (if (1 <? value)%Z then 16739179 else 5164484).

(** The world after [n] foods have been created. *)
Definition afterFoods (n : nat) (w : World) : World :=
  mkWorld (clock w) (clockPos w + n) (draws w) (drawPos w + 4 * n).

(** A food the packet cannot hold: bit 31 of its identifier is set. *)
Definition badFood (f : Food.t) : Prop :=
  (2147483648 <= Food.id f mod 4294967296)%Z.

(** The commands whose ticks all have a [dt] that satisfies [D]. *)
Definition ticksOk (D : Q -> Prop) (cs : list Server.command) : Prop :=
  Forall (fun c => match c with
                   | Server.Tick dt => D dt
                   | _ => True
                   end) cs.

(** A room whose players satisfy [I], whose foods satisfy [F] and which
    holds [n] foods at most. *)
Definition roomOk (I : Player.t -> Prop) (F : Food.t -> Prop) (n : nat)
    (r : GameRoom.t) : Prop :=
  Forall I (GameRoom.players r)
  /\ Forall F (GameRoom.foods r)
  /\ (length (GameRoom.foods r) <= n)%nat.

(** What a step of a sweep over the room [r0] keeps: the properties of
    players and foods, the number of players, a bound on the number of
    foods, the options and the identifier. *)
Definition sweepOk (I : Player.t -> Prop) (F : Food.t -> Prop)
    (r0 r : GameRoom.t) (n : nat) : Prop :=
  Forall I (GameRoom.players r)
  /\ length (GameRoom.players r) = length (GameRoom.players r0)
  /\ Forall F (GameRoom.foods r)
  /\ (length (GameRoom.foods r) <= n)%nat
  /\ GameRoom.options r = GameRoom.options r0
  /\ GameRoom.id r = GameRoom.id r0.

(** The statistics of a player: a score, kills and deaths that are not
    negative, a level from 1 on with the size that belongs to it, and a
    top speed between 80 and 150. *)
Definition statsOk (p : Player.t) : Prop :=
  Player.parts p <> []
  /\ (0 <= Player.score p)%Z
  /\ (1 <= Player.level p)%Z
  /\ Player.size p = (36 + (Player.level p - 1) * 3)%Z
  /\ (0 <= Player.kills p)%Z
  /\ (0 <= Player.deaths p)%Z
  /\ (80 <= Player.maxSpeed p <= 150)%Z.

(** The two kinds of food. *)
Definition foodOk (f : Food.t) : Prop :=
  (Food.value f = 1%Z /\ Food.size f = 4%Z)
  \/ (Food.value f = 3%Z /\ Food.size f = 8%Z).

(** The timers of a player: the progress towards the next dash charge
    is in [0, 1), the invincibility left in [0, 2]. *)
Definition timersOk (p : Player.t) : Prop :=
  Player.parts p <> []
  /\ (0 <= Player.overDash p < 1)%Q
  /\ (0 <= Player.invincibleDur p <= 2)%Q
  /\ (0 <= Player.dashRegenRate p)%Q.

(** The players of the leader board: the first ten of the players
    alive, by score. *)
Definition leaders (players : list Player.t) : list Player.t :=
  take 10 (PacketEncoder.sortByScore (List.filter Player.isAlive players)).

(** The players of [l] whose score is [s], in the order of [l]. *)
Definition withScore (s : Z) (l : list Player.t) : list Player.t :=
  List.filter (fun p => (Player.score p =? s)%Z) l.

(** A server each of whose rooms holds such a food among the first
    hundred. *)
Definition poisoned (s : NarwhaleGameServer.t) : Prop :=
  Forall (fun room => Exists badFood (take 100 (GameRoom.foods room)))
         (NarwhaleGameServer.rooms s).

(** A room whose packets can be built: the players written have a head
    part, no player has a negative level, and the foods written have
    bit 31 of their identifier clear. *)
Definition sendable (room : GameRoom.t) : Prop :=
  Forall (fun p => Player.parts p <> []) (visible room)
  /\ Forall (fun p => (0 <= Player.level p)%Z) (GameRoom.players room)
  /\ Forall (fun f => (Food.id f mod 4294967296 < 2147483648)%Z)
            (take 100 (GameRoom.foods room)).

(** The rooms that hold more than [n] players. *)
Definition roomsOver (n : nat) (rs : list GameRoom.t) : list GameRoom.t :=
  List.filter (fun room => (n <? length (GameRoom.players room))%nat) rs.

(** * Properties of the JavaScript operations *)

Section JsFacts.
Local Open Scope Z_scope.

Lemma ToInt32_small z :
  -2147483648 <= z < 2147483648 -> Js.ToInt32 z = z.
Proof.
  intros Hz. unfold Js.ToInt32.
  rewrite Z.mod_small by lia. lia.
Qed.

(** [ToInt32] keeps the residue modulo every divisor of [2^32]. *)
Lemma ToInt32_mod z m :
  0 < m -> (m | 4294967296) -> Js.ToInt32 z mod m = z mod m.
Proof.
  intros Hm [c Hc]. unfold Js.ToInt32.
  rewrite (Z.mod_eq (z + 2147483648) 4294967296) by lia.
  set (q := (z + 2147483648) / 4294967296).
  replace (z + 2147483648 - 4294967296 * q - 2147483648)
    with (z + (- (c * q)) * m) by (rewrite Hc; ring).
  apply Z_mod_plus_full.
Qed.

(** [z & (2^k - 1)] is the residue of [z] modulo [2^k]. *)
Lemma band_ones z k :
  0 <= k <= 31 -> Js.band z (Z.ones k) = z mod 2 ^ k.
Proof.
  intros Hk. unfold Js.band.
  assert (Hp : 0 < 2 ^ k) by (apply Z.pow_pos_nonneg; lia).
  assert (Hlt : 2 ^ k <= 2 ^ 31) by (apply Z.pow_le_mono_r; lia).
  change (2 ^ 31) with 2147483648 in Hlt.
  rewrite (ToInt32_small (Z.ones k)) by (rewrite Z.ones_equiv; lia).
  rewrite Z.land_ones by lia.
  apply ToInt32_mod; [lia|].
  exists (2 ^ (32 - k)). rewrite <- Z.pow_add_r by lia.
  replace (32 - k + k) with 32 by lia. reflexivity.
Qed.

Lemma band_255 z : Js.band z 255 = z mod 256.
Proof. apply (band_ones z 8). lia. Qed.

Lemma band_31 z : Js.band z 31 = z mod 32.
Proof. apply (band_ones z 5). lia. Qed.

Lemma band_255_range z : 0 <= Js.band z 255 <= 255.
Proof. rewrite band_255. pose proof (Z.mod_pos_bound z 256). lia. Qed.

(** [x << 3] on a five-bit value. *)
Lemma shl_3_small x : 0 <= x < 32 -> Js.shl x 3 = 8 * x.
Proof.
  intros Hx. unfold Js.shl.
  rewrite (ToInt32_small x) by lia.
  change (Z.land (Js.ToUint32 3) 31) with 3.
  rewrite Z.shiftl_mul_pow2 by lia.
  rewrite ToInt32_small; lia.
Qed.


End JsFacts.

Lemma ltb_lt x y : Js.ltb x y = true <-> (x < y)%Q.
Proof. unfold Js.ltb, Qlt. apply Z.ltb_lt. Qed.

(** * The angle byte *)

Section AngleByte.
Local Open Scope Z_scope.






End AngleByte.

(** * The team and level byte *)

Section TeamLevel.
Local Open Scope Z_scope.


End TeamLevel.


(** * The rate limiter *)

Section RateLimiter.
Import InputValidator.
Local Open Scope Z_scope.


Lemma clock_advance_0 w : clock_advance 0 w = w.
Proof. destruct w. unfold clock_advance. simpl. f_equal. lia. Qed.

(** One call inside the window of an existing entry. *)
Lemma validateInputRate_inside pid (m : gmap Z entry) w c r :
  m !! pid = Some (mkEntry c r) ->
  clock w (clockPos w) - r <= 1000 ->
  validateInputRate pid m w
  = Some ((c + 1 <=? 120, <[pid := mkEntry (c + 1) r]> m), clock_advance 1 w).
Proof.
  intros Hm Hw. unfold validateInputRate, bind, Date_now, ret. simpl.
  rewrite Hm. simpl.
  destruct (Z.ltb_spec 1000 (clock w (clockPos w) - r)) as [Hlt | _]; [lia|].
  simpl. unfold clock_advance, CONFIG.maxInputRate.
  repeat f_equal. lia.
Qed.

(** One call that opens a window: no entry yet, or the last window
    began more than 1000 ms ago. *)
Lemma validateInputRate_opens pid (m : gmap Z entry) w :
  match m !! pid with
  | None => True
  | Some d => 1000 < clock w (clockPos w) - lastReset d
  end ->
  validateInputRate pid m w
  = Some ((true, <[pid := mkEntry 1 (clock w (clockPos w))]> m),
          clock_advance 1 w).
Proof.
  intros Hm. unfold validateInputRate, bind, Date_now, ret. simpl.
  destruct (m !! pid) as [d|]; simpl.
  - destruct (Z.ltb_spec 1000 (clock w (clockPos w) - lastReset d)); [|lia].
    simpl. unfold clock_advance. repeat f_equal. lia.
  - replace (clock w (clockPos w) - clock w (clockPos w)) with 0 by lia.
    simpl. unfold clock_advance. repeat f_equal. lia.
Qed.

Lemma validateInputRate_calls_inside n : forall pid (m : gmap Z entry) w c r,
  m !! pid = Some (mkEntry c r) ->
  (forall i, (i < n)%nat -> clock w (clockPos w + i) - r <= 1000) ->
  validateInputRate_calls n pid m w
  = Some ((List.map (fun i : nat => c + 1 + Z.of_nat i <=? 120) (seq 0 n),
           <[pid := mkEntry (c + Z.of_nat n) r]> m),
          clock_advance n w).
Proof.
  induction n as [|n IH]; intros pid m w c r Hm Hw.
  - simpl. unfold ret. rewrite clock_advance_0.
    replace (c + Z.of_nat 0) with c by lia.
    rewrite insert_id by exact Hm. reflexivity.
  - cbn [validateInputRate_calls]. unfold bind at 1.
    rewrite (validateInputRate_inside pid m w c r Hm).
    2:{ specialize (Hw O ltac:(lia)). rewrite Nat.add_0_r in Hw. exact Hw. }
    unfold bind at 1.
    rewrite (IH pid _ (clock_advance 1 w) (c + 1) r).
    2:{ apply lookup_insert_eq. }
    2:{ intros i Hi. simpl. specialize (Hw (S i) ltac:(lia)).
        replace (clockPos w + 1 + i)%nat with (clockPos w + S i)%nat by lia.
        exact Hw. }
    unfold ret. rewrite insert_insert_eq.
    replace (c + 1 + Z.of_nat n) with (c + Z.of_nat (S n)) by lia.
    replace (clock_advance n (clock_advance 1 w)) with (clock_advance (S n) w)
      by (unfold clock_advance; simpl; f_equal; lia).
    cbn [seq List.map]. rewrite <- seq_shift, List.map_map.
    replace (c + 1 + Z.of_nat 0) with (c + 1) by lia.
    do 4 f_equal.
    apply List.map_ext. intros i.
    replace (c + 1 + Z.of_nat (S i)) with (c + 1 + 1 + Z.of_nat i) by lia.
    reflexivity.
Qed.

(** C4: from the call that opens a window (the first call of a
    connection, or the first call more than 1000 ms after the window
    began), the calls made while the clock is at most 1000 ms past the
    window start are accepted exactly up to the 120th: call number [i]
    (counted from 0) returns [true] iff [i < 120].  The opening call
    restarts the count, which after [n] calls in the window is [n]. *)
Theorem validateInputRate_window pid (m : gmap Z entry) w n :
  match m !! pid with
  | None => True
  | Some d => 1000 < clock w (clockPos w) - lastReset d
  end ->
  (forall i, (i < n)%nat ->
     clock w (clockPos w + i) - clock w (clockPos w) <= 1000) ->
  exists m',
    validateInputRate_calls n pid m w
    = Some ((List.map (fun i : nat => (i <? 120)%nat) (seq 0 n), m'),
            clock_advance n w)
    /\ ((0 < n)%nat ->
        m' !! pid = Some (mkEntry (Z.of_nat n) (clock w (clockPos w)))).
Proof.
  intros Hopen Hwin. destruct n as [|n].
  - exists m. simpl. unfold ret. rewrite clock_advance_0. split; [reflexivity|lia].
  - exists (<[pid := mkEntry (Z.of_nat (S n)) (clock w (clockPos w))]> m).
    split; [|intros _; apply lookup_insert_eq].
    cbn [validateInputRate_calls]. unfold bind at 1.
    rewrite (validateInputRate_opens pid m w Hopen).
    unfold bind at 1.
    rewrite (validateInputRate_calls_inside n pid _ (clock_advance 1 w) 1
               (clock w (clockPos w))).
    2:{ apply lookup_insert_eq. }
    2:{ intros i Hi. simpl. specialize (Hwin (S i) ltac:(lia)).
        replace (clockPos w + 1 + i)%nat with (clockPos w + S i)%nat by lia.
        exact Hwin. }
    unfold ret. rewrite insert_insert_eq.
    replace (1 + Z.of_nat n) with (Z.of_nat (S n)) by lia.
    replace (clock_advance n (clock_advance 1 w)) with (clock_advance (S n) w)
      by (unfold clock_advance; simpl; f_equal; lia).
    cbn [seq List.map]. rewrite <- seq_shift, List.map_map.
    change (0 <? 120)%nat with true.
    do 4 f_equal.
    apply List.map_ext. intros i.
    destruct (Z.leb_spec (1 + 1 + Z.of_nat i) 120);
      destruct (Nat.ltb_spec (S i) 120); try reflexivity; lia.
Qed.

End RateLimiter.

(** * Dash *)

Section Dash.
Context `{MathLib}.
Local Open Scope Z_scope.

(** C5: after a successful [useDash] whose time stamp is a clock
    reading after the epoch, a second [useDash] that reads the clock
    less than 100 ms past that stamp returns [false] and changes
    nothing: the velocity is the one the first call left, and the
    charge is one less than before the first call. *)
Theorem useDash_twice_within_100ms (p p1 : Player.t) (w w1 : World) :
  1 <= Player.curDash p ->
  Player.useDash InputValidator.validateDash p w = Some ((true, p1), w1) ->
  0 < clock w (S (clockPos w)) ->
  clock w (S (S (clockPos w))) - clock w (S (clockPos w)) < 100 ->
  exists w2,
    Player.useDash InputValidator.validateDash p1 w1 = Some ((false, p1), w2)
    /\ Player.curDash p1 = Player.curDash p - 1
    /\ Player.lastDashTime p1 = clock w (S (clockPos w)).
Proof.
  intros Hc Hfirst Hpos Hlt.
  unfold Player.useDash, InputValidator.validateDash, bind, ret, Date_now in Hfirst.
  simpl in Hfirst.
  destruct (Z.leb_spec (Player.curDash p) 0) as [Hle | _]; [lia|].
  destruct (negb (Player.lastDashTime p =? 0)
            && (clock w (clockPos w) - Player.lastDashTime p <? 100));
    simpl in Hfirst; [discriminate|].
  destruct (Z.ltb_spec 0 (Player.curDash p)) as [_ | Hle]; [|lia].
  simpl in Hfirst. injection Hfirst as Hp1 Hw1. subst p1 w1.
  unfold Player.useDash, InputValidator.validateDash, bind, ret, Date_now.
  simpl.
  destruct (Z.leb_spec (Player.curDash p - 1) 0) as [Hle | Hgt].
  - simpl. eexists. repeat split.
  - destruct (Z.eqb_spec (clock w (S (clockPos w))) 0) as [He | _]; [lia|].
    destruct (Z.ltb_spec (clock w (S (S (clockPos w))) - clock w (S (clockPos w))) 100)
      as [_ | Hge]; [|lia].
    simpl. eexists. repeat split.
Qed.

End Dash.

(** * Damage *)

Section Damage.
Local Open Scope Z_scope.


Lemma die_dead p w :
  Player.die p w
  = Some (dead (clock w (clockPos w)) p,
          mkWorld (clock w) (S (clockPos w)) (draws w) (drawPos w)).
Proof. reflexivity. Qed.

(** C7: [takeDamage] on an invincible victim returns [false] and
    changes no player; otherwise it returns [true], the victim is dead
    ([isAlive] false, one more death, respawn 3000 ms after the clock
    reading), an attacker that is another player has one more kill and
    [100 + victim.level * 20] more score, and every other player is
    unchanged. *)
Theorem takeDamage_effect (amount : Z) (attacker : option nat) (this : nat)
    (ps : list Player.t) (victim : Player.t) (w : World) :
  ps !! this = Some victim ->
  ((0 < Player.invincibleDur victim)%Q ->
     Player.takeDamage amount attacker this ps w = Some ((false, ps), w))
  /\ (~ (0 < Player.invincibleDur victim)%Q ->
      exists ps',
        Player.takeDamage amount attacker this ps w
        = Some ((true, ps'),
                mkWorld (clock w) (S (clockPos w)) (draws w) (drawPos w))
        /\ ps' !! this = Some (dead (clock w (clockPos w)) victim)
        /\ Player.isAlive (dead (clock w (clockPos w)) victim) = false
        /\ Player.deaths (dead (clock w (clockPos w)) victim)
           = Player.deaths victim + 1
        /\ Player.respawnTime (dead (clock w (clockPos w)) victim)
           = clock w (clockPos w) + 3000
        /\ (forall a killer, attacker = Some a -> a <> this ->
              ps !! a = Some killer ->
              exists killer',
                ps' !! a = Some killer'
                /\ Player.kills killer' = Player.kills killer + 1
                /\ Player.score killer'
                   = Player.score killer + (100 + Player.level victim * 20)
                /\ killer' = Player.credit (Player.level victim) killer)
        /\ (forall k, k <> this -> attacker <> Some k -> ps' !! k = ps !! k)).
Proof.
  intros Hv. split.
  - intros Hinv. unfold Player.takeDamage. rewrite Hv.
    apply ltb_lt in Hinv. rewrite Hinv. reflexivity.
  - intros Hinv. unfold Player.takeDamage. rewrite Hv.
    destruct (Js.ltb 0 (Player.invincibleDur victim)) eqn:E;
      [apply ltb_lt in E; contradiction|].
    set (ps1 := match attacker with
                | Some a =>
                    if negb (a =? this)%nat
                    then alter (Player.credit (Player.level victim)) a ps
                    else ps
                | None => ps
                end).
    assert (Hv1 : ps1 !! this = Some victim).
    { unfold ps1. destruct attacker as [a|]; [|exact Hv].
      destruct (Nat.eqb_spec a this) as [-> | Hne]; simpl; [exact Hv|].
      rewrite list_lookup_alter_ne by exact Hne. exact Hv. }
    rewrite Hv1. unfold bind. rewrite die_dead. unfold ret.
    eexists. split; [reflexivity|].
    assert (Hlen : (this < length ps1)%nat) by (eapply lookup_lt_Some; eauto).
    split; [apply list_lookup_insert_eq; exact Hlen|].
    split; [reflexivity|]. split; [reflexivity|]. split; [reflexivity|].
    split.
    + intros a killer Hatt Hne Hk.
      rewrite list_lookup_insert_ne by congruence.
      unfold ps1. rewrite Hatt. destruct (Nat.eqb_spec a this) as [-> | _]; [congruence|].
      simpl. rewrite list_lookup_alter_eq, Hk. simpl.
      eexists. split; [reflexivity|]. repeat split.
    + intros k Hk Ha.
      rewrite list_lookup_insert_ne by congruence.
      unfold ps1. destruct attacker as [a|]; [|reflexivity].
      destruct (negb (a =? this)%nat); [|reflexivity].
      apply list_lookup_alter_ne. congruence.
Qed.

End Damage.

(** * Computations that return *)

Lemma ensures_ret {A} (a : A) (Q : A -> Prop) : Q a -> ensures (ret a) Q.
Proof. intros Ha w. exists a, w. split; [reflexivity | exact Ha]. Qed.

Lemma ensures_bind {A B} (c : M A) (k : A -> M B) (P : A -> Prop) (Q : B -> Prop) :
  ensures c P -> (forall a, P a -> ensures (k a) Q) -> ensures (bind c k) Q.
Proof.
  intros Hc Hk w. destruct (Hc w) as (a & w1 & Ec & Pa).
  destruct (Hk a Pa w1) as (b & w2 & Ek & Qb).
  exists b, w2. unfold bind. rewrite Ec. split; assumption.
Qed.

Lemma ensures_weaken {A} (c : M A) (P Q : A -> Prop) :
  ensures c P -> (forall a, P a -> Q a) -> ensures c Q.
Proof.
  intros Hc HPQ w. destruct (Hc w) as (a & w1 & Ec & Pa).
  exists a, w1. split; [exact Ec | apply HPQ, Pa].
Qed.

Lemma ensures_foldM {A B} (f : A -> B -> M A) (I : A -> Prop) (l : list B) :
  (forall a b, I a -> b ∈ l -> ensures (f a b) I) ->
  forall a, I a -> ensures (foldM f l a) I.
Proof.
  induction l as [|b l IH]; intros Hf a Ha; simpl.
  - apply ensures_ret, Ha.
  - eapply ensures_bind.
    + apply Hf; [exact Ha | apply elem_of_cons; left; reflexivity].
    + intros a' Ha'. apply IH; [|exact Ha'].
      intros a0 b0 Ha0 Hb0. apply Hf; [exact Ha0|].
      apply elem_of_cons. right. exact Hb0.
Qed.

Lemma ensures_mapM {A B} (f : A -> M B) (P : A -> Prop) (Q : B -> Prop) (l : list A) :
  (forall a, P a -> ensures (f a) Q) ->
  Forall P l ->
  ensures (mapM f l) (fun l' => Forall Q l' /\ length l' = length l).
Proof.
  intros Hf. induction l as [|a l IH]; intros Hl; simpl.
  - apply ensures_ret. split; [constructor | reflexivity].
  - apply Forall_cons in Hl as [Ha Hl].
    eapply ensures_bind; [apply Hf, Ha|]. intros b Hb.
    eapply ensures_bind; [apply IH, Hl|]. intros bs [Hbs Hlen].
    apply ensures_ret. split; [constructor; assumption|].
    simpl. rewrite Hlen. reflexivity.
Qed.

Lemma ensures_Date_now : ensures Date_now (fun _ => True).
Proof. intros w. eexists _, _. split; [reflexivity | exact I]. Qed.

Lemma ensures_Math_random : ensures Math_random (fun _ => True).
Proof. intros w. eexists _, _. split; [reflexivity | exact I]. Qed.

Ltac case_ifs :=
  repeat match goal with
         | |- context [if ?b then _ else _] => destruct b
         | |- context [match rooms_get ?r with _ => _ end] => destruct (rooms_get r)
         end.

(** * The chain and dash invariant *)


Section Invariant.
Context `{MathLib}.
Variable B : nat -> Prop.
Hypothesis B_new : B 11%nat.
Local Open Scope Z_scope.

Local Abbreviation wf := (wellFormed B).
Local Abbreviation playersOk := (playersOk B).

Lemma new_wellFormed id name :
  ensures (Player.new id name) (fun p => wf p /\ Player.id p = id).
Proof.
  intros w. unfold Player.new, Player.randomColor, bind, ret, Math_random, Date_now.
  simpl. eexists _, _. split; [reflexivity|].
  unfold wellFormed. simpl. repeat split; try exact B_new; lia.
Qed.

Lemma spawn_wellFormed room p :
  wf p ->
  ensures (Player.spawn room p)
          (fun q => wf q /\ Player.id q = Player.id p).
Proof.
  intros (Hl & Hb & Hd) w.
  unfold Player.spawn, bind, ret, Math_random. simpl.
  eexists _, _. split; [reflexivity|].
  unfold wellFormed. simpl. rewrite length_imap. repeat split; try assumption; lia.
Qed.

Lemma processMovement_frame dt p :
  let q := Player.processMovement dt p in
  Player.parts q = Player.parts p
  /\ Player.breakPoint q = Player.breakPoint p
  /\ Player.size q = Player.size p
  /\ Player.curDash q = Player.curDash p
  /\ Player.maxDash q = Player.maxDash p
  /\ Player.score q = Player.score p
  /\ Player.kills q = Player.kills p
  /\ Player.deaths q = Player.deaths p.
Proof. unfold Player.processMovement. case_ifs; repeat split. Qed.

Lemma clampToWorld_frame p :
  let q := Player.clampToWorld p in
  Player.parts q = Player.parts p
  /\ Player.breakPoint q = Player.breakPoint p
  /\ Player.curDash q = Player.curDash p
  /\ Player.maxDash q = Player.maxDash p
  /\ Player.score q = Player.score p
  /\ Player.kills q = Player.kills p
  /\ Player.deaths q = Player.deaths p.
Proof. unfold Player.clampToWorld. case_ifs; repeat split. Qed.

Lemma updateParts_loop_length bp size dt rest : forall i prev,
  length (Player.updateParts_loop bp size dt i prev rest) = length rest.
Proof.
  induction rest as [|part rest IH]; intros i prev; simpl; [reflexivity|].
  rewrite IH. reflexivity.
Qed.

(** [updateParts] returns whenever the chain is not empty, and only
    changes the chain, whose length it keeps. *)
Lemma updateParts_frame dt p w :
  Player.parts p <> [] ->
  exists q,
    Player.updateParts dt p w = Some (q, w)
    /\ length (Player.parts q) = length (Player.parts p)
    /\ Player.breakPoint q = Player.breakPoint p
    /\ Player.curDash q = Player.curDash p
    /\ Player.maxDash q = Player.maxDash p
    /\ Player.score q = Player.score p
    /\ Player.kills q = Player.kills p
    /\ Player.deaths q = Player.deaths p.
Proof.
  intros Hp. unfold Player.updateParts.
  destruct (Player.parts p) as [|head rest] eqn:E; [contradiction|].
  eexists. split; [reflexivity|]. simpl.
  rewrite updateParts_loop_length. repeat split.
Qed.

Lemma wellFormed_parts p : wf p -> Player.parts p <> [].
Proof. intros (Hl & _) E. rewrite E in Hl. discriminate. Qed.

Lemma update_wellFormed dt p :
  wf p -> ensures (Player.update dt p) wf.
Proof.
  intros Hwf. unfold Player.update.
  destruct (Player.isAlive p); simpl.
  - (* alive *)
    match goal with
    | |- context [Player.processMovement dt ?q] =>
        set (p0 := q); assert (Hp0 : wf p0)
    end.
    { destruct Hwf as (Hl & Hb & Hd). unfold p0, wf.
      destruct (Z.ltb_spec (Player.curDash p) (Player.maxDash p));
        cbn -[Z.min];
        [destruct (Js.leb 1 _); cbn -[Z.min]|]; repeat split; try assumption; lia. }
    clearbody p0.
    destruct (processMovement_frame dt p0) as (Hp1 & Hb1 & _ & Hc1 & Hm1 & _).
    set (pm := Player.processMovement dt p0) in *. clearbody pm.
    intros w.
    destruct (updateParts_frame dt pm w) as (q & Hq & Hl2 & Hb2 & Hc2 & Hm2 & _).
    { rewrite Hp1. apply wellFormed_parts, Hp0. }
    unfold bind. rewrite Hq.
    destruct (clampToWorld_frame q) as (Hp3 & Hb3 & Hc3 & Hm3 & _).
    set (qc := Player.clampToWorld q) in *. clearbody qc.
    eexists _, _. split; [reflexivity|].
    destruct Hp0 as (Hl & Hb & Hd). unfold wellFormed. simpl.
    rewrite Hp3, Hl2, Hp1, Hb3, Hb2, Hb1, Hc3, Hc2, Hc1, Hm3, Hm2, Hm1.
    repeat split; try assumption; lia.
  - (* dead *)
    eapply ensures_bind; [apply ensures_Date_now|]. intros now _.
    case_ifs; try (apply ensures_ret; exact Hwf).
    eapply ensures_weaken; [apply spawn_wellFormed, Hwf|].
    intros q [Hq _]. exact Hq.
Qed.

Lemma setTarget_wellFormed x y p : wf p -> wf (Player.setTarget x y p).
Proof. unfold Player.setTarget. case_ifs; intros Hp; exact Hp. Qed.

Lemma useDash_wellFormed p :
  wf p ->
  ensures (Player.useDash InputValidator.validateDash p)
          (fun r => wf (snd r)).
Proof.
  intros (Hl & Hb & Hd) w.
  unfold Player.useDash, InputValidator.validateDash, bind, ret, Date_now. simpl.
  destruct (Z.leb_spec (Player.curDash p) 0); simpl.
  { eexists _, _. split; [reflexivity|]. simpl. repeat split; assumption || lia. }
  destruct (negb _ && _); simpl.
  { eexists _, _. split; [reflexivity|]. simpl. repeat split; assumption || lia. }
  destruct (Z.ltb_spec 0 (Player.curDash p)); simpl.
  - eexists _, _. split; [reflexivity|]. unfold wellFormed. simpl.
    repeat split; try assumption; lia.
  - eexists _, _. split; [reflexivity|]. simpl. repeat split; assumption || lia.
Qed.

Lemma credit_wellFormed l p : wf p -> wf (Player.credit l p).
Proof. intros Hp. exact Hp. Qed.

Lemma takeDamage_wellFormed amount attacker this (ps : list Player.t) :
  Forall wf ps ->
  (this < length ps)%nat ->
  ensures (Player.takeDamage amount attacker this ps)
          (fun r => Forall wf (snd r) /\ length (snd r) = length ps).
Proof.
  intros Hps Hthis. unfold Player.takeDamage.
  destruct (lookup_lt_is_Some_2 ps this Hthis) as [self Hself]. rewrite Hself.
  destruct (Js.ltb 0 _); [apply ensures_ret; split; [exact Hps | reflexivity]|].
  set (ps1 := match attacker with
              | Some a => if negb (a =? this)%nat
                          then alter (Player.credit (Player.level self)) a ps else ps
              | None => ps
              end).
  assert (H1 : Forall wf ps1 /\ length ps1 = length ps).
  { unfold ps1. destruct attacker as [a|]; [|split; [exact Hps | reflexivity]].
    destruct (negb _); [|split; [exact Hps | reflexivity]].
    split; [|apply length_alter].
    apply Forall_alter; [exact Hps|]. intros q _ Hq. apply credit_wellFormed, Hq. }
  clearbody ps1. destruct H1 as [Hwf1 Hlen1].
  destruct (lookup_lt_is_Some_2 ps1 this ltac:(lia)) as [self1 Hself1].
  rewrite Hself1.
  assert (Hs1 : wf self1) by (eapply Forall_lookup_1; eauto).
  intros w. unfold bind, Player.die, Date_now, ret. simpl.
  eexists _, _. split; [reflexivity|]. simpl.
  split; [|rewrite length_insert; exact Hlen1].
  apply Forall_insert; [exact Hwf1 | exact Hs1].
Qed.

Lemma alive_from_bound ps : forall i k,
  k ∈ GameRoom.alive_from i ps -> (i <= k < i + length ps)%nat.
Proof.
  induction ps as [|p ps IH]; intros i k Hk; simpl in *.
  - apply elem_of_nil in Hk. contradiction.
  - destruct (Player.isAlive p).
    + apply elem_of_cons in Hk as [-> | Hk]; [lia|].
      apply IH in Hk. lia.
    + apply IH in Hk. lia.
Qed.

Lemma alive_bound ps k : k ∈ GameRoom.alive ps -> (k < length ps)%nat.
Proof. intros Hk. apply alive_from_bound in Hk. lia. Qed.

Lemma pairs_elem (l : list nat) : forall a b,
  (a, b) ∈ GameRoom.pairs l -> a ∈ l /\ b ∈ l.
Proof.
  induction l as [|x l IH]; intros a b Hab; simpl in *.
  - apply elem_of_nil in Hab. contradiction.
  - apply elem_of_app in Hab as [Hab | Hab].
    + apply list_elem_of_In, in_map_iff in Hab as (y & Hy & Hin).
      injection Hy as <- <-. apply list_elem_of_In in Hin.
      split; apply elem_of_cons; [left; reflexivity | right; exact Hin].
    + apply IH in Hab as [Ha Hb].
      split; apply elem_of_cons; right; assumption.
Qed.

Lemma collide_playersOk (ps : list Player.t) i j n :
  playersOk n ps -> (i < n)%nat -> (j < n)%nat ->
  ensures (GameRoom.collide ps (i, j)) (playersOk n).
Proof.
  intros [Hwf Hlen] Hi Hj. unfold GameRoom.collide.
  destruct (lookup_lt_is_Some_2 ps i ltac:(lia)) as [p1 Hp1].
  destruct (lookup_lt_is_Some_2 ps j ltac:(lia)) as [p2 Hp2].
  rewrite Hp1, Hp2.
  assert (Hok : ensures (ret ps) (playersOk n))
    by (apply ensures_ret; split; assumption).
  destruct (Js.ltb _ _); [|exact Hok].
  destruct (_ <? _)%Z.
  { eapply ensures_bind;
      [apply (takeDamage_wellFormed _ _ j ps Hwf); lia|].
    intros [b ps'] [Hwf' Hlen']. simpl in *.
    apply ensures_ret. split; [exact Hwf' | lia]. }
  destruct (_ <? _)%Z; [|exact Hok].
  eapply ensures_bind;
    [apply (takeDamage_wellFormed _ _ i ps Hwf); lia|].
  intros [b ps'] [Hwf' Hlen']. simpl in *.
  apply ensures_ret. split; [exact Hwf' | lia].
Qed.

Lemma collidePlayers_playersOk (ps0 ps : list Player.t) :
  playersOk (length ps0) ps ->
  ensures (GameRoom.collidePlayers (GameRoom.alive ps0) ps)
          (playersOk (length ps0)).
Proof.
  intros Hok. unfold GameRoom.collidePlayers.
  apply ensures_foldM; [|exact Hok].
  intros ps1 [i j] Hps1 Hij.
  apply pairs_elem in Hij as [Hi Hj].
  apply collide_playersOk; [exact Hps1 | |]; apply alive_bound; assumption.
Qed.

Lemma randomFood_returns opts : ensures (GameRoom.randomFood opts) (fun _ => True).
Proof.
  intros w. unfold GameRoom.randomFood, Food.new, bind, ret, Math_random, Date_now.
  simpl. eexists _, _. split; [reflexivity | exact I].
Qed.

Lemma eatFoods_wellFormed opts n : forall player (foods : list Food.t),
  (n <= length foods)%nat ->
  wf player ->
  ensures (GameRoom.eatFoods opts n player foods)
          (fun r => wf (fst r)).
Proof.
  induction n as [|i IH]; intros player foods Hn Hwf; cbn [GameRoom.eatFoods].
  - apply ensures_ret. exact Hwf.
  - destruct (lookup_lt_is_Some_2 foods i ltac:(lia)) as [food Hfood].
    rewrite Hfood.
    destruct (Js.ltb _ _); [|apply IH; [lia | exact Hwf]].
    eapply ensures_bind; [apply ensures_Math_random|]. intros r _.
    assert (Hdel : (i <= length (delete i foods))%nat).
    { rewrite length_delete by (rewrite Hfood; eauto). lia. }
    destruct (Js.ltb r _).
    + eapply ensures_bind; [apply randomFood_returns|]. intros f _.
      apply IH; [rewrite length_app; lia | exact Hwf].
    + apply IH; [exact Hdel | exact Hwf].
Qed.

Lemma eatStep_playersOk (r : GameRoom.t) k n :
  playersOk n (GameRoom.players r) -> (k < n)%nat ->
  ensures (GameRoom.eatStep r k)
          (fun r' => playersOk n (GameRoom.players r')
                     /\ GameRoom.options r' = GameRoom.options r
                     /\ GameRoom.id r' = GameRoom.id r).
Proof.
  intros [Hwf Hlen] Hk. unfold GameRoom.eatStep.
  destruct (lookup_lt_is_Some_2 (GameRoom.players r) k ltac:(lia)) as [p Hp].
  rewrite Hp.
  eapply ensures_bind.
  { apply eatFoods_wellFormed; [lia|]. eapply Forall_lookup_1; eauto. }
  intros [p' fs] Hp'. simpl in Hp'.
  apply ensures_ret. simpl. split; [|split; reflexivity].
  split; [apply Forall_insert; assumption|].
  rewrite length_insert. exact Hlen.
Qed.

Lemma generateFood_players count : forall r,
  ensures (GameRoom.generateFood count r)
          (fun r' => GameRoom.players r' = GameRoom.players r
                     /\ GameRoom.options r' = GameRoom.options r
                     /\ GameRoom.id r' = GameRoom.id r).
Proof.
  induction count as [|n IH]; intros r; simpl.
  - apply ensures_ret. repeat split.
  - eapply ensures_bind; [apply randomFood_returns|]. intros f _.
    eapply ensures_weaken; [apply IH|].
    intros r' (Hp & Ho & Hi). simpl in *. repeat split; assumption.
Qed.

Lemma checkCollisions_playersOk (r : GameRoom.t) :
  Forall wf (GameRoom.players r) ->
  ensures (GameRoom.checkCollisions r)
          (fun r' => playersOk (length (GameRoom.players r)) (GameRoom.players r')
                     /\ GameRoom.options r' = GameRoom.options r
                     /\ GameRoom.id r' = GameRoom.id r).
Proof.
  intros Hwf. unfold GameRoom.checkCollisions.
  set (n := length (GameRoom.players r)).
  eapply ensures_bind.
  { apply collidePlayers_playersOk. split; [exact Hwf | reflexivity]. }
  intros ps Hps.
  apply (ensures_foldM GameRoom.eatStep
           (fun r' => playersOk n (GameRoom.players r')
                      /\ GameRoom.options r' = GameRoom.options r
                      /\ GameRoom.id r' = GameRoom.id r)).
  - intros r1 k (Hr1 & Ho & Hi) Hk.
    eapply ensures_weaken; [apply eatStep_playersOk; [exact Hr1|]|].
    + apply alive_bound, Hk.
    + intros r2 (H2 & Ho2 & Hi2). split; [exact H2|]. split; congruence.
  - simpl. split; [exact Hps|]. split; reflexivity.
Qed.

Lemma room_update_playersOk dt (r : GameRoom.t) :
  Forall wf (GameRoom.players r) ->
  ensures (GameRoom.update dt r)
          (fun r' => playersOk (length (GameRoom.players r)) (GameRoom.players r')
                     /\ GameRoom.options r' = GameRoom.options r
                     /\ GameRoom.id r' = GameRoom.id r).
Proof.
  intros Hwf. unfold GameRoom.update.
  eapply ensures_bind.
  { apply (ensures_mapM (Player.update dt) wf wf);
      [apply update_wellFormed | exact Hwf]. }
  intros ps [Hps Hlen].
  eapply ensures_bind.
  { apply checkCollisions_playersOk. exact Hps. }
  intros r1 (Hr1 & Ho & Hi).
  cbn [GameRoom.players GameRoom.set_players GameRoom.options GameRoom.id]
    in Hr1, Ho, Hi.
  rewrite Hlen in Hr1.
  destruct (_ <? _)%nat.
  - eapply ensures_weaken; [apply (generateFood_players 10 r1)|].
    intros r2 (Hp2 & Ho2 & Hi2). rewrite Hp2. split; [exact Hr1|].
    split; congruence.
  - apply ensures_ret. split; [exact Hr1|]. split; assumption.
Qed.

Lemma players_set_wellFormed player : forall ps,
  wf player -> Forall wf ps ->
  Forall wf (GameRoom.players_set player ps).
Proof.
  induction ps as [|q ps IH]; intros Hp Hps; simpl.
  - constructor; [exact Hp | constructor].
  - apply Forall_cons in Hps as [Hq Hps].
    destruct (_ =? _)%Z; constructor; auto.
Qed.

Lemma players_index_set player : forall ps,
  exists q, GameRoom.players_set player ps
            !! GameRoom.players_index (Player.id player)
                 (GameRoom.players_set player ps) = Some q.
Proof.
  induction ps as [|q ps IH]; simpl.
  - rewrite Z.eqb_refl. eauto.
  - destruct (Z.eqb_spec (Player.id q) (Player.id player)) as [E | E]; simpl.
    + rewrite Z.eqb_refl. eauto.
    + destruct (Z.eqb_spec (Player.id q) (Player.id player)); [contradiction|].
      exact IH.
Qed.

Lemma handleStart_wellFormed playerId skincode colorcode playerName (r : GameRoom.t) :
  Forall wf (GameRoom.players r) ->
  ensures (Server.handleStart playerId skincode colorcode playerName r)
          (fun r' => Forall wf (GameRoom.players r')).
Proof.
  intros Hwf. unfold Server.handleStart.
  eapply ensures_bind; [apply new_wellFormed|]. intros p0 [Hp0 Hid0].
  unfold GameRoom.addPlayer.
  eapply ensures_bind.
  { eapply ensures_bind.
    - apply (spawn_wellFormed (GameRoom.options r)
               (Player.set_currentRoom (Some (GameRoom.id r))
                  (Player.set_color colorcode (Player.set_skincode skincode p0)))).
      exact Hp0.
    - intros p1 [Hp1 Hid1]. apply ensures_ret.
      instantiate (1 := fun r' =>
        Forall wf (GameRoom.players r')
        /\ exists q, GameRoom.players r'
                     !! GameRoom.players_index playerId (GameRoom.players r')
                     = Some q).
      simpl in *. split; [apply players_set_wellFormed; assumption|].
      rewrite <- Hid0, <- Hid1. apply players_index_set. }
  intros r1 [Hr1 [q Hq]]. rewrite Hq.
  eapply ensures_bind.
  { apply spawn_wellFormed. eapply Forall_lookup_1; eauto. }
  intros q' [Hq' _]. apply ensures_ret. simpl.
  apply Forall_insert; assumption.
Qed.

Lemma step_wellFormed (r : GameRoom.t) (c : Server.command) :
  Forall wf (GameRoom.players r) ->
  ensures (Server.step r c) (fun r' => Forall wf (GameRoom.players r')).
Proof.
  intros Hwf. destruct c as [dt | k x y | k | k attacker | k | pid skin col nm]; simpl.
  - eapply ensures_weaken; [apply room_update_playersOk, Hwf|].
    intros r' ([Hr' _] & _). exact Hr'.
  - destruct (GameRoom.players r !! k) as [p|] eqn:E; apply ensures_ret; [|exact Hwf].
    simpl. apply Forall_insert; [exact Hwf|].
    apply setTarget_wellFormed. eapply Forall_lookup_1; eauto.
  - destruct (GameRoom.players r !! k) as [p|] eqn:E; [|apply ensures_ret; exact Hwf].
    eapply ensures_bind.
    { apply useDash_wellFormed. eapply Forall_lookup_1; eauto. }
    intros [b p'] Hp'. apply ensures_ret. simpl in *.
    apply Forall_insert; assumption.
  - destruct (GameRoom.players r !! k) as [p|] eqn:E; [|apply ensures_ret; exact Hwf].
    eapply ensures_bind.
    { apply takeDamage_wellFormed; [exact Hwf|]. eapply lookup_lt_Some; eauto. }
    intros [b ps'] [Hps' _]. apply ensures_ret. exact Hps'.
  - destruct (GameRoom.players r !! k) as [p|] eqn:E; [|apply ensures_ret; exact Hwf].
    eapply ensures_bind.
    { apply spawn_wellFormed. eapply Forall_lookup_1; eauto. }
    intros p' [Hp' _]. apply ensures_ret. simpl.
    apply Forall_insert; assumption.
  - apply handleStart_wellFormed, Hwf.
Qed.

Lemma run_wellFormed (cs : list Server.command) (r : GameRoom.t) :
  Forall wf (GameRoom.players r) ->
  ensures (Server.run cs r) (fun r' => Forall wf (GameRoom.players r')).
Proof.
  intros Hwf. unfold Server.run.
  apply (ensures_foldM Server.step
           (fun r' => Forall wf (GameRoom.players r'))); [|exact Hwf].
  intros r1 c Hr1 _. apply step_wellFormed, Hr1.
Qed.

End Invariant.

(** * The chain and the dash charge after any commands *)

Section ChainAndDash.
Context `{MathLib}.
Local Open Scope Z_scope.

(** C3: whatever commands run, in whatever order, on a room whose
    players have eleven parts and a dash charge in [0, maxDash], the
    run returns and every player of the room again has eleven parts and
    a dash charge in [0, maxDash].  The charge is an integer by its
    type. *)
Theorem chain_and_dash_invariant (cs : list Server.command) (r : GameRoom.t)
    (w : World) :
  Forall (fun p => length (Player.parts p) = 11%nat
                   /\ 0 <= Player.curDash p <= Player.maxDash p)
         (GameRoom.players r) ->
  exists r' w',
    Server.run cs r w = Some (r', w')
    /\ Forall (fun p => length (Player.parts p) = 11%nat
                        /\ 0 <= Player.curDash p <= Player.maxDash p)
              (GameRoom.players r').
Proof.
  intros Hr.
  assert (Hwf : Forall (wellFormed (fun _ => True)) (GameRoom.players r)).
  { eapply Forall_impl; [exact Hr|]. intros p [Hl Hd].
    split; [exact Hl | split; [exact I | exact Hd]]. }
  destruct (run_wellFormed (fun _ => True) I cs r Hwf w) as (r' & w' & Hrun & Hr').
  exists r', w'. split; [exact Hrun|].
  eapply Forall_impl; [exact Hr'|]. intros p (Hl & _ & Hd). split; assumption.
Qed.

End ChainAndDash.

(** * The break point *)

Section BreakPoint.
Context `{MathLib} `{BufferLib}.


Lemma updateParts_loop_follow bp size dt rest : forall i prev,
  (i + length rest <= bp)%nat ->
  Player.updateParts_loop bp size dt i prev rest = followChain size prev rest.
Proof.
  induction rest as [|part rest IH]; intros i prev Hi; simpl; [reflexivity|].
  simpl in Hi.
  destruct (Nat.eqb_spec i bp) as [E | _]; [lia|]. simpl.
  rewrite IH by lia. reflexivity.
Qed.

Lemma encodeParts_angles bp rest : forall i,
  (i + length rest <= bp)%nat ->
  PacketEncoder.encodeParts bp i rest
  = List.map (fun part => PacketEncoder.encodeUintAngle (NarwhalePart.rot part)) rest.
Proof.
  induction rest as [|part rest IH]; intros i Hi; simpl; [reflexivity|].
  simpl in Hi.
  destruct (Nat.eqb_spec i bp) as [E | _]; [lia|]. simpl.
  rewrite IH by lia. reflexivity.
Qed.

(** C1 (amended): the break point of a player is 11: the constructor
    sets it next to a chain of eleven parts and every command keeps
    both.  It is therefore the index of no part: [updateParts] makes
    each of the ten parts after the head follow its predecessor, and
    the FISH record holds one angle byte for each of them.  Only a part
    whose index is the break point is moved as a free body and written
    as four floats. *)
Theorem breakPoint_is_chain_length :
  (forall id name,
     ensures (Player.new id name)
             (fun p => Player.breakPoint p = 11%nat
                       /\ length (Player.parts p) = 11%nat))
  /\ (forall cs r,
        Forall (wellFormed (fun b => b = 11%nat)) (GameRoom.players r) ->
        ensures (Server.run cs r)
                (fun r' => Forall (fun p => Player.breakPoint p = 11%nat
                                            /\ length (Player.parts p) = 11%nat)
                                  (GameRoom.players r')))
  /\ (forall p dt w,
        Player.breakPoint p = 11%nat ->
        length (Player.parts p) = 11%nat ->
        exists head rest,
          Player.parts p = head :: rest
          /\ length rest = 10%nat
          /\ (let head' :=
                NarwhalePart.mk (Vec2.x (Player.pos p)) (Vec2.y (Player.pos p))
                                (Vec2.x (Player.vel p)) (Vec2.y (Player.vel p))
                                (Player.angle p)
                                (NarwhalePart.vt head) (NarwhalePart.oriRot head) in
              Player.updateParts dt p w
              = Some (Player.set_parts
                        (head' :: followChain (Player.size p) head' rest) p, w))
          /\ PacketEncoder.encodeParts (Player.breakPoint p) 1 rest
             = List.map (fun part =>
                           PacketEncoder.encodeUintAngle (NarwhalePart.rot part))
                        rest
          /\ length (PacketEncoder.encodeParts (Player.breakPoint p) 1 rest)
             = 10%nat)
  /\ (forall bp size dt prev part rest,
        Player.updateParts_loop bp size dt bp prev (part :: rest)
        = Player.freeBody dt part
            :: Player.updateParts_loop bp size dt (S bp) (Player.freeBody dt part) rest
        /\ PacketEncoder.encodeParts bp bp (part :: rest)
           = (floatLE (NarwhalePart.x part) ++ floatLE (NarwhalePart.y part)
              ++ floatLE (NarwhalePart.vx part) ++ floatLE (NarwhalePart.vy part))
             ++ PacketEncoder.encodeParts bp (S bp) rest).
Proof.
  split; [|split; [|split]].
  - intros id name.
    eapply ensures_weaken;
      [apply (new_wellFormed (fun b => b = 11%nat) eq_refl)|].
    intros p [(Hl & Hb & _) _]. split; assumption.
  - intros cs r Hr.
    eapply ensures_weaken;
      [apply (run_wellFormed (fun b => b = 11%nat) eq_refl cs r Hr)|].
    intros r' Hr'. eapply Forall_impl; [exact Hr'|].
    intros p (Hl & Hb & _). split; assumption.
  - intros p dt w Hb Hl.
    destruct (Player.parts p) as [|head rest] eqn:E; [discriminate|].
    simpl in Hl. exists head, rest.
    split; [reflexivity|]. split; [lia|].
    split; [|split].
    + unfold Player.updateParts. rewrite E. unfold ret.
      rewrite updateParts_loop_follow by lia. reflexivity.
    + apply encodeParts_angles. lia.
    + rewrite encodeParts_angles by lia. rewrite length_map. lia.
  - intros bp size dt prev part rest. simpl.
    rewrite Nat.eqb_refl. simpl. split; reflexivity.
Qed.

End BreakPoint.

(** * Respawn *)

Section Respawn.
Context `{MathLib}.
Local Open Scope Z_scope.

Lemma spawn_fields room p w p1 w1 :
  Player.spawn room p w = Some (p1, w1) ->
  Player.score p1 = Player.score p
  /\ Player.kills p1 = Player.kills p
  /\ Player.deaths p1 = Player.deaths p
  /\ Player.level p1 = 1
  /\ Player.size p1 = 36
  /\ Player.isAlive p1 = true
  /\ Player.currentRoom p1 = Player.currentRoom p
  /\ length (Player.parts p1) = length (Player.parts p).
Proof.
  unfold Player.spawn, bind, ret, Math_random. simpl.
  intros Hs. injection Hs as Hp1 _. subst p1. simpl.
  rewrite length_imap. repeat split.
Qed.





(** The level and size [updateSize] derives from a score. *)
Lemma update_alive_size dt p w :
  Player.isAlive p = true ->
  Player.parts p <> [] ->
  exists p2,
    Player.update dt p w = Some (p2, w)
    /\ Player.score p2 = Player.score p
    /\ Player.kills p2 = Player.kills p
    /\ Player.deaths p2 = Player.deaths p
    /\ Player.level p2 = Player.score p / 100 + 1
    /\ Player.size p2 = 36 + (Player.level p2 - 1) * 3.
Proof.
  intros Ha Hp. unfold Player.update. rewrite Ha. simpl.
  match goal with
  | |- context [Player.processMovement dt ?q] =>
      set (p0 := q);
      assert (Hp0 : Player.parts p0 = Player.parts p
                    /\ Player.score p0 = Player.score p
                    /\ Player.kills p0 = Player.kills p
                    /\ Player.deaths p0 = Player.deaths p)
  end.
  { unfold p0. case_ifs; repeat split. }
  clearbody p0. destruct Hp0 as (Hparts & Hscore & Hkills & Hdeaths).
  destruct (processMovement_frame dt p0) as (Hparts1 & _ & _ & _ & _ & Hs1 & Hk1 & Hd1).
  set (pm := Player.processMovement dt p0) in *. clearbody pm.
  destruct (updateParts_frame dt pm w) as (q & Hq & _ & _ & _ & _ & Hs2 & Hk2 & Hd2).
  { rewrite Hparts1, Hparts. exact Hp. }
  unfold bind. rewrite Hq.
  destruct (clampToWorld_frame q) as (_ & _ & _ & _ & Hs3 & Hk3 & Hd3).
  set (qc := Player.clampToWorld q) in *. clearbody qc.
  eexists. split; [reflexivity|]. simpl.
  rewrite Hs3, Hs2, Hs1, Hscore, Hk3, Hk2, Hk1, Hkills, Hd3, Hd2, Hd1, Hdeaths.
  repeat split.
Qed.

(** C10: [spawn] keeps score, kills and deaths and sets level 1 and
    size 36; the next [update] of the respawned player recomputes
    [level = floor(score/100) + 1] and [size = 36 + (level-1)*3] from
    the kept score, so for a score of 100 or more the reset is undone. *)
Theorem spawn_reset_undone_by_update room dt (p p1 : Player.t) (w w1 : World) :
  Player.parts p <> [] ->
  Player.spawn room p w = Some (p1, w1) ->
  (Player.score p1 = Player.score p
   /\ Player.kills p1 = Player.kills p
   /\ Player.deaths p1 = Player.deaths p
   /\ Player.level p1 = 1
   /\ Player.size p1 = 36)
  /\ exists p2,
       Player.update dt p1 w1 = Some (p2, w1)
       /\ Player.score p2 = Player.score p
       /\ Player.kills p2 = Player.kills p
       /\ Player.deaths p2 = Player.deaths p
       /\ Player.level p2 = Player.score p / 100 + 1
       /\ Player.size p2 = 36 + (Player.level p2 - 1) * 3
       /\ (100 <= Player.score p ->
           2 <= Player.level p2 /\ 39 <= Player.size p2).
Proof.
  intros Hparts Hs.
  destruct (spawn_fields room p w p1 w1 Hs)
    as (Hsc & Hk & Hd & Hl & Hsz & Ha & _ & Hlen).
  split; [repeat split; assumption|].
  destruct (update_alive_size dt p1 w1 Ha) as (p2 & Hu & Hsc2 & Hk2 & Hd2 & Hl2 & Hsz2).
  { intros Hnil. apply Hparts. apply length_zero_iff_nil.
    rewrite <- Hlen, Hnil. reflexivity. }
  exists p2. split; [exact Hu|].
  assert (Hdiv : 100 <= Player.score p -> 1 <= Player.score p / 100)
    by (intros; apply Z.div_le_lower_bound; lia).
  rewrite Hsc in *.
  split; [congruence|]. split; [congruence|]. split; [congruence|].
  split; [exact Hl2|]. split; [exact Hsz2|].
  intros Hge. specialize (Hdiv Hge). lia.
Qed.

End Respawn.

(** * The player sweep *)

Section Sweep.
Context `{MathLib}.
Local Open Scope Z_scope.





(** ** One call of [takeDamage] *)



(** ** The loop body against the specification's pair rule *)



(** ** The outcome of a sequence of damage applications *)


(** ** The pairs the sweep visits *)











End Sweep.

(** * Determinism *)

Section Determinism.










Context `{MathLib} `{BufferLib}.















(** ** The encoder reads the world once, for the time stamp *)

Lemma worldFree_ret {A} (a : A) : worldFree (ret a).
Proof. exists (Some a). reflexivity. Qed.

Lemma worldFree_throw {A} : worldFree (@throw A).
Proof. exists None. reflexivity. Qed.

Lemma worldFree_bind {A B} (c : M A) (k : A -> M B) :
  worldFree c -> (forall a, worldFree (k a)) -> worldFree (bind c k).
Proof.
  intros [[a|] Hc] Hk.
  - destruct (Hk a) as [r Hr]. exists r. intros w. unfold bind.
    rewrite Hc. simpl. apply Hr.
  - exists None. intros w. unfold bind. rewrite Hc. reflexivity.
Qed.

Lemma worldFree_mapM {A B} (f : A -> M B) (l : list A) :
  (forall a, worldFree (f a)) -> worldFree (mapM f l).
Proof.
  intros Hf. induction l as [|a l IH]; simpl.
  - apply worldFree_ret.
  - apply worldFree_bind; [apply Hf|]. intros b.
    apply worldFree_bind; [exact IH|]. intros bs. apply worldFree_ret.
Qed.

Ltac wf_step :=
  first
    [ apply worldFree_ret
    | apply worldFree_throw
    | apply worldFree_bind; [|intros ?]
    | match goal with
      | |- worldFree (if ?b then _ else _) => destruct b
      | |- worldFree (match ?x with _ => _ end) => destruct x
      end ].

Lemma worldFree_writeUInt8 v : worldFree (PacketEncoder.writeUInt8 v).
Proof. unfold PacketEncoder.writeUInt8. repeat wf_step. Qed.

Lemma worldFree_writeUInt16LE v : worldFree (PacketEncoder.writeUInt16LE v).
Proof. unfold PacketEncoder.writeUInt16LE. repeat wf_step. Qed.

Lemma worldFree_writeUInt32LE v : worldFree (PacketEncoder.writeUInt32LE v).
Proof. unfold PacketEncoder.writeUInt32LE. repeat wf_step. Qed.

Lemma worldFree_encodeFish player :
  worldFree (PacketEncoder._encodeFishElement player).
Proof.
  unfold PacketEncoder._encodeFishElement, PacketEncoder.writeFloatLE.
  repeat first [ apply worldFree_writeUInt8 | apply worldFree_writeUInt16LE
               | apply worldFree_writeUInt32LE | wf_step ].
Qed.

Lemma worldFree_encodeFood food :
  worldFree (PacketEncoder._encodeFoodElement food).
Proof.
  unfold PacketEncoder._encodeFoodElement, PacketEncoder.writeFloatLE.
  repeat first [ apply worldFree_writeUInt8 | apply worldFree_writeUInt16LE
               | apply worldFree_writeUInt32LE | wf_step ].
Qed.


(** The packet is the four header bytes, of which the second and third
    hold [Date.now() & 0xFFFF], and then bytes that do not depend on the
    world. *)
Lemma encodeSetElements_shape (room : GameRoom.t) :
  exists body : option (list Z),
    forall w,
      PacketEncoder.encodeSetElements room w
      = (fun b =>
           ([OPCODES.SET_ELEMENTS;
             ((clock w (clockPos w) mod 65536) mod 256)%Z;
             ((clock w (clockPos w) mod 65536) / 256 mod 256)%Z;
             0%Z] ++ b,
            mkWorld (clock w) (S (clockPos w)) (draws w) (drawPos w)))
        <$> body.
Proof.
  unfold PacketEncoder.encodeSetElements.
  set (players := List.filter _ _). set (foods := take 100 _).
  destruct (worldFree_mapM PacketEncoder._encodeFishElement players
              worldFree_encodeFish) as [rp Hp].
  destruct (worldFree_mapM PacketEncoder._encodeFoodElement foods
              worldFree_encodeFood) as [rf Hf].
  exists (bp ← rp; bf ← rf; Some (concat bp ++ concat bf)).
  intros w. unfold bind at 1. simpl.
  unfold bind at 1. simpl.
  unfold bind at 1, PacketEncoder.writeUInt16LE.
  rewrite (band_ones _ 16) by lia. change (2 ^ 16)%Z with 65536%Z.
  pose proof (Z.mod_pos_bound (clock w (clockPos w)) 65536 ltac:(lia)) as Hb.
  destruct (Z.leb_spec 0 (clock w (clockPos w) mod 65536)); [|lia].
  destruct (Z.leb_spec (clock w (clockPos w) mod 65536) 65535); [|lia].
  simpl. unfold bind at 1. simpl. unfold bind at 1. rewrite Hp.
  destruct rp as [bp|]; simpl; [|reflexivity].
  unfold bind at 1. rewrite Hf.
  destruct rf as [bf|]; simpl; reflexivity.
Qed.



End Determinism.

(** * Food identifiers in the packet *)

Section FoodId.
Context `{MathLib} `{BufferLib}.
Local Open Scope Z_scope.

(** [food.id & 0xFFFFFFFF] is [ToInt32(food.id)]: negative when bit 31
    of the identifier is set. *)
Lemma band_all_ones z : Js.band z 4294967295 = Js.ToInt32 z.
Proof.
  unfold Js.band. change (Js.ToInt32 4294967295) with (-1).
  apply Z.land_m1_r.
Qed.

Lemma ToInt32_negative z :
  2147483648 <= z mod 4294967296 -> Js.ToInt32 z < 0.
Proof.
  intros Hz. unfold Js.ToInt32.
  pose proof (Z.mod_pos_bound z 4294967296 ltac:(lia)) as Hb.
  replace (z + 2147483648) with (z mod 4294967296 - 2147483648
                                 + (z / 4294967296 + 1) * 4294967296)
    by (pose proof (Z.div_mod z 4294967296 ltac:(lia)); lia).
  rewrite Z_mod_plus_full, Z.mod_small by lia. lia.
Qed.

Lemma encodeFood_throws food w :
  2147483648 <= Food.id food mod 4294967296 ->
  PacketEncoder._encodeFoodElement food w = None.
Proof.
  intros Hid. apply ToInt32_negative in Hid.
  unfold PacketEncoder._encodeFoodElement, bind. simpl.
  unfold PacketEncoder.writeUInt32LE. rewrite band_all_ones.
  destruct (Z.leb_spec 0 (Js.ToInt32 (Food.id food))); [lia|]. reflexivity.
Qed.

Lemma mapM_throws {A B} (f : A -> M B) (l : list A) (a : A) :
  (forall x, worldFree (f x)) ->
  a ∈ l -> (forall w, f a w = None) ->
  forall w, mapM f l w = None.
Proof.
  intros Hfree Ha Hthrow. induction l as [|x l IH]; intros w.
  - apply elem_of_nil in Ha. contradiction.
  - cbn [mapM]. unfold bind at 1.
    apply elem_of_cons in Ha as [<- | Ha]; [rewrite Hthrow; reflexivity|].
    destruct (f x w) as [[b w']|]; [|reflexivity].
    unfold bind at 1. rewrite (IH Ha w'). reflexivity.
Qed.

(** The packet cannot be built while one of the first hundred foods has
    an identifier with bit 31 set: [food.id & 0xFFFFFFFF] is then
    negative and [writeUInt32LE] throws a [RangeError]. *)
Theorem encodeSetElements_throws_on_food_id (room : GameRoom.t) (food : Food.t)
    (w : World) :
  food ∈ take 100 (GameRoom.foods room) ->
  2147483648 <= Food.id food mod 4294967296 ->
  PacketEncoder.encodeSetElements room w = None.
Proof.
  intros Hin Hid.
  unfold PacketEncoder.encodeSetElements.
  repeat (unfold bind at 1;
          lazymatch goal with
          | |- match mapM PacketEncoder._encodeFoodElement _ _ with _ => _ end = None =>
              fail
          | |- match ?c ?w0 with _ => _ end = None =>
              destruct (c w0) as [[? ?]|]; [|reflexivity]
          end).
  unfold bind at 1.
  rewrite (mapM_throws PacketEncoder._encodeFoodElement _ food
             worldFree_encodeFood Hin (fun w0 => encodeFood_throws food w0 Hid)).
  reflexivity.
Qed.

End FoodId.
(** * The SET_ELEMENTS packet *)

Section Returns.

Lemma returns_ret {A} (a : A) : returns (ret a) a.
Proof. intros w. reflexivity. Qed.

Lemma returns_bind {A B} (c : M A) (k : A -> M B) a b :
  returns c a -> returns (k a) b -> returns (bind c k) b.
Proof. intros Hc Hk w. unfold bind. rewrite Hc. apply Hk. Qed.

Lemma returns_mapM {A B} (f : A -> M B) (P : A -> B -> Prop) (l : list A) :
  Forall (fun a => exists b, returns (f a) b /\ P a b) l ->
  exists bs, returns (mapM f l) bs /\ Forall2 P l bs.
Proof.
  induction 1 as [|a l (b & Hb & Pb) _ (bs & Hbs & Pbs)]; simpl.
  - exists []. split; [apply returns_ret | constructor].
  - exists (b :: bs). split; [|constructor; assumption].
    eapply returns_bind; [exact Hb|].
    eapply returns_bind; [exact Hbs|]. apply returns_ret.
Qed.

Lemma post_ret {A} (a : A) (Q : A -> Prop) : Q a -> post (ret a) Q.
Proof. intros Ha w a' w' E. injection E as <- _. exact Ha. Qed.

Lemma post_throw {A} (Q : A -> Prop) : post throw Q.
Proof. intros w a w' E. discriminate E. Qed.

Lemma post_bind {A B} (c : M A) (k : A -> M B) (P : A -> Prop) (Q : B -> Prop) :
  post c P -> (forall a, P a -> post (k a) Q) -> post (bind c k) Q.
Proof.
  intros Hc Hk w b w' E. unfold bind in E.
  destruct (c w) as [[a w1]|] eqn:Ec; [|discriminate E].
  exact (Hk a (Hc _ _ _ Ec) _ _ _ E).
Qed.

Lemma post_mapM {A B} (f : A -> M B) (P : A -> B -> Prop) (l : list A) :
  (forall a, post (f a) (P a)) -> post (mapM f l) (Forall2 P l).
Proof.
  intros Hf. induction l as [|a l IH]; simpl.
  - apply post_ret. constructor.
  - eapply post_bind; [apply Hf|]. intros b Hb.
    eapply post_bind; [apply IH|]. intros bs Hbs.
    apply post_ret. constructor; assumption.
Qed.

End Returns.

Section Writes.
Local Open Scope Z_scope.

Lemma writeUInt8_returns v : byte v -> returns (PacketEncoder.writeUInt8 v) [v].
Proof.
  intros [H0 H1] w. unfold PacketEncoder.writeUInt8.
  destruct (Z.leb_spec 0 v); [|lia]. destruct (Z.leb_spec v 255); [|lia].
  reflexivity.
Qed.

Lemma writeUInt16LE_returns v :
  0 <= v <= 65535 ->
  returns (PacketEncoder.writeUInt16LE v) [v mod 256; v / 256 mod 256].
Proof.
  intros [H0 H1] w. unfold PacketEncoder.writeUInt16LE.
  destruct (Z.leb_spec 0 v); [|lia]. destruct (Z.leb_spec v 65535); [|lia].
  reflexivity.
Qed.

Lemma writeUInt32LE_returns v :
  0 <= v <= 4294967295 ->
  returns (PacketEncoder.writeUInt32LE v)
          [v mod 256; v / 256 mod 256; v / 65536 mod 256; v / 16777216 mod 256].
Proof.
  intros [H0 H1] w. unfold PacketEncoder.writeUInt32LE.
  destruct (Z.leb_spec 0 v); [|lia]. destruct (Z.leb_spec v 4294967295); [|lia].
  reflexivity.
Qed.

Lemma post_writeUInt8 v :
  post (PacketEncoder.writeUInt8 v) (fun b => length b = 1%nat).
Proof.
  unfold PacketEncoder.writeUInt8. destruct (_ && _);
    [apply post_ret; reflexivity | apply post_throw].
Qed.

Lemma post_writeUInt16LE v :
  post (PacketEncoder.writeUInt16LE v) (fun b => length b = 2%nat).
Proof.
  unfold PacketEncoder.writeUInt16LE. destruct (_ && _);
    [apply post_ret; reflexivity | apply post_throw].
Qed.

Lemma post_writeUInt32LE v :
  post (PacketEncoder.writeUInt32LE v) (fun b => length b = 4%nat).
Proof.
  unfold PacketEncoder.writeUInt32LE. destruct (_ && _);
    [apply post_ret; reflexivity | apply post_throw].
Qed.

Lemma mod_256_byte v : byte (v mod 256).
Proof. unfold byte. pose proof (Z.mod_pos_bound v 256). lia. Qed.

Lemma band_255_byte z : byte (Js.band z 255).
Proof. apply band_255_range. Qed.

Lemma encodeUintAngle_byte a : byte (PacketEncoder.encodeUintAngle a).
Proof. apply band_255_range. Qed.

(** [a | b] of two bytes is a byte. *)
Lemma bor_byte a b : byte a -> byte b -> byte (Js.bor a b).
Proof.
  intros [Ha0 Ha1] [Hb0 Hb1]. unfold Js.bor.
  rewrite !ToInt32_small by lia.
  split; [apply Z.lor_nonneg; lia|].
  destruct (Z.eq_dec (Z.lor a b) 0) as [-> | Hne]; [lia|].
  assert (Hl : Z.lor a b < 2 ^ 8); [|change (2 ^ 8) with 256 in Hl; lia].
  apply Z.log2_lt_pow2.
  { pose proof (proj2 (Z.lor_nonneg a b) (conj Ha0 Hb0)). lia. }
  rewrite Z.log2_lor by lia.
  apply Z.max_lub_lt.
  - destruct (Z.eq_dec a 0) as [-> | ?]; [reflexivity|].
    apply Z.log2_lt_pow2; lia.
  - destruct (Z.eq_dec b 0) as [-> | ?]; [reflexivity|].
    apply Z.log2_lt_pow2; lia.
Qed.

(** [x << k] without overflow. *)
Lemma shl_small x k :
  0 <= k <= 31 -> 0 <= x -> x * 2 ^ k < 2147483648 ->
  Js.shl x k = x * 2 ^ k.
Proof.
  intros Hk Hx Hb. unfold Js.shl.
  assert (Hp : 1 <= 2 ^ k) by (pose proof (Z.pow_pos_nonneg 2 k); lia).
  rewrite (ToInt32_small x) by nia.
  replace (Z.land (Js.ToUint32 k) 31) with k.
  - rewrite Z.shiftl_mul_pow2 by lia. apply ToInt32_small. nia.
  - unfold Js.ToUint32. rewrite Z.mod_small by lia.
    change 31 with (Z.ones 5). rewrite Z.land_ones by lia.
    rewrite Z.mod_small; [reflexivity|]. change (2 ^ 5) with 32. lia.
Qed.

Lemma teamLevelByte_byte p : byte (PacketEncoder.teamLevelByte p).
Proof.
  unfold PacketEncoder.teamLevelByte.
  apply bor_byte; [apply band_255_byte|].
  rewrite band_31.
  pose proof (Z.mod_pos_bound (Player.level p) 32 ltac:(lia)).
  rewrite shl_3_small by lia. unfold byte. lia.
Qed.

Lemma dashByte_byte m c :
  byte (Js.bor (Js.band m 15) (Js.shl (Js.band c 15) 4)).
Proof.
  change 15 with (Z.ones 4). rewrite !band_ones by lia.
  change (2 ^ 4) with 16.
  pose proof (Z.mod_pos_bound m 16 ltac:(lia)).
  pose proof (Z.mod_pos_bound c 16 ltac:(lia)).
  rewrite shl_small by (change (2 ^ 4) with 16; lia).
  change (2 ^ 4) with 16.
  apply bor_byte; unfold byte; lia.
Qed.

Lemma utf8_bytes s : Forall byte (PacketEncoder.utf8 s).
Proof.
  unfold PacketEncoder.utf8. apply Forall_forall. intros b Hb.
  apply list_elem_of_In, in_map_iff in Hb as (c & <- & _).
  pose proof (N_ascii_bounded c). unfold byte. lia.
Qed.

End Writes.

Create HintDb bytes.

Ltac nat_bools :=
  repeat match goal with
         | |- context [(?a <=? ?b)%nat] => destruct (Nat.leb_spec a b)
         | |- context [(?a <? ?b)%nat] => destruct (Nat.ltb_spec a b)
         | |- context [(?a =? ?b)%nat] => destruct (Nat.eqb_spec a b)
         end;
  simpl; try lia.

Section FishRecord.
Context `{MathLib} `{BufferLib}.
Local Open Scope Z_scope.

Lemma encodeParts_length bp rest : forall i,
  length (PacketEncoder.encodeParts bp i rest)
  = (length rest
     + (if (i <=? bp)%nat && (bp <? i + length rest)%nat then 15 else 0))%nat.
Proof.
  induction rest as [|part rest IH]; intros i;
    cbn [PacketEncoder.encodeParts length].
  - nat_bools.
  - rewrite length_app, IH.
    destruct (Nat.eqb_spec i bp) as [-> | Hne]; cbn [negb].
    + rewrite !length_app, !floatLE_length. nat_bools.
    + cbn [length]. nat_bools.
Qed.

Lemma encodeParts_bytes bp rest : forall i,
  Forall byte (PacketEncoder.encodeParts bp i rest).
Proof.
  induction rest as [|part rest IH]; intros i; simpl; [constructor|].
  apply Forall_app. split; [|apply IH].
  destruct (negb _).
  - constructor; [apply encodeUintAngle_byte | constructor].
  - repeat (apply Forall_app; split); apply floatLE_bytes.
Qed.

Lemma partsLength_encodeParts bp head rest :
  length (PacketEncoder.encodeParts bp 1 rest)
  = partsLength bp (length (head :: rest : list NarwhalePart.t)).
Proof.
  rewrite encodeParts_length. unfold partsLength. cbn [length].
  nat_bools.
Qed.

#[local] Hint Resolve band_255_byte encodeUintAngle_byte teamLevelByte_byte
  dashByte_byte mod_256_byte : bytes.

Ltac write_step :=
  eapply returns_bind;
  [ first [ apply writeUInt8_returns; first [ solve [auto with bytes]
                                            | unfold byte; simpl; lia ]
          | apply writeUInt16LE_returns
          | apply writeUInt32LE_returns
          | apply returns_ret ]
  | cbv beta ].

(** A FISH record is written in full, as bytes, for every player with
    a head part, provided the square root of the library is not
    negative. *)
Lemma encodeFish_returns (p : Player.t) :
  (forall x, 0 <= Math_sqrt x)%Q ->
  Player.parts p <> [] ->
  exists bytes,
    returns (PacketEncoder._encodeFishElement p) bytes
    /\ Forall byte bytes
    /\ length bytes = fishLength p.
Proof.
  intros Hsqrt Hparts. unfold PacketEncoder._encodeFishElement, fishLength.
  destruct (Player.parts p) as [|head rest] eqn:E; [contradiction|].
  unfold PacketEncoder.writeFloatLE.
  assert (Hpid : 0 <= Js.ushr0 (Player.id p) <= 4294967295).
  { unfold Js.ushr0, Js.ToUint32.
    pose proof (Z.mod_pos_bound (Player.id p) 4294967296). lia. }
  set (sp := Math_sqrt _).
  assert (Hsp : 0 <= Z.min (Js.floor sp) 65535 <= 65535).
  { split; [|lia]. apply Z.min_glb; [|lia].
    change 0 with (Qfloor 0). apply Qfloor_resp_le, Hsqrt. }
  eexists. split; [|split].
  - repeat (write_step; try assumption). apply returns_ret.
  - repeat (apply Forall_app; split);
      repeat (apply Forall_cons; split);
      try apply Forall_nil;
      first [ solve [auto using floatLE_bytes, encodeParts_bytes with bytes]
            | apply Forall_take, utf8_bytes
            | unfold byte, ELEMENT_TYPES.FISH; lia ].
  - rewrite !length_app, !floatLE_length, length_take.
    rewrite (partsLength_encodeParts _ head). simpl. lia.
Qed.

End FishRecord.

Section FoodRecord.
Context `{MathLib} `{BufferLib}.
Local Open Scope Z_scope.

Lemma ToInt32_low z :
  z mod 4294967296 < 2147483648 -> Js.ToInt32 z = z mod 4294967296.
Proof.
  intros Hz. unfold Js.ToInt32.
  pose proof (Z.mod_pos_bound z 4294967296 ltac:(lia)) as Hb.
  replace (z + 2147483648) with (z mod 4294967296 + 2147483648
                                 + (z / 4294967296) * 4294967296)
    by (pose proof (Z.div_mod z 4294967296 ltac:(lia)); lia).
  rewrite Z_mod_plus_full, Z.mod_small by lia. lia.
Qed.

#[local] Hint Resolve band_255_byte mod_256_byte : bytes.

(** A FOOD record is written in full, as eighteen bytes, when bit 31
    of the identifier is clear. *)
Lemma encodeFood_returns (food : Food.t) :
  Food.id food mod 4294967296 < 2147483648 ->
  exists bytes,
    returns (PacketEncoder._encodeFoodElement food) bytes
    /\ Forall byte bytes
    /\ length bytes = 18%nat.
Proof.
  intros Hid. unfold PacketEncoder._encodeFoodElement, PacketEncoder.writeFloatLE.
  rewrite band_all_ones, (ToInt32_low _ Hid).
  pose proof (Z.mod_pos_bound (Food.id food) 4294967296 ltac:(lia)) as Hb.
  eexists. split; [|split].
  - repeat (eapply returns_bind;
            [ first [ apply writeUInt8_returns;
                      first [ solve [auto with bytes]
                            | unfold byte, ELEMENT_TYPES.FOOD; lia ]
                    | apply writeUInt32LE_returns; lia
                    | apply returns_ret ]
            | cbv beta ]).
    apply returns_ret.
  - repeat (apply Forall_app; split);
      repeat (apply Forall_cons; split);
      try apply Forall_nil;
      first [ solve [auto using floatLE_bytes with bytes]
            | unfold byte, ELEMENT_TYPES.FOOD; lia ].
  - rewrite !length_app, !floatLE_length. reflexivity.
Qed.

Lemma sar_small c k :
  0 <= k < 32 -> -2147483648 <= c < 2147483648 -> Js.sar c k = c / 2 ^ k.
Proof.
  intros Hk Hc. unfold Js.sar, Js.ToUint32.
  rewrite (ToInt32_small c Hc), (Z.mod_small k) by lia.
  change 31 with (Z.ones 5). rewrite Z.land_ones by lia.
  change (2 ^ 5) with 32. rewrite (Z.mod_small k) by lia.
  apply Z.shiftr_div_pow2. lia.
Qed.

(** The FOOD record can be read back: the type, the identifier modulo
    [2^32] from its four bytes, the position as two floats, the value,
    the size, and the colour from its three bytes, for a food whose
    identifier has bit 31 clear, whose value and size are bytes and
    whose colour has 24 bits. *)
Theorem encodeFood_round_trip (food : Food.t) :
  Food.id food mod 4294967296 < 2147483648 ->
  byte (Food.value food) -> byte (Food.size food) ->
  0 <= Food.color food < 16777216 ->
  exists i0 i1 i2 i3 r g b,
    returns (PacketEncoder._encodeFoodElement food)
            ([ELEMENT_TYPES.FOOD; i0; i1; i2; i3]
             ++ floatLE (Food.x food) ++ floatLE (Food.y food)
             ++ [Food.value food; Food.size food; r; g; b])
    /\ returns (Buffer.readUInt32LE [i0; i1; i2; i3] 0)
               (Food.id food mod 4294967296)
    /\ byte r /\ byte g /\ byte b
    /\ 65536 * r + 256 * g + b = Food.color food.
Proof.
  intros Hid Hv Hs Hc.
  pose proof (Z.mod_pos_bound (Food.id food) 4294967296 ltac:(lia)) as Hb.
  set (v := Food.id food mod 4294967296) in *.
  set (c := Food.color food) in *.
  exists (v mod 256), (v / 256 mod 256), (v / 65536 mod 256),
         (v / 16777216 mod 256),
         (c / 65536 mod 256), (c / 256 mod 256), (c mod 256).
  split; [|split; [|split; [|split; [|split]]]].
  - unfold PacketEncoder._encodeFoodElement, PacketEncoder.writeFloatLE.
    rewrite band_all_ones, (ToInt32_low _ Hid). fold v. fold c.
    rewrite !band_255, !sar_small by lia.
    change (2 ^ 16) with 65536. change (2 ^ 8) with 256.
    rewrite (Z.mod_small (Food.value food)), (Z.mod_small (Food.size food))
      by (unfold byte in *; lia).
    eapply returns_bind;
      [apply writeUInt8_returns; unfold byte, ELEMENT_TYPES.FOOD; lia|].
    eapply returns_bind; [apply writeUInt32LE_returns; lia|].
    eapply returns_bind; [apply returns_ret|].
    eapply returns_bind; [apply returns_ret|].
    eapply returns_bind; [apply writeUInt8_returns, Hv|].
    eapply returns_bind; [apply writeUInt8_returns, Hs|].
    do 3 (eapply returns_bind; [apply writeUInt8_returns, mod_256_byte|]).
    match goal with
    | |- returns (ret ?x) ?y => replace x with y; [apply returns_ret|]
    end.
    cbn [app]. rewrite <- ?app_assoc. reflexivity.
  - intros w. unfold Buffer.readUInt32LE. cbn [lookup list_lookup Nat.add].
    unfold ret. do 2 f_equal. Z.div_mod_to_equations. lia.
  - apply mod_256_byte.
  - apply mod_256_byte.
  - apply mod_256_byte.
  - Z.div_mod_to_equations. lia.
Qed.

End FoodRecord.

Section Lengths.
Context `{MathLib} `{BufferLib}.

Lemma post_writeFloatLE v :
  post (PacketEncoder.writeFloatLE v) (fun b => length b = 4%nat).
Proof. apply post_ret, floatLE_length. Qed.

Ltac post_step :=
  eapply post_bind;
  [ first [ apply post_writeUInt8 | apply post_writeUInt16LE
          | apply post_writeUInt32LE | apply post_writeFloatLE ]
  | cbv beta; intros ? ? ].

Lemma post_encodeFish (p : Player.t) :
  post (PacketEncoder._encodeFishElement p) (fun b => length b = fishLength p).
Proof.
  unfold PacketEncoder._encodeFishElement, fishLength.
  do 12 post_step.
  destruct (Player.parts p) as [|head rest] eqn:E; [apply post_throw|].
  repeat post_step. apply post_ret.
  rewrite !length_app, length_take, (partsLength_encodeParts _ head).
  repeat match goal with Hl : length _ = _ |- _ => rewrite Hl; clear Hl end.
  simpl. lia.
Qed.

Lemma post_encodeFood (food : Food.t) :
  post (PacketEncoder._encodeFoodElement food) (fun b => length b = 18%nat).
Proof.
  unfold PacketEncoder._encodeFoodElement.
  repeat post_step. apply post_ret.
  rewrite !length_app.
  repeat match goal with Hl : length _ = _ |- _ => rewrite Hl; clear Hl end.
  reflexivity.
Qed.

Lemma length_concat_Forall2 {A} (g : A -> nat) (l : list A) (bs : list (list Z)) :
  Forall2 (fun a b => length b = g a) l bs ->
  length (concat bs) = sum_list (List.map g l).
Proof.
  induction 1 as [|a b l bs Hab _ IH]; simpl; [reflexivity|].
  rewrite length_app, Hab, IH. reflexivity.
Qed.

Lemma fold_left_sum {A} (g : A -> nat) (l : list A) : forall a,
  fold_left (fun acc p => (acc + g p)%nat) l a = (a + sum_list (List.map g l))%nat.
Proof.
  induction l as [|x l IH]; intros a; simpl; [lia|].
  rewrite IH. lia.
Qed.

Lemma fishLength_bound p :
  (fishLength p
   <= 64 + length (PacketEncoder.utf8 (Player.name p))
      + length (Player.parts p) * 5)%nat.
Proof.
  unfold fishLength, partsLength.
  destruct (_ && _) eqn:E; [|lia].
  apply andb_true_iff in E as [_ E]. apply Nat.ltb_lt in E. lia.
Qed.

Lemma sum_list_le {A} (f g : A -> nat) (l : list A) :
  (forall a, f a <= g a)%nat ->
  (sum_list (List.map f l) <= sum_list (List.map g l))%nat.
Proof.
  intros Hfg. induction l as [|a l IH]; simpl; [lia|].
  specialize (Hfg a). lia.
Qed.

End Lengths.

Section SetElements.
Context `{MathLib} `{BufferLib}.
Local Open Scope Z_scope.

Lemma encodeFish_throws (p : Player.t) w :
  Player.parts p = [] -> PacketEncoder._encodeFishElement p w = None.
Proof.
  intros E. destruct (worldFree_encodeFish p) as [[b|] Hr]; [|apply Hr].
  exfalso.
  assert (Hpost : post (PacketEncoder._encodeFishElement p) (fun _ => False)).
  { unfold PacketEncoder._encodeFishElement.
    do 12 (eapply post_bind; [apply post_writeUInt8 || apply post_writeUInt32LE
                             | cbv beta; intros ? _]).
    rewrite E. apply post_throw. }
  apply (Hpost w b w). rewrite Hr. reflexivity.
Qed.

(** A food with bit 31 of its identifier set stops the packet. *)
Lemma encodeSetElements_food_throws (room : GameRoom.t) (food : Food.t) w :
  food ∈ take 100 (GameRoom.foods room) ->
  2147483648 <= Food.id food mod 4294967296 ->
  PacketEncoder.encodeSetElements room w = None.
Proof.
  intros Hin Hid.
  destruct (encodeSetElements_shape room) as [[body|] Hbody];
    [exfalso | rewrite Hbody; reflexivity].
  specialize (Hbody w). revert Hbody.
  unfold PacketEncoder.encodeSetElements.
  repeat (unfold bind at 1;
          lazymatch goal with
          | |- match mapM PacketEncoder._encodeFoodElement _ _ with _ => _ end = _ -> _ =>
              fail
          | |- match ?c ?w0 with _ => _ end = _ -> _ =>
              destruct (c w0) as [[? ?]|]; [|discriminate]
          end).
  unfold bind at 1.
  rewrite (mapM_throws PacketEncoder._encodeFoodElement _ food
             worldFree_encodeFood Hin (fun w0 => encodeFood_throws food w0 Hid)).
  discriminate.
Qed.

Lemma timeStamp_range now : 0 <= Js.band now 65535 <= 65535.
Proof.
  rewrite (band_ones _ 16) by lia. change (2 ^ 16) with 65536.
  pose proof (Z.mod_pos_bound now 65536 ltac:(lia)). lia.
Qed.

(** The header of the packet: the opcode, the low sixteen bits of the
    clock and the flags; building it reads the clock once. *)
Lemma encodeSetElements_head (room : GameRoom.t) (w : World) :
  PacketEncoder.encodeSetElements room w
  = (let! b_players := mapM PacketEncoder._encodeFishElement (visible room) in
     let! b_foods :=
       mapM PacketEncoder._encodeFoodElement (take 100 (GameRoom.foods room)) in
     ret ([OPCODES.SET_ELEMENTS]
          ++ [Js.band (clock w (clockPos w)) 65535 mod 256;
              Js.band (clock w (clockPos w)) 65535 / 256 mod 256]
          ++ [0] ++ concat b_players ++ concat b_foods))
      (clock_advance 1 w).
Proof.
  unfold PacketEncoder.encodeSetElements. fold (visible room).
  unfold bind at 1.
  rewrite (writeUInt8_returns OPCODES.SET_ELEMENTS)
    by (unfold byte, OPCODES.SET_ELEMENTS; lia).
  unfold bind at 1, Date_now. unfold bind at 1.
  rewrite (writeUInt16LE_returns _ (timeStamp_range _)).
  unfold bind at 1. rewrite (writeUInt8_returns 0) by (unfold byte; lia).
  unfold clock_advance. rewrite Nat.add_1_r. reflexivity.
Qed.

(** The packet of a room whose players written have a head part and
    whose foods written have bit 31 of their identifier clear. *)
Lemma encodeSetElements_returns (room : GameRoom.t) (w : World) :
  (forall x, 0 <= Math_sqrt x)%Q ->
  Forall (fun p => Player.parts p <> []) (visible room) ->
  Forall (fun f => Food.id f mod 4294967296 < 2147483648)
         (take 100 (GameRoom.foods room)) ->
  exists bytes,
    PacketEncoder.encodeSetElements room w = Some (bytes, clock_advance 1 w)
    /\ Forall byte bytes.
Proof.
  intros Hsqrt Hp Hf. rewrite encodeSetElements_head.
  destruct (returns_mapM PacketEncoder._encodeFishElement
              (fun _ b => Forall byte b) (visible room)) as (bp & Hbp & Hbp2).
  { eapply Forall_impl; [exact Hp|]. intros p Hparts.
    destruct (encodeFish_returns p Hsqrt Hparts) as (b & Hb & Hbytes & _).
    exists b. split; assumption. }
  destruct (returns_mapM PacketEncoder._encodeFoodElement
              (fun _ b => Forall byte b) (take 100 (GameRoom.foods room)))
    as (bf & Hbf & Hbf2).
  { eapply Forall_impl; [exact Hf|]. intros f Hid.
    destruct (encodeFood_returns f Hid) as (b & Hb & Hbytes & _).
    exists b. split; assumption. }
  eexists. split.
  - unfold bind at 1. rewrite Hbp. unfold bind at 1. rewrite Hbf. reflexivity.
  - repeat (apply Forall_app; split);
      repeat (apply Forall_cons; split); try apply Forall_nil;
      try apply mod_256_byte; try (unfold byte, OPCODES.SET_ELEMENTS; lia).
    + apply Forall_concat. eapply Forall2_Forall_r; [exact Hbp2|].
      apply Forall_true. intros p b Hb. exact Hb.
    + apply Forall_concat. eapply Forall2_Forall_r; [exact Hbf2|].
      apply Forall_true. intros f b Hb. exact Hb.
Qed.

(** The packet is built exactly when every player written has a head
    part and every food written has bit 31 of its identifier clear; it
    then consists of bytes, and the clock has been read once.  The
    square root of the library is taken not to be negative. *)
Theorem encodeSetElements_returns_iff (room : GameRoom.t) (w : World) :
  (forall x, 0 <= Math_sqrt x)%Q ->
  (Forall (fun p => Player.parts p <> []) (visible room)
   /\ Forall (fun f => Food.id f mod 4294967296 < 2147483648)
             (take 100 (GameRoom.foods room)))
  <-> (exists bytes,
         PacketEncoder.encodeSetElements room w = Some (bytes, clock_advance 1 w)
         /\ Forall byte bytes).
Proof.
  intros Hsqrt. split.
  - intros [Hp Hf]. apply encodeSetElements_returns; assumption.
  - rewrite encodeSetElements_head.
    set (players := visible room). set (foods := take 100 _).
    intros (bytes & E & _). split.
    + destruct (decide (Forall (fun p => Player.parts p <> []) players))
        as [Hp | Hp]; [exact Hp | exfalso].
      apply not_Forall_Exists in Hp; [|intros p; apply _].
      apply Exists_exists in Hp as (p & Hin & Hp). simpl in Hp.
      assert (Hparts : Player.parts p = [])
        by (destruct (Player.parts p); [reflexivity | exfalso; apply Hp; discriminate]).
      unfold bind at 1 in E.
      rewrite (mapM_throws PacketEncoder._encodeFishElement players p
                 worldFree_encodeFish Hin
                 (fun w0 => encodeFish_throws p w0 Hparts)) in E.
      discriminate E.
    + destruct (decide (Forall (fun f => Food.id f mod 4294967296 < 2147483648)
                               foods)) as [Hf | Hf]; [exact Hf | exfalso].
      apply not_Forall_Exists in Hf; [|intros f; apply _].
      apply Exists_exists in Hf as (f & Hin & Hf). simpl in Hf.
      unfold bind at 1 in E.
      destruct (mapM PacketEncoder._encodeFishElement players _) as [[bp w1]|];
        [|discriminate E].
      unfold bind at 1 in E.
      rewrite (mapM_throws PacketEncoder._encodeFoodElement foods f
                 worldFree_encodeFood Hin
                 (fun w0 => encodeFood_throws f w0 ltac:(lia))) in E.
      discriminate E.
Qed.

Lemma post_Date_now : post Date_now (fun _ => True).
Proof. intros w a w' _. exact I. Qed.

(** Whenever the packet is built, its length is four bytes of header,
    the FISH records of the players written and eighteen bytes for each
    food written; this is less than the size of the buffer allocated,
    so that no write falls outside it. *)
Theorem encodeSetElements_length (room : GameRoom.t) (w w' : World)
    (bytes : list Z) :
  PacketEncoder.encodeSetElements room w = Some (bytes, w') ->
  length bytes
  = (4 + sum_list (List.map fishLength (visible room))
     + 18 * length (take 100 (GameRoom.foods room)))%nat
  /\ (length bytes < PacketEncoder.bufferSize room)%nat.
Proof.
  intros E.
  assert (Hlen : length bytes
                 = (4 + sum_list (List.map fishLength (visible room))
                    + 18 * length (take 100 (GameRoom.foods room)))%nat).
  { revert w bytes w' E. change (post (PacketEncoder.encodeSetElements room)
      (fun bytes => length bytes
         = (4 + sum_list (List.map fishLength (visible room))
            + 18 * length (take 100 (GameRoom.foods room)))%nat)).
    unfold PacketEncoder.encodeSetElements. fold (visible room).
    eapply post_bind; [apply post_writeUInt8|]. intros b_op Hop.
    eapply post_bind; [apply post_Date_now|]. intros now _.
    eapply post_bind; [apply post_writeUInt16LE|]. intros b_time Htime.
    eapply post_bind; [apply post_writeUInt8|]. intros b_flags Hflags.
    eapply post_bind; [apply post_mapM, post_encodeFish|]. intros bp Hbp.
    eapply post_bind; [apply post_mapM, post_encodeFood|]. intros bf Hbf.
    apply post_ret.
    rewrite !length_app, Hop, Htime, Hflags.
    rewrite (length_concat_Forall2 fishLength _ _ Hbp).
    rewrite (length_concat_Forall2 (fun _ => 18%nat) _ _ Hbf).
    assert (Hc : forall l : list Food.t,
               sum_list (List.map (fun _ => 18%nat) l) = (18 * length l)%nat)
      by (induction l; simpl; lia).
    rewrite Hc. lia. }
  split; [exact Hlen|].
  rewrite Hlen. unfold PacketEncoder.bufferSize. fold (visible room).
  rewrite (fold_left_sum
             (fun p => (64 + length (PacketEncoder.utf8 (Player.name p))
                        + length (Player.parts p) * 5)%nat)).
  pose proof (sum_list_le fishLength _ (visible room) fishLength_bound).
  lia.
Qed.

End SetElements.
(** * The food of a room *)

Section RoomFood.
Local Open Scope Z_scope.

Lemma foodAt_shift opts w k :
  foodAt opts (afterFoods 1 w) k = foodAt opts w (S k).
Proof.
  unfold foodAt, afterFoods. cbn [clock clockPos draws drawPos].
  replace (clockPos w + 1 + k)%nat with (clockPos w + S k)%nat by lia.
  replace (drawPos w + 4 * 1 + 4 * k)%nat with (drawPos w + 4 * S k)%nat by lia.
  reflexivity.
Qed.

Lemma randomFood_exact opts w :
  GameRoom.randomFood opts w = Some (foodAt opts w 0, afterFoods 1 w).
Proof.
  unfold GameRoom.randomFood, Food.new, bind, ret, Math_random, Date_now,
    foodAt, afterFoods.
  cbn [clock clockPos draws drawPos].
  replace (drawPos w + 4 * 0)%nat with (drawPos w) by lia.
  replace (clockPos w + 0)%nat with (clockPos w) by lia.
  replace (drawPos w + 0)%nat with (drawPos w) by lia.
  replace (drawPos w + 1)%nat with (S (drawPos w)) by lia.
  replace (drawPos w + 2)%nat with (S (S (drawPos w))) by lia.
  replace (drawPos w + 3)%nat with (S (S (S (drawPos w)))) by lia.
  replace (drawPos w + 4 * 1)%nat with (S (S (S (S (drawPos w))))) by lia.
  replace (clockPos w + 1)%nat with (S (clockPos w)) by lia.
  reflexivity.
Qed.

Lemma afterFoods_add n w : afterFoods n (afterFoods 1 w) = afterFoods (S n) w.
Proof.
  unfold afterFoods. cbn [clock clockPos draws drawPos]. f_equal; lia.
Qed.

(** [generateFood(count)] appends [count] foods, each made from the
    next clock reading and the next four draws, and keeps what the room
    holds. *)
Lemma generateFood_exact count : forall r w,
  GameRoom.generateFood count r w
  = Some (GameRoom.set_foods
            (GameRoom.foods r
             ++ List.map (foodAt (GameRoom.options r) w) (seq 0 count)) r,
          afterFoods count w).
Proof.
  induction count as [|n IH]; intros r w; cbn [GameRoom.generateFood].
  - unfold ret, afterFoods. cbn [seq List.map]. rewrite app_nil_r.
    destruct r, w; cbn. repeat f_equal; lia.
  - unfold bind. rewrite randomFood_exact, IH.
    cbn [GameRoom.foods GameRoom.options GameRoom.set_foods GameRoom.id
         GameRoom.name GameRoom.players].
    rewrite afterFoods_add. f_equal. f_equal. unfold GameRoom.set_foods.
    f_equal. rewrite <- app_assoc. f_equal. cbn [seq List.map app]. f_equal.
    rewrite <- seq_shift, List.map_map.
    apply List.map_ext. intros k. apply foodAt_shift.
Qed.

Lemma floor_draw_range d :
  (0 <= d < 1)%Q -> 0 <= Js.floor (d * 1000) <= 999.
Proof.
  intros [H0 H1]. unfold Js.floor. split.
  - change 0 with (Qfloor 0). apply Qfloor_resp_le. lra.
  - assert (Hlt : Qfloor (d * 1000) < 1000); [|lia].
    rewrite Zlt_Qlt. eapply Qle_lt_trans; [apply Qfloor_le|].
    change (inject_Z 1000) with 1000%Q. lra.
Qed.

End RoomFood.

Section RoomFoodTheorems.
Context `{MathLib} `{BufferLib}.
Local Open Scope Z_scope.

(** [generateFood(count)] returns, keeps the players and the foods the
    room holds, and appends exactly [count] foods; when the draws are
    in [0, 1) and the arena is at least 200 wide and high, each new
    food lies at least 100 inside the arena and is of one of two kinds:
    value 1 with size 4, or value 3 with size 8. *)
Theorem generateFood_appends (count : nat) (r : GameRoom.t) (w : World) :
  (200 <= Options.width (GameRoom.options r))%Q ->
  (200 <= Options.height (GameRoom.options r))%Q ->
  (forall i, (i < 4 * count)%nat -> (0 <= draws w (drawPos w + i) < 1)%Q) ->
  exists new,
    GameRoom.generateFood count r w
    = Some (GameRoom.set_foods (GameRoom.foods r ++ new) r, afterFoods count w)
    /\ length new = count
    /\ Forall (fun f =>
                 (100 <= Food.x f <= Options.width (GameRoom.options r) - 100)%Q
                 /\ (100 <= Food.y f <= Options.height (GameRoom.options r) - 100)%Q
                 /\ ((Food.value f = 1 /\ Food.size f = 4 /\ Food.color f = 5164484)
                     \/ (Food.value f = 3 /\ Food.size f = 8
                         /\ Food.color f = 16739179)))
              new.
Proof.
  intros Hw Hh Hd. eexists. split; [apply generateFood_exact|].
  split; [rewrite length_map, length_seq; reflexivity|].
  apply Forall_forall. intros f Hf.
  apply list_elem_of_In, in_map_iff in Hf as (k & <- & Hk).
  apply in_seq in Hk. unfold foodAt. cbn [Food.x Food.y Food.value Food.size Food.color].
  assert (Hd0 := Hd (4 * k + 0)%nat ltac:(lia)).
  assert (Hd1 := Hd (4 * k + 1)%nat ltac:(lia)).
  rewrite !Nat.add_assoc in Hd0, Hd1.
  set (W := Options.width _) in *. set (Hg := Options.height _) in *.
  set (d0 := draws w _) in Hd0 |- *. set (d1 := draws w _) in Hd1 |- *.
  split; [|split].
  - split; [|assert (d0 * (W - 200) <= 1 * (W - 200))%Q; [|lra]].
    + assert (0 <= d0 * (W - 200))%Q; [|lra]. apply Qmult_le_0_compat; lra.
    + apply Qmult_le_compat_r; lra.
  - split; [|assert (d1 * (Hg - 200) <= 1 * (Hg - 200))%Q; [|lra]].
    + assert (0 <= d1 * (Hg - 200))%Q; [|lra]. apply Qmult_le_0_compat; lra.
    + apply Qmult_le_compat_r; lra.
  - destruct (Js.ltb _ _); [right | left]; repeat split.
Qed.

(** The foods of a room created while bit 31 of the clock is set, and
    is not about to clear. *)
Lemma new_room_bad (id : Z) (name : string) (opts : Options.t) (w : World) :
  (forall k, (k < 300)%nat ->
     2147483648 <= clock w (clockPos w + k) mod 4294967296 < 4294967296 - 999) ->
  (forall k, (k < 300)%nat -> (0 <= draws w (drawPos w + 4 * k + 3) < 1)%Q) ->
  exists r,
    GameRoom.new id name opts w = Some (r, afterFoods 300 w)
    /\ GameRoom.id r = id
    /\ GameRoom.players r = []
    /\ length (GameRoom.foods r) = 300%nat
    /\ Forall badFood (GameRoom.foods r).
Proof.
  intros Hc Hd. unfold GameRoom.new. rewrite generateFood_exact.
  cbn [GameRoom.foods GameRoom.options app].
  eexists. split; [reflexivity|].
  cbn [GameRoom.set_foods GameRoom.players GameRoom.foods GameRoom.id].
  split; [reflexivity|]. split; [reflexivity|].
  split; [rewrite length_map, length_seq; reflexivity|].
  apply Forall_forall. intros f Hf.
  apply list_elem_of_In, in_map_iff in Hf as (k & <- & Hk).
  apply in_seq in Hk. unfold badFood, foodAt. cbn [Food.id].
  pose proof (floor_draw_range _ (Hd k ltac:(lia))) as Hf.
  specialize (Hc k ltac:(lia)).
  set (c := clock w _) in *. set (j := Js.floor _) in *.
  rewrite Zplus_mod, (Z.mod_small j) by lia.
  rewrite Z.mod_small; lia.
Qed.

(** A room created while bit 31 of the clock is set, and is not about
    to clear, holds 300 foods that all have bit 31 of their identifier
    set: whoever joins it, the SET_ELEMENTS packet of the room cannot
    be built. *)
Theorem new_room_cannot_be_sent (id : Z) (name : string) (opts : Options.t)
    (w : World) :
  (forall k, (k < 300)%nat ->
     2147483648 <= clock w (clockPos w + k) mod 4294967296 < 4294967296 - 999) ->
  (forall k, (k < 300)%nat -> (0 <= draws w (drawPos w + 4 * k + 3) < 1)%Q) ->
  exists r,
    GameRoom.new id name opts w = Some (r, afterFoods 300 w)
    /\ GameRoom.players r = []
    /\ length (GameRoom.foods r) = 300%nat
    /\ Forall (fun f => 2147483648 <= Food.id f mod 4294967296) (GameRoom.foods r)
    /\ forall ps w',
         PacketEncoder.encodeSetElements (GameRoom.set_players ps r) w' = None.
Proof.
  intros Hc Hd.
  destruct (new_room_bad id name opts w Hc Hd) as (r & E & _ & Hp & Hl & Hbad).
  exists r. split; [exact E|]. split; [exact Hp|]. split; [exact Hl|].
  split; [exact Hbad|].
  intros ps w'.
  destruct (GameRoom.foods r) as [|f fs] eqn:Ef; [discriminate Hl|].
  apply (encodeSetElements_food_throws _ f).
  - cbn [GameRoom.set_players GameRoom.foods]. rewrite Ef.
    apply elem_of_cons. left. reflexivity.
  - apply Forall_cons in Hbad as [Hf _]. exact Hf.
Qed.

End RoomFoodTheorems.
(** * Targets and positions *)

Section Motion.
Context `{MathLib}.

Lemma ltb_ge x y : Js.ltb x y = false <-> (y <= x)%Q.
Proof.
  unfold Js.ltb, Qle. rewrite Z.ltb_ge. reflexivity.
Qed.

(** [Math.max(lo, Math.min(hi, v))] lies between [lo] and [hi], and is
    [v] when [v] does. *)
Lemma clamp_range lo hi v :
  (lo <= hi)%Q ->
  (lo <= Js.max lo (Js.min hi v) <= hi)%Q
  /\ ((lo <= v <= hi)%Q -> (Js.max lo (Js.min hi v) == v)%Q)
  /\ ((v <= lo)%Q -> (Js.max lo (Js.min hi v) == lo)%Q)
  /\ ((hi <= v)%Q -> (Js.max lo (Js.min hi v) == hi)%Q).
Proof.
  intros Hlh. unfold Js.max, Js.min.
  destruct (Js.ltb v hi) eqn:E1;
    [apply ltb_lt in E1 | apply ltb_ge in E1];
    (destruct (Js.ltb lo _) eqn:E2;
     [apply ltb_lt in E2 | apply ltb_ge in E2]);
    repeat split; intros; lra.
Qed.

(** [r * (w - 2m) + m], for a draw [r], lies at least [m] inside
    [0, w]. *)
Lemma draw_inside (d w m : Q) :
  (0 <= d < 1)%Q -> (2 * m <= w)%Q ->
  (m <= d * (w - 2 * m) + m <= w - m)%Q.
Proof.
  intros [Hd0 Hd1] Hw.
  assert (0 <= d * (w - 2 * m))%Q by (apply Qmult_le_0_compat; lra).
  assert (d * (w - 2 * m) <= 1 * (w - 2 * m))%Q
    by (apply Qmult_le_compat_r; lra).
  lra.
Qed.

(** Every room of [ROOMS_CONFIG] is between 3840 and 6400 wide and
    high. *)
Lemma rooms_get_size roomId room :
  rooms_get roomId = Some room ->
  (3840 <= Options.width room <= 6400)%Q
  /\ (3840 <= Options.height room <= 6400)%Q.
Proof.
  destruct roomId as [i|]; [|discriminate]. unfold rooms_get, ROOMS_CONFIG.
  cbn [List.find fst snd].
  repeat (destruct (_ =? i)%Z;
          [intros [= <-]; cbn [Options.width Options.height]; lra|]).
  discriminate.
Qed.


(** The update of a living player of a room never throws, does not
    read the world, and leaves the player at least 100 inside the
    arena.  The head part keeps the position reached before the clamp:
    the position of the player is the clamp of the head's. *)
Theorem update_clamps_position (dt : Q) (p : Player.t) (w : World)
    (room : Options.t) :
  Player.isAlive p = true ->
  Player.parts p <> [] ->
  rooms_get (Player.currentRoom p) = Some room ->
  exists p' head rest,
    Player.update dt p w = Some (p', w)
    /\ (100 <= Vec2.x (Player.pos p') <= Options.width room - 100)%Q
    /\ (100 <= Vec2.y (Player.pos p') <= Options.height room - 100)%Q
    /\ Player.lastPosition p' = Player.pos p'
    /\ Player.parts p' = head :: rest
    /\ Vec2.x (Player.pos p')
       = Js.max 100 (Js.min (Options.width room - 100) (NarwhalePart.x head))
    /\ Vec2.y (Player.pos p')
       = Js.max 100 (Js.min (Options.height room - 100) (NarwhalePart.y head)).
Proof.
  intros Ha Hparts Hroom. unfold Player.update. rewrite Ha. cbn [negb].
  match goal with
  | |- context [Player.processMovement dt ?q] =>
      set (p0 := q);
      assert (Hp0 : Player.parts p0 = Player.parts p
                    /\ Player.currentRoom p0 = Player.currentRoom p)
  end.
  { unfold p0. case_ifs; split; reflexivity. }
  clearbody p0. destruct Hp0 as [Hparts0 Hroom0].
  assert (Hpm : Player.parts (Player.processMovement dt p0) = Player.parts p0
                /\ Player.currentRoom (Player.processMovement dt p0)
                   = Player.currentRoom p0).
  { unfold Player.processMovement. case_ifs; split; reflexivity. }
  set (pm := Player.processMovement dt p0) in *. clearbody pm.
  destruct Hpm as [Hparts1 Hroom1].
  unfold Player.updateParts, bind.
  destruct (Player.parts pm) as [|head rest] eqn:E.
  { exfalso. apply Hparts. rewrite <- Hparts0, <- Hparts1. reflexivity. }
  unfold ret, Player.clampToWorld.
  cbn [Player.currentRoom Player.set_parts].
  rewrite Hroom1, Hroom0, Hroom.
  destruct (rooms_get_size _ _ Hroom) as [Hw Hh].
  eexists _, _, _. split; [reflexivity|].
  cbn [Player.pos Player.set_pos Player.set_parts Player.updateSize
       Player.set_level Player.set_size Player.set_maxSpeed
       Player.set_lastPosition Player.lastPosition Player.parts
       Vec2.x Vec2.y Vec2.clone NarwhalePart.x NarwhalePart.y].
  split; [apply clamp_range; lra|].
  split; [apply clamp_range; lra|].
  repeat split.
Qed.

(** A dead player is left as it is, whatever [dt], while the clock has
    not passed [respawnTime] or the player belongs to no room; once the
    clock has passed it, the player of a room is spawned again: alive,
    invincible for two seconds, with a full dash charge and its score,
    kills and deaths, at least 200 inside the arena when the draws are
    in [0, 1). *)
Theorem update_dead_waits (dt : Q) (p : Player.t) (w : World) :
  Player.isAlive p = false ->
  let now := clock w (clockPos w) in
  ((now <= Player.respawnTime p)%Z \/ rooms_get (Player.currentRoom p) = None ->
   Player.update dt p w = Some (p, clock_advance 1 w))
  /\ (forall room,
        (Player.respawnTime p < now)%Z ->
        rooms_get (Player.currentRoom p) = Some room ->
        exists p',
          Player.update dt p w
          = Some (p', mkWorld (clock w) (S (clockPos w)) (draws w) (S (S (drawPos w))))
          /\ Player.isAlive p' = true
          /\ Player.isSpawned p' = true
          /\ Player.invincibleDur p' = 2%Q
          /\ Player.curDash p' = Player.maxDash p
          /\ Player.score p' = Player.score p
          /\ Player.kills p' = Player.kills p
          /\ Player.deaths p' = Player.deaths p
          /\ ((0 <= draws w (drawPos w) < 1)%Q ->
              (200 <= Vec2.x (Player.pos p') <= Options.width room - 200)%Q)
          /\ ((0 <= draws w (S (drawPos w)) < 1)%Q ->
              (200 <= Vec2.y (Player.pos p') <= Options.height room - 200)%Q)).
Proof.
  intros Ha now. subst now. unfold Player.update. rewrite Ha. cbn [negb].
  assert (Hadv : mkWorld (clock w) (S (clockPos w)) (draws w) (drawPos w)
                 = clock_advance 1 w).
  { unfold clock_advance. rewrite Nat.add_1_r. reflexivity. }
  split.
  - unfold bind at 1, Date_now. cbv beta iota.
    intros [Hnow | Hroom].
    + destruct (Z.ltb_spec (Player.respawnTime p) (clock w (clockPos w))); [lia|].
      unfold ret. rewrite Hadv. reflexivity.
    + rewrite Hroom. destruct (_ <? _)%Z; unfold ret; rewrite Hadv; reflexivity.
  - intros room Hnow Hroom.
    unfold bind at 1, Date_now. cbv beta iota.
    destruct (Z.ltb_spec (Player.respawnTime p) (clock w (clockPos w))); [|lia].
    rewrite Hroom.
    destruct (rooms_get_size _ _ Hroom) as [Hw Hh].
    unfold Player.spawn, bind, ret, Math_random.
    cbn [clock clockPos draws drawPos].
    eexists. split; [reflexivity|].
    cbn [Player.isAlive Player.isSpawned Player.invincibleDur Player.curDash
         Player.maxDash Player.score Player.kills Player.deaths Player.pos
         Player.set_isAlive Player.set_isSpawned Player.set_pos Player.set_vel
         Player.set_invincibleDur Player.set_curDash Player.set_size
         Player.set_level Player.set_parts Player.set_lastPosition
         Vec2.x Vec2.y].
    do 7 (split; [reflexivity|]).
    split; intros Hd; apply draw_inside; (exact Hd || lra).
Qed.

End Motion.
(** * Invariants of a room

    A property [I] of players and a property [F] of foods that the
    operations on one player and on one food keep are kept by every
    command on a room, together with a bound on the number of foods. *)

Section RoomInvariant.
Context `{MathLib}.
Variable I : Player.t -> Prop.
Variable F : Food.t -> Prop.
Variable D : Q -> Prop.
Variable N : nat.

Hypothesis N_min : (259 <= N)%nat.
Hypothesis I_new : forall id name skincode colorcode,
  ensures (Player.new id name)
          (fun p => I (Player.set_color colorcode (Player.set_skincode skincode p))).
Hypothesis I_currentRoom : forall r p, I p -> I (Player.set_currentRoom r p).
Hypothesis I_spawn : forall room p, I p -> ensures (Player.spawn room p) I.
Hypothesis I_update : forall dt p, D dt -> I p -> ensures (Player.update dt p) I.
Hypothesis I_setTarget : forall x y p, I p -> I (Player.setTarget x y p).
Hypothesis I_useDash : forall p,
  I p -> ensures (Player.useDash InputValidator.validateDash p) (fun r => I (snd r)).
Hypothesis I_credit : forall victim a,
  I victim -> I a -> I (Player.credit (Player.level victim) a).
Hypothesis I_die : forall p, I p -> ensures (Player.die p) I.
Hypothesis I_eat : forall p f,
  I p -> F f -> I (Player.set_score (Player.score p + Food.value f * 10)%Z p).
Hypothesis F_randomFood : forall opts, ensures (GameRoom.randomFood opts) F.

Local Abbreviation ok := (roomOk I F N).
Local Abbreviation sweepOk := (sweepOk I F).

Lemma takeDamage_inv amount attacker this (ps : list Player.t) :
  Forall I ps ->
  (this < length ps)%nat ->
  ensures (Player.takeDamage amount attacker this ps)
          (fun r => Forall I (snd r) /\ length (snd r) = length ps).
Proof.
  intros Hps Hthis. unfold Player.takeDamage.
  destruct (lookup_lt_is_Some_2 ps this Hthis) as [self Hself]. rewrite Hself.
  assert (Hs : I self) by (eapply Forall_lookup_1; eauto).
  destruct (Js.ltb 0 _); [apply ensures_ret; split; [exact Hps | reflexivity]|].
  set (ps1 := match attacker with
              | Some a => if negb (a =? this)%nat
                          then alter (Player.credit (Player.level self)) a ps else ps
              | None => ps
              end).
  assert (H1 : Forall I ps1 /\ length ps1 = length ps).
  { unfold ps1. destruct attacker as [a|]; [|split; [exact Hps | reflexivity]].
    destruct (negb _); [|split; [exact Hps | reflexivity]].
    split; [|apply length_alter].
    apply Forall_alter; [exact Hps|]. intros q _ Hq. apply I_credit; assumption. }
  clearbody ps1. destruct H1 as [Hwf1 Hlen1].
  destruct (lookup_lt_is_Some_2 ps1 this ltac:(lia)) as [self1 Hself1].
  rewrite Hself1.
  assert (Hs1 : I self1) by (eapply Forall_lookup_1; eauto).
  eapply ensures_bind; [apply I_die, Hs1|]. intros self2 Hs2.
  apply ensures_ret. simpl.
  split; [|rewrite length_insert; exact Hlen1].
  apply Forall_insert; assumption.
Qed.

Lemma collide_inv (ps : list Player.t) i j n :
  Forall I ps -> length ps = n -> (i < n)%nat -> (j < n)%nat ->
  ensures (GameRoom.collide ps (i, j))
          (fun ps' => Forall I ps' /\ length ps' = n).
Proof.
  intros Hwf Hlen Hi Hj. unfold GameRoom.collide.
  destruct (lookup_lt_is_Some_2 ps i ltac:(lia)) as [p1 Hp1].
  destruct (lookup_lt_is_Some_2 ps j ltac:(lia)) as [p2 Hp2].
  rewrite Hp1, Hp2.
  assert (Hok : ensures (ret ps) (fun ps' => Forall I ps' /\ length ps' = n))
    by (apply ensures_ret; split; assumption).
  destruct (Js.ltb _ _); [|exact Hok].
  destruct (_ <? _)%Z.
  { eapply ensures_bind; [apply (takeDamage_inv _ _ j ps Hwf); lia|].
    intros [b ps'] [Hwf' Hlen']. simpl in *.
    apply ensures_ret. split; [exact Hwf' | lia]. }
  destruct (_ <? _)%Z; [|exact Hok].
  eapply ensures_bind; [apply (takeDamage_inv _ _ i ps Hwf); lia|].
  intros [b ps'] [Hwf' Hlen']. simpl in *.
  apply ensures_ret. split; [exact Hwf' | lia].
Qed.

Lemma collidePlayers_inv (ps0 ps : list Player.t) :
  Forall I ps -> length ps = length ps0 ->
  ensures (GameRoom.collidePlayers (GameRoom.alive ps0) ps)
          (fun ps' => Forall I ps' /\ length ps' = length ps0).
Proof.
  intros Hwf Hlen. unfold GameRoom.collidePlayers.
  apply (ensures_foldM GameRoom.collide
           (fun ps' => Forall I ps' /\ length ps' = length ps0));
    [|split; assumption].
  intros ps1 [i j] [Hps1 Hl1] Hij.
  apply pairs_elem in Hij as [Hi Hj].
  apply collide_inv; [exact Hps1 | exact Hl1 | |]; apply alive_bound; assumption.
Qed.

Lemma eatFoods_inv opts n : forall player (foods : list Food.t),
  (n <= length foods)%nat ->
  I player -> Forall F foods ->
  ensures (GameRoom.eatFoods opts n player foods)
          (fun r => I (fst r) /\ Forall F (snd r)
                    /\ (length (snd r) <= length foods)%nat).
Proof.
  induction n as [|i IH]; intros player foods Hn Hp Hf; cbn [GameRoom.eatFoods].
  - apply ensures_ret. simpl. split; [exact Hp|]. split; [exact Hf | lia].
  - destruct (lookup_lt_is_Some_2 foods i ltac:(lia)) as [food Hfood].
    rewrite Hfood.
    destruct (Js.ltb _ _); [|apply IH; [lia | exact Hp | exact Hf]].
    eapply ensures_bind; [apply ensures_Math_random|]. intros r _.
    assert (Hfood' : F food) by (eapply Forall_lookup_1; eauto).
    assert (Hdel : length (delete i foods) = (length foods - 1)%nat).
    { rewrite length_delete by (rewrite Hfood; eauto). lia. }
    assert (Hdf : Forall F (delete i foods)) by (apply Forall_delete, Hf).
    assert (Hp' : I (Player.set_score
                       (Player.score player + Food.value food * 10)%Z player))
      by (apply I_eat; assumption).
    destruct (Js.ltb r _).
    + eapply ensures_bind; [apply F_randomFood|]. intros f Hnew.
      eapply ensures_weaken.
      { apply IH; [rewrite length_app; lia | exact Hp'|].
        apply Forall_app. split; [exact Hdf|]. constructor; [exact Hnew | constructor]. }
      intros [p' fs] (H1 & H2 & H3). simpl in *.
      split; [exact H1|]. split; [exact H2|].
      rewrite length_app, Hdel in H3. simpl in H3. lia.
    + eapply ensures_weaken; [apply IH; [lia | exact Hp' | exact Hdf]|].
      intros [p' fs] (H1 & H2 & H3). simpl in *.
      split; [exact H1|]. split; [exact H2 | lia].
Qed.

Lemma eatStep_inv (r0 r : GameRoom.t) k n :
  sweepOk r0 r n -> (k < length (GameRoom.players r0))%nat ->
  ensures (GameRoom.eatStep r k) (fun r' => sweepOk r0 r' n).
Proof.
  intros (Hwf & Hlen & Hf & Hn & Ho & Hi) Hk. unfold GameRoom.eatStep.
  destruct (lookup_lt_is_Some_2 (GameRoom.players r) k ltac:(lia)) as [p Hp].
  rewrite Hp.
  eapply ensures_bind.
  { apply eatFoods_inv; [lia | | exact Hf]. eapply Forall_lookup_1; eauto. }
  intros [p' fs] (Hp' & Hfs & Hlfs).
  cbn [fst snd] in Hp', Hfs, Hlfs.
  apply ensures_ret. unfold sweepOk.
  cbn [GameRoom.players GameRoom.foods GameRoom.options GameRoom.id
       GameRoom.set_players GameRoom.set_foods].
  split; [apply Forall_insert; assumption|].
  split; [rewrite length_insert; exact Hlen|].
  split; [exact Hfs|]. split; [lia|]. split; assumption.
Qed.

Lemma checkCollisions_inv (r : GameRoom.t) n :
  Forall I (GameRoom.players r) -> Forall F (GameRoom.foods r) ->
  (length (GameRoom.foods r) <= n)%nat ->
  ensures (GameRoom.checkCollisions r) (fun r' => sweepOk r r' n).
Proof.
  intros Hwf Hf Hn. unfold GameRoom.checkCollisions.
  eapply ensures_bind.
  { apply collidePlayers_inv; [exact Hwf | reflexivity]. }
  intros ps [Hps Hlps].
  apply (ensures_foldM GameRoom.eatStep (fun r' => sweepOk r r' n)).
  - intros r1 k Hr1 Hk. apply eatStep_inv; [exact Hr1|].
    apply alive_bound, Hk.
  - unfold sweepOk.
    cbn [GameRoom.players GameRoom.foods GameRoom.options GameRoom.id
         GameRoom.set_players].
    repeat split; assumption.
Qed.

Lemma generateFood_inv count : forall (r : GameRoom.t),
  Forall F (GameRoom.foods r) ->
  ensures (GameRoom.generateFood count r)
          (fun r' => GameRoom.players r' = GameRoom.players r
                     /\ Forall F (GameRoom.foods r')
                     /\ length (GameRoom.foods r') = (length (GameRoom.foods r) + count)%nat
                     /\ GameRoom.options r' = GameRoom.options r
                     /\ GameRoom.id r' = GameRoom.id r).
Proof.
  induction count as [|n IH]; intros r Hf; cbn [GameRoom.generateFood].
  - apply ensures_ret. repeat split; [exact Hf | lia].
  - eapply ensures_bind; [apply F_randomFood|]. intros f Hnew.
    eapply ensures_weaken.
    { apply IH. cbn [GameRoom.foods GameRoom.set_foods].
      apply Forall_app. split; [exact Hf|]. constructor; [exact Hnew | constructor]. }
    intros r' (Hp & Hf' & Hl & Ho & Hi).
    cbn [GameRoom.players GameRoom.foods GameRoom.options GameRoom.id
         GameRoom.set_foods] in Hp, Hl, Ho, Hi.
    rewrite length_app in Hl. simpl in Hl.
    repeat split; try assumption. lia.
Qed.

Lemma room_update_inv dt (r : GameRoom.t) :
  D dt -> ok r ->
  ensures (GameRoom.update dt r)
          (fun r' => ok r'
                     /\ length (GameRoom.players r') = length (GameRoom.players r)
                     /\ GameRoom.options r' = GameRoom.options r
                     /\ GameRoom.id r' = GameRoom.id r).
Proof.
  intros Hdt (Hwf & Hf & Hn). unfold GameRoom.update.
  eapply ensures_bind.
  { apply (ensures_mapM (Player.update dt) I I);
      [intros p Hp; apply I_update; assumption | exact Hwf]. }
  intros ps [Hps Hlen].
  eapply ensures_bind.
  { apply (checkCollisions_inv (GameRoom.set_players ps r) N); assumption. }
  intros r1 (Hwf1 & Hl1 & Hf1 & Hn1 & Ho1 & Hi1).
  cbn [GameRoom.players GameRoom.set_players GameRoom.options GameRoom.id]
    in Hl1, Ho1, Hi1.
  destruct (Nat.ltb_spec (length (GameRoom.foods r1)) 250).
  - eapply ensures_weaken; [apply (generateFood_inv 10 r1 Hf1)|].
    intros r2 (Hp2 & Hf2 & Hl2 & Ho2 & Hi2). unfold roomOk. rewrite Hp2.
    repeat split; try assumption; try congruence; lia.
  - apply ensures_ret. unfold roomOk.
    repeat split; try assumption; congruence.
Qed.

Lemma players_set_inv player : forall ps,
  I player -> Forall I ps -> Forall I (GameRoom.players_set player ps).
Proof.
  induction ps as [|q ps IH]; intros Hp Hps; simpl.
  - constructor; [exact Hp | constructor].
  - apply Forall_cons in Hps as [Hq Hps].
    destruct (_ =? _)%Z; constructor; auto.
Qed.

Lemma spawn_id room p w p1 w1 :
  Player.spawn room p w = Some (p1, w1) -> Player.id p1 = Player.id p.
Proof.
  unfold Player.spawn, bind, ret, Math_random. intros E.
  injection E as <- _. reflexivity.
Qed.

Lemma new_id id name w p w1 :
  Player.new id name w = Some (p, w1) -> Player.id p = id.
Proof.
  unfold Player.new, Player.randomColor, bind, ret, Math_random, Date_now.
  intros E. injection E as <- _. reflexivity.
Qed.

Lemma handleStart_inv playerId skincode colorcode playerName (r : GameRoom.t) :
  ok r ->
  ensures (Server.handleStart playerId skincode colorcode playerName r)
          (fun r' => ok r'
                     /\ GameRoom.foods r' = GameRoom.foods r
                     /\ GameRoom.options r' = GameRoom.options r
                     /\ GameRoom.id r' = GameRoom.id r).
Proof.
  intros (Hwf & Hf & Hn) w. unfold Server.handleStart.
  destruct (I_new playerId playerName skincode colorcode w) as (p0 & w0 & E0 & Hp0).
  pose proof (new_id _ _ _ _ _ E0) as Hid0.
  unfold bind at 1. rewrite E0.
  unfold GameRoom.addPlayer. unfold bind at 1. unfold bind at 1.
  set (p1 := Player.set_currentRoom _ _).
  destruct (I_spawn (GameRoom.options r) p1
              ltac:(apply I_currentRoom, Hp0) w0) as (p2 & w2 & E2 & Hp2).
  pose proof (spawn_id _ _ _ _ _ E2) as Hid2.
  rewrite E2. unfold ret at 1.
  cbn [GameRoom.players GameRoom.set_players GameRoom.options].
  destruct (players_index_set p2 (GameRoom.players r)) as [q Hq].
  assert (Hidx : Player.id p2 = playerId) by (rewrite Hid2; exact Hid0).
  rewrite Hidx in Hq. rewrite Hq.
  assert (Hps : Forall I (GameRoom.players_set p2 (GameRoom.players r)))
    by (apply players_set_inv; assumption).
  destruct (I_spawn (GameRoom.options r) q
              ltac:(eapply Forall_lookup_1; eauto) w2) as (q2 & w3 & E3 & Hq2).
  unfold bind. rewrite E3. unfold ret.
  eexists _, _. split; [reflexivity|].
  unfold roomOk.
  cbn [GameRoom.players GameRoom.foods GameRoom.options GameRoom.id
       GameRoom.set_players].
  split; [|repeat split].
  split; [apply Forall_insert; assumption|]. split; assumption.
Qed.

Lemma step_inv (r : GameRoom.t) (c : Server.command) :
  match c with Server.Tick dt => D dt | _ => True end ->
  ok r ->
  ensures (Server.step r c)
          (fun r' => ok r' /\ GameRoom.options r' = GameRoom.options r).
Proof.
  intros Hc Hok. pose proof Hok as (Hwf & Hf & Hn).
  assert (Hset : forall ps, Forall I ps ->
            ok (GameRoom.set_players ps r)
            /\ GameRoom.options (GameRoom.set_players ps r) = GameRoom.options r).
  { intros ps Hps. split; [|reflexivity]. split; [exact Hps|]. split; assumption. }
  destruct c as [dt | k x y | k | k attacker | k | pid skin col nm];
    cbn [Server.step].
  - eapply ensures_weaken; [apply room_update_inv; assumption|].
    intros r' (Hr' & _ & Ho & _). split; assumption.
  - destruct (GameRoom.players r !! k) as [p|] eqn:E; apply ensures_ret;
      [|split; [exact Hok | reflexivity]].
    apply Hset, Forall_insert; [exact Hwf|].
    apply I_setTarget. eapply Forall_lookup_1; eauto.
  - destruct (GameRoom.players r !! k) as [p|] eqn:E;
      [|apply ensures_ret; split; [exact Hok | reflexivity]].
    eapply ensures_bind.
    { apply I_useDash. eapply Forall_lookup_1; eauto. }
    intros [b p'] Hp'. apply ensures_ret.
    apply Hset, Forall_insert; assumption.
  - destruct (GameRoom.players r !! k) as [p|] eqn:E;
      [|apply ensures_ret; split; [exact Hok | reflexivity]].
    eapply ensures_bind.
    { apply takeDamage_inv; [exact Hwf|]. eapply lookup_lt_Some; eauto. }
    intros [b ps'] [Hps' _]. apply ensures_ret. apply Hset, Hps'.
  - destruct (GameRoom.players r !! k) as [p|] eqn:E;
      [|apply ensures_ret; split; [exact Hok | reflexivity]].
    eapply ensures_bind.
    { apply I_spawn. eapply Forall_lookup_1; eauto. }
    intros p' Hp'. apply ensures_ret.
    apply Hset, Forall_insert; assumption.
  - eapply ensures_weaken; [apply handleStart_inv, Hok|].
    intros r' (Hr' & _ & Ho & _). split; assumption.
Qed.

(** Every run of commands whose ticks satisfy [D] returns and keeps the
    invariant of the room. *)
Lemma run_inv (cs : list Server.command) (r : GameRoom.t) :
  ticksOk D cs -> ok r ->
  ensures (Server.run cs r)
          (fun r' => ok r' /\ GameRoom.options r' = GameRoom.options r).
Proof.
  intros Hcs Hok. unfold Server.run.
  apply (ensures_foldM Server.step
           (fun r' => ok r' /\ GameRoom.options r' = GameRoom.options r));
    [|split; [exact Hok | reflexivity]].
  intros r1 c [Hr1 Ho1] Hc.
  eapply ensures_weaken; [apply step_inv; [|exact Hr1]|].
  - unfold ticksOk in Hcs. rewrite Forall_forall in Hcs. apply Hcs, Hc.
  - intros r2 [Hr2 Ho2]. split; [exact Hr2 | congruence].
Qed.

End RoomInvariant.
(** * Statistics and timers *)

Section Stats.
Context `{MathLib}.
Local Open Scope Z_scope.

Lemma leb_le x y : Js.leb x y = true <-> (x <= y)%Q.
Proof. unfold Js.leb, Qle. apply Z.leb_le. Qed.

Lemma leb_gt x y : Js.leb x y = false <-> (y < x)%Q.
Proof. unfold Js.leb, Qlt. apply Z.leb_gt. Qed.

(** The update of a living player, field by field. *)
Lemma update_alive_fields dt p w :
  Player.isAlive p = true ->
  Player.parts p <> [] ->
  exists p',
    Player.update dt p w = Some (p', w)
    /\ Player.parts p' <> []
    /\ Player.score p' = Player.score p
    /\ Player.kills p' = Player.kills p
    /\ Player.deaths p' = Player.deaths p
    /\ Player.level p' = Player.score p / 100 + 1
    /\ Player.size p' = 36 + (Player.level p' - 1) * 3
    /\ Player.maxSpeed p' = Z.max 80 (150 - (Player.level p' - 1) * 5)
    /\ Player.dashRegenRate p' = Player.dashRegenRate p
    /\ Player.invincibleDur p' = Js.max 0 (Player.invincibleDur p - dt)
    /\ Player.overDash p'
       = (if Player.curDash p <? Player.maxDash p then
            if Js.leb 1 (Player.overDash p + dt * Player.dashRegenRate p)
            then 0%Q
            else (Player.overDash p + dt * Player.dashRegenRate p)%Q
          else Player.overDash p).
Proof.
  intros Ha Hparts. unfold Player.update. rewrite Ha. cbn [negb].
  match goal with
  | |- context [Player.processMovement dt ?q] =>
      set (p0 := q);
      assert (Hp0 : Player.parts p0 = Player.parts p
                    /\ Player.score p0 = Player.score p
                    /\ Player.kills p0 = Player.kills p
                    /\ Player.deaths p0 = Player.deaths p
                    /\ Player.dashRegenRate p0 = Player.dashRegenRate p
                    /\ Player.invincibleDur p0
                       = Js.max 0 (Player.invincibleDur p - dt)
                    /\ Player.overDash p0
                       = (if Player.curDash p <? Player.maxDash p then
                            if Js.leb 1 (Player.overDash p
                                         + dt * Player.dashRegenRate p)
                            then 0%Q
                            else (Player.overDash p
                                  + dt * Player.dashRegenRate p)%Q
                          else Player.overDash p))
  end.
  { unfold p0.
    cbn [Player.curDash Player.maxDash Player.overDash Player.dashRegenRate
         Player.set_invincibleDur Player.set_overDash].
    destruct (_ <? _); [destruct (Js.leb _ _)|]; repeat split. }
  clearbody p0.
  destruct Hp0 as (Hparts0 & Hs0 & Hk0 & Hd0 & Hr0 & Hi0 & Ho0).
  assert (Hpm : Player.parts (Player.processMovement dt p0) = Player.parts p0
                /\ Player.score (Player.processMovement dt p0) = Player.score p0
                /\ Player.kills (Player.processMovement dt p0) = Player.kills p0
                /\ Player.deaths (Player.processMovement dt p0) = Player.deaths p0
                /\ Player.dashRegenRate (Player.processMovement dt p0)
                   = Player.dashRegenRate p0
                /\ Player.invincibleDur (Player.processMovement dt p0)
                   = Player.invincibleDur p0
                /\ Player.overDash (Player.processMovement dt p0)
                   = Player.overDash p0).
  { unfold Player.processMovement. case_ifs; repeat split. }
  set (pm := Player.processMovement dt p0) in *. clearbody pm.
  destruct Hpm as (Hparts1 & Hs1 & Hk1 & Hd1 & Hr1 & Hi1 & Ho1).
  unfold Player.updateParts, bind.
  destruct (Player.parts pm) as [|head rest] eqn:E.
  { exfalso. apply Hparts. rewrite <- Hparts0, <- Hparts1. reflexivity. }
  unfold ret, Player.clampToWorld.
  cbn [Player.currentRoom Player.set_parts].
  eexists. split; [reflexivity|].
  destruct (rooms_get _);
    cbn; rewrite ?Hs1, ?Hs0, ?Hk1, ?Hk0, ?Hd1, ?Hd0, ?Hr1, ?Hr0, ?Hi1, ?Hi0,
           ?Ho1, ?Ho0;
    (split; [discriminate|]); repeat split.
Qed.

Lemma spawn_returns room p :
  ensures (Player.spawn room p)
          (fun q => q = Player.set_lastPosition (Player.lastPosition q)
                          (Player.set_parts (Player.parts q)
                             (Player.set_level 1
                                (Player.set_size 36
                                   (Player.set_curDash (Player.maxDash p)
                                      (Player.set_invincibleDur 2
                                         (Player.set_vel (Vec2.mk 0 0)
                                            (Player.set_pos (Player.pos q)
                                               (Player.set_isSpawned true
                                                  (Player.set_isAlive true p)))))))))
                     /\ length (Player.parts q) = length (Player.parts p)).
Proof.
  intros w. unfold Player.spawn, bind, ret, Math_random.
  eexists _, _. split; [reflexivity|]. cbn. rewrite length_imap.
  split; reflexivity.
Qed.

Lemma nonempty_length {A} (l l' : list A) :
  length l' = length l -> l <> [] -> l' <> [].
Proof. intros Hl Hne ->. destruct l; [contradiction | discriminate]. Qed.

Lemma stats_new id name skincode colorcode :
  ensures (Player.new id name)
          (fun p => statsOk (Player.set_color colorcode
                               (Player.set_skincode skincode p))).
Proof.
  intros w. unfold Player.new, Player.randomColor, bind, ret, Math_random, Date_now.
  eexists _, _. split; [reflexivity|]. unfold statsOk. cbn.
  split; [discriminate|]. repeat split; lia.
Qed.

Lemma stats_spawn room p : statsOk p -> ensures (Player.spawn room p) statsOk.
Proof.
  intros (Hp & Hs & Hl & Hz & Hk & Hd & Hm).
  eapply ensures_weaken; [apply spawn_returns|].
  intros q [-> Hlen]. unfold statsOk. cbn.
  split; [eapply nonempty_length; eauto|]. repeat split; try assumption; lia.
Qed.

Lemma stats_update dt p : statsOk p -> ensures (Player.update dt p) statsOk.
Proof.
  intros Hok. pose proof Hok as (Hp & Hs & Hl & Hz & Hk & Hd & Hm).
  destruct (Player.isAlive p) eqn:Ha.
  - intros w.
    destruct (update_alive_fields dt p w Ha Hp)
      as (p' & E & Hp' & Hs' & Hk' & Hd' & Hl' & Hz' & Hm' & _).
    exists p', w. split; [exact E|]. unfold statsOk.
    assert (0 <= Player.score p / 100) by (apply Z.div_pos; lia).
    rewrite Hs', Hk', Hd', Hm'. repeat split; try assumption; lia.
  - unfold Player.update. rewrite Ha. cbn [negb].
    eapply ensures_bind; [apply ensures_Date_now|]. intros now _.
    case_ifs; try (apply ensures_ret; exact Hok).
    apply stats_spawn, Hok.
Qed.

Lemma stats_useDash p :
  statsOk p ->
  ensures (Player.useDash InputValidator.validateDash p)
          (fun r => statsOk (snd r)).
Proof.
  intros Hok w.
  unfold Player.useDash, InputValidator.validateDash, bind, ret, Date_now.
  cbv beta iota.
  destruct (_ <=? _); cbn [negb]; [eexists _, _; split; [reflexivity | exact Hok]|].
  destruct (_ && _); cbn [negb]; [eexists _, _; split; [reflexivity | exact Hok]|].
  destruct (_ <? _); eexists _, _; (split; [reflexivity | exact Hok]).
Qed.

Lemma stats_randomFood opts : ensures (GameRoom.randomFood opts) foodOk.
Proof.
  intros w. rewrite randomFood_exact. eexists _, _. split; [reflexivity|].
  unfold foodOk, foodAt. cbn [Food.value Food.size].
  destruct (Js.ltb _ _); [right | left]; split; reflexivity.
Qed.

(** The invariants of the statistics: whatever commands run on a room,
    the run returns, every player keeps a score, kills and deaths that
    are not negative, a level of 1 or more, the size [36 + 3 (level -
    1)] and a top speed between 80 and 150; every food is of value 1
    and size 4 or of value 3 and size 8; and the room never holds more
    foods than it did, or than 259. *)
Theorem stats_invariant (cs : list Server.command) (r : GameRoom.t) :
  Forall statsOk (GameRoom.players r) ->
  Forall foodOk (GameRoom.foods r) ->
  ensures (Server.run cs r)
          (fun r' => Forall statsOk (GameRoom.players r')
                     /\ Forall foodOk (GameRoom.foods r')
                     /\ (length (GameRoom.foods r')
                         <= Nat.max (length (GameRoom.foods r)) 259)%nat).
Proof.
  intros Hp Hf.
  eapply ensures_weaken.
  - apply (run_inv statsOk foodOk (fun _ => True)
             (Nat.max (length (GameRoom.foods r)) 259)).
    + lia.
    + apply stats_new.
    + intros room p Hok. exact Hok.
    + apply stats_spawn.
    + intros dt p _. apply stats_update.
    + intros x y p Hok. unfold Player.setTarget. case_ifs; exact Hok.
    + apply stats_useDash.
    + intros victim a (_ & _ & Hl & _) (Hp' & Hs & Hl' & Hz & Hk & Hd & Hm).
      unfold statsOk, Player.credit. cbn.
      repeat split; try assumption; lia.
    + intros p (Hp' & Hs & Hl' & Hz & Hk & Hd & Hm) w.
      unfold Player.die, bind, ret, Date_now.
      eexists _, _. split; [reflexivity|]. unfold statsOk. cbn.
      repeat split; try assumption; lia.
    + intros p f (Hp' & Hs & Hl' & Hz & Hk & Hd & Hm) Hfood.
      unfold statsOk. cbn.
      destruct Hfood as [[-> _] | [-> _]]; repeat split; try assumption; lia.
    + apply stats_randomFood.
    + unfold ticksOk. apply Forall_true. intros []; exact Logic.I.
    + split; [exact Hp|]. split; [exact Hf | lia].
  - intros r' [(Hp' & Hf' & Hn') _]. repeat split; assumption.
Qed.

End Stats.

Section Timers.
Context `{MathLib}.

Lemma timers_spawn room p : timersOk p -> ensures (Player.spawn room p) timersOk.
Proof.
  intros (Hp & Ho & Hi & Hr).
  eapply ensures_weaken; [apply spawn_returns|].
  intros q [-> Hlen]. unfold timersOk. cbn.
  split; [eapply nonempty_length; eauto|].
  repeat split; try apply Ho; try apply Hr; lra.
Qed.

Lemma timers_update dt p :
  (0 <= dt)%Q -> timersOk p -> ensures (Player.update dt p) timersOk.
Proof.
  intros Hdt Hok. pose proof Hok as (Hp & Ho & Hi & Hr).
  destruct (Player.isAlive p) eqn:Ha.
  - intros w.
    destruct (update_alive_fields dt p w Ha Hp)
      as (p' & E & Hp' & _ & _ & _ & _ & _ & _ & Hr' & Hi' & Ho').
    exists p', w. split; [exact E|]. unfold timersOk.
    rewrite Hr', Hi', Ho'.
    split; [exact Hp'|]. split; [|split; [|exact Hr]].
    + destruct (_ <? _)%Z; [|exact Ho].
      destruct (Js.leb _ _) eqn:El; [lra|].
      apply leb_gt in El.
      assert (0 <= dt * Player.dashRegenRate p)%Q by (apply Qmult_le_0_compat; lra).
      lra.
    + unfold Js.max.
      destruct (Js.ltb _ _) eqn:El; [apply ltb_lt in El | apply ltb_ge in El]; lra.
  - unfold Player.update. rewrite Ha. cbn [negb].
    eapply ensures_bind; [apply ensures_Date_now|]. intros now _.
    case_ifs; try (apply ensures_ret; exact Hok).
    apply timers_spawn, Hok.
Qed.

Lemma timers_useDash p :
  timersOk p ->
  ensures (Player.useDash InputValidator.validateDash p)
          (fun r => timersOk (snd r)).
Proof.
  intros Hok w.
  unfold Player.useDash, InputValidator.validateDash, bind, ret, Date_now.
  cbv beta iota.
  destruct (_ <=? _)%Z; cbn [negb];
    [eexists _, _; split; [reflexivity | exact Hok]|].
  destruct (_ && _); cbn [negb]; [eexists _, _; split; [reflexivity | exact Hok]|].
  destruct (_ <? _)%Z; eexists _, _; (split; [reflexivity | exact Hok]).
Qed.

(** The invariants of the timers: whatever commands run on a room, with
    no tick of a negative [dt], the run returns and every player keeps
    a progress towards the next dash charge in [0, 1) and an
    invincibility in [0, 2]. *)
Theorem timers_invariant (cs : list Server.command) (r : GameRoom.t) :
  ticksOk (fun dt => (0 <= dt)%Q) cs ->
  Forall timersOk (GameRoom.players r) ->
  ensures (Server.run cs r)
          (fun r' => Forall (fun p => (0 <= Player.overDash p < 1)%Q
                                      /\ (0 <= Player.invincibleDur p <= 2)%Q)
                            (GameRoom.players r')).
Proof.
  intros Hcs Hp.
  eapply ensures_weaken.
  - apply (run_inv timersOk (fun _ => True) (fun dt => (0 <= dt)%Q)
             (Nat.max (length (GameRoom.foods r)) 259)).
    + lia.
    + intros id name skincode colorcode w.
      unfold Player.new, Player.randomColor, bind, ret, Math_random, Date_now.
      eexists _, _. split; [reflexivity|]. unfold timersOk. cbn.
      split; [discriminate|]. repeat split; lra.
    + intros room p Hok. exact Hok.
    + apply timers_spawn.
    + apply timers_update.
    + intros x y p Hok. unfold Player.setTarget. case_ifs; exact Hok.
    + apply timers_useDash.
    + intros victim a _ Hok. exact Hok.
    + intros p Hok w. unfold Player.die, bind, ret, Date_now.
      eexists _, _. split; [reflexivity | exact Hok].
    + intros p f Hok _. exact Hok.
    + intros opts. apply randomFood_returns.
    + exact Hcs.
    + split; [exact Hp|]. split; [apply Forall_true; intros; exact Logic.I | lia].
  - intros r' [(Hp' & _) _]. eapply Forall_impl; [exact Hp'|].
    intros p (_ & Ho & Hi & _). split; assumption.
Qed.

End Timers.
(** * The leader board *)

Section LeaderBoard.
Local Open Scope Z_scope.

Lemma sort_insert_split p l :
  exists l1 l2,
    l = l1 ++ l2
    /\ PacketEncoder.sort_insert p l = l1 ++ p :: l2
    /\ Forall (fun q => Player.score p < Player.score q) l1
    /\ match l2 with
       | [] => True
       | q :: _ => Player.score q <= Player.score p
       end.
Proof.
  induction l as [|q l (l1 & l2 & -> & E & H1 & H2)]; simpl.
  - exists [], []. repeat split. constructor.
  - destruct (Z.leb_spec (Player.score q) (Player.score p)).
    + exists [], (q :: l1 ++ l2). repeat split; [constructor | assumption].
    + exists (q :: l1), l2. rewrite E. repeat split; [|exact H2].
      constructor; assumption.
Qed.

Lemma sort_insert_perm p l : PacketEncoder.sort_insert p l ≡ₚ p :: l.
Proof.
  destruct (sort_insert_split p l) as (l1 & l2 & -> & -> & _).
  symmetry. apply Permutation_middle.
Qed.

Lemma sortByScore_perm l : PacketEncoder.sortByScore l ≡ₚ l.
Proof.
  induction l as [|p l IH]; simpl; [reflexivity|].
  rewrite sort_insert_perm, IH. reflexivity.
Qed.

Lemma sort_insert_sorted p l :
  StronglySorted (fun a b => Player.score b <= Player.score a) l ->
  StronglySorted (fun a b => Player.score b <= Player.score a)
                 (PacketEncoder.sort_insert p l).
Proof.
  induction 1 as [|q l Hl IH Hq]; simpl.
  - repeat constructor.
  - destruct (Z.leb_spec (Player.score q) (Player.score p)).
    + constructor; [constructor; assumption|].
      constructor; [assumption|].
      eapply Forall_impl; [exact Hq|]. intros r Hr. simpl in Hr. lia.
    + constructor; [exact IH|].
      rewrite sort_insert_perm. constructor; [lia | exact Hq].
Qed.

Lemma sortByScore_sorted l :
  StronglySorted (fun a b => Player.score b <= Player.score a)
                 (PacketEncoder.sortByScore l).
Proof.
  induction l as [|p l IH]; simpl; [constructor|].
  apply sort_insert_sorted, IH.
Qed.

Lemma sort_insert_stable s p l :
  withScore s (PacketEncoder.sort_insert p l) = withScore s (p :: l).
Proof.
  destruct (sort_insert_split p l) as (l1 & l2 & -> & -> & H1 & _).
  unfold withScore. rewrite List.filter_app. simpl. rewrite List.filter_app.
  destruct (Z.eqb_spec (Player.score p) s) as [<- | Hne]; [|reflexivity].
  assert (Hnil : List.filter (fun q => Player.score q =? Player.score p) l1 = []).
  { induction H1 as [|q l1 Hq _ IH]; simpl; [reflexivity|].
    destruct (Z.eqb_spec (Player.score q) (Player.score p)); [lia | exact IH]. }
  rewrite Hnil. reflexivity.
Qed.

Lemma sortByScore_stable s l :
  withScore s (PacketEncoder.sortByScore l) = withScore s l.
Proof.
  induction l as [|p l IH]; simpl; [reflexivity|].
  rewrite sort_insert_stable. unfold withScore in *. simpl.
  rewrite IH. reflexivity.
Qed.

(** The ranking of the leader board: the players alive, sorted by
    score, the largest first, players of equal score in the order in
    which they joined; the board shows the first ten, whose scores are
    at least those of the players left out. *)
Theorem leaderboard_ranking (players : list Player.t) :
  let alive := List.filter Player.isAlive players in
  let ranked := PacketEncoder.sortByScore alive in
  ranked ≡ₚ alive
  /\ StronglySorted (fun a b => Player.score b <= Player.score a) ranked
  /\ (forall s, withScore s ranked = withScore s alive)
  /\ leaders players = take 10 ranked
  /\ length (leaders players) = Nat.min 10 (length alive)
  /\ (forall p q, p ∈ leaders players -> q ∈ drop 10 ranked ->
        Player.score q <= Player.score p).
Proof.
  intros alive ranked.
  pose proof (sortByScore_perm alive) as Hperm.
  pose proof (sortByScore_sorted alive) as Hsorted.
  fold ranked in Hperm, Hsorted.
  split; [exact Hperm|]. split; [exact Hsorted|].
  split; [intros s; apply sortByScore_stable|].
  split; [reflexivity|].
  split.
  - unfold leaders. fold alive. fold ranked.
    rewrite length_take, (Permutation_length Hperm). reflexivity.
  - intros p q Hp Hq. unfold leaders in Hp. fold alive in Hp. fold ranked in Hp.
    rewrite <- (take_drop 10 ranked) in Hsorted.
    revert Hsorted Hp Hq.
    generalize (take 10 ranked) as l1. generalize (drop 10 ranked) as l2.
    intros l2 l1 Hs Hp Hq.
    induction l1 as [|a l1 IH]; [apply elem_of_nil in Hp; contradiction|].
    simpl in Hs. apply StronglySorted_inv in Hs as [Hs Ha].
    apply elem_of_cons in Hp as [-> | Hp]; [|apply IH; assumption].
    rewrite Forall_forall in Ha. apply Ha.
    apply elem_of_app. right. exact Hq.
Qed.

Lemma returns_mapM_map {A B} (f : A -> M B) (g : A -> B) (l : list A) :
  Forall (fun a => returns (f a) (g a)) l ->
  returns (mapM f l) (List.map g l).
Proof.
  induction 1 as [|a l Ha _ IH]; simpl; [apply returns_ret|].
  eapply returns_bind; [exact Ha|].
  eapply returns_bind; [exact IH|]. apply returns_ret.
Qed.

Lemma leaders_Forall (P : Player.t -> Prop) players :
  Forall P players -> Forall P (leaders players).
Proof.
  intros HP. unfold leaders. apply Forall_take.
  rewrite sortByScore_perm. apply Forall_forall. intros p Hp.
  apply list_elem_of_In, List.filter_In in Hp as [Hp _].
  rewrite Forall_forall in HP. apply HP, list_elem_of_In, Hp.
Qed.

Lemma concat_map_singleton {A B} (f : A -> B) (l : list A) :
  concat (List.map (fun a => [f a]) l) = List.map f l.
Proof. induction l; simpl; congruence. Qed.

Lemma entries_length (l : list Player.t) :
  (length (concat (List.map
             (fun p => [Player.level p mod 256]%Z
                       ++ take 25 (PacketEncoder.utf8 (Player.name p))
                       ++ [0%Z]) l))
   <= 27 * length l)%nat.
Proof.
  induction l as [|p l IH]; cbn [List.map concat]; [simpl; lia|].
  rewrite !length_app, length_take. cbn [length]. lia.
Qed.

Lemma leaders_length players : (length (leaders players) <= 10)%nat.
Proof. unfold leaders. rewrite length_take. lia. Qed.

(** The bytes of the LEADER_BOARD packet. *)
Lemma encodeLeaderBoard_bytes (players : list Player.t) :
  Forall (fun p => 0 <= Player.level p) players ->
  let top := leaders players in
  let n := Z.of_nat (length top) in
  let bytes :=
    [OPCODES.LEADER_BOARD; n]
    ++ concat (List.map (fun p => [Player.level p mod 256]
                                  ++ take 25 (PacketEncoder.utf8 (Player.name p))
                                  ++ [0]) top)
    ++ [n]
    ++ List.map (fun p => Z.min (Player.level p) 255) top in
  returns (PacketEncoder.encodeLeaderBoard players) bytes /\ Forall byte bytes.
Proof.
  intros Hlevel top n bytes.
  pose proof (leaders_Forall _ _ Hlevel) as Htop. fold top in Htop.
  pose proof (leaders_length players) as Hn. fold top in Hn.
  assert (Hnb : byte n) by (unfold byte, n; lia).
  split.
  - unfold PacketEncoder.encodeLeaderBoard. fold (leaders players). fold top. fold n.
    eapply returns_bind;
      [apply writeUInt8_returns; unfold byte, OPCODES.LEADER_BOARD; lia|].
    eapply returns_bind; [apply writeUInt8_returns, Hnb|].
    eapply returns_bind.
    { apply (returns_mapM_map PacketEncoder._leaderBoardEntry
               (fun p => [Player.level p mod 256]
                         ++ take 25 (PacketEncoder.utf8 (Player.name p)) ++ [0])).
      apply Forall_forall. intros p _. unfold PacketEncoder._leaderBoardEntry.
      eapply returns_bind; [apply writeUInt8_returns, band_255_byte|].
      eapply returns_bind; [apply writeUInt8_returns; unfold byte; lia|].
      rewrite band_255.
      replace (take (length (PacketEncoder.utf8 (Player.name p)) `min` 25)
                    (PacketEncoder.utf8 (Player.name p)))
        with (take 25 (PacketEncoder.utf8 (Player.name p))); [apply returns_ret|].
      destruct (Nat.le_gt_cases (length (PacketEncoder.utf8 (Player.name p))) 25).
      - rewrite Nat.min_l by lia. rewrite !take_ge by lia. reflexivity.
      - rewrite Nat.min_r by lia. reflexivity. }
    eapply returns_bind; [apply writeUInt8_returns, Hnb|].
    eapply returns_bind.
    { apply (returns_mapM_map
               (fun p => PacketEncoder.writeUInt8 (Z.min (Player.level p) 255))
               (fun p => [Z.min (Player.level p) 255])).
      eapply Forall_impl; [exact Htop|]. intros p Hp. cbv beta in Hp.
      apply writeUInt8_returns. unfold byte. lia. }
    unfold bytes.
    rewrite concat_map_singleton. apply returns_ret.
  - unfold bytes. repeat (apply Forall_app; split).
    + repeat constructor; try apply Hnb; unfold OPCODES.LEADER_BOARD; lia.
    + apply Forall_concat, Forall_forall. intros e He.
      apply list_elem_of_In, in_map_iff in He as (p & <- & _).
      repeat (apply Forall_app; split).
      * constructor; [apply mod_256_byte | constructor].
      * apply Forall_take, utf8_bytes.
      * repeat constructor; lia.
    + repeat constructor; apply Hnb.
    + apply Forall_forall. intros b Hb.
      apply list_elem_of_In, in_map_iff in Hb as (p & <- & Hp).
      rewrite Forall_forall in Htop.
      specialize (Htop p (proj2 (list_elem_of_In _ _) Hp)). cbv beta in Htop.
      unfold byte. lia.
Qed.

(** The LEADER_BOARD packet is built whenever no player has a negative
    level: the opcode, the number of leaders, for each leader the low
    byte of its level, at most 25 bytes of its name and a zero byte,
    then the number of leaders again and for each leader its level, 255
    at most.  The two level bytes of a leader agree up to level 255.
    The packet fits the [3 + 30 n] bytes allocated for [n] leaders. *)
Theorem encodeLeaderBoard_returns (players : list Player.t) :
  Forall (fun p => 0 <= Player.level p) players ->
  let top := leaders players in
  let n := Z.of_nat (length top) in
  let bytes :=
    [OPCODES.LEADER_BOARD; n]
    ++ concat (List.map (fun p => [Player.level p mod 256]
                                  ++ take 25 (PacketEncoder.utf8 (Player.name p))
                                  ++ [0]) top)
    ++ [n]
    ++ List.map (fun p => Z.min (Player.level p) 255) top in
  returns (PacketEncoder.encodeLeaderBoard players) bytes
  /\ Forall byte bytes
  /\ (length bytes <= 3 + 30 * length top)%nat
  /\ Forall (fun p => Player.level p <= 255 ->
                      Player.level p mod 256 = Z.min (Player.level p) 255) top.
Proof.
  intros Hlevel top n bytes.
  pose proof (leaders_Forall _ _ Hlevel) as Htop. fold top in Htop.
  destruct (encodeLeaderBoard_bytes players Hlevel) as [Hr Hb].
  split; [exact Hr|]. split; [exact Hb|]. split.
  - unfold bytes. rewrite !length_app, length_map. cbn [length].
    pose proof (entries_length top). lia.
  - eapply Forall_impl; [exact Htop|]. intros p H0 H255. cbv beta in H0.
    rewrite Z.mod_small by lia. lia.
Qed.

End LeaderBoard.
(** * Messages from the client *)

Section Messages.
Local Open Scope Z_scope.

Lemma le32_bytes b0 b1 b2 b3 :
  byte b0 -> byte b1 -> byte b2 -> byte b3 ->
  let v := b0 + 256 * b1 + 65536 * b2 + 16777216 * b3 in
  0 <= v <= 4294967295
  /\ v mod 256 = b0 /\ v / 256 mod 256 = b1
  /\ v / 65536 mod 256 = b2 /\ v / 16777216 mod 256 = b3.
Proof.
  unfold byte. intros H0 H1 H2 H3.
  split; [lia|].
  repeat split; Z.div_mod_to_equations; lia.
Qed.

(** A JOIN message shorter than five bytes, or for a room the server
    does not have, is ignored; otherwise the socket is moved to the
    room and the reply is the opcode followed by the four bytes of the
    room identifier as they were received. *)
Theorem handleJoin_reply (socket : Socket.t) (buf : list Z)
    (s : NarwhaleGameServer.t) (w : World) :
  ((length buf < 5)%nat ->
   NarwhaleGameServer.handleJoin socket buf s w = Some ((socket, []), w))
  /\ (forall op b0 b1 b2 b3 rest,
        buf = op :: b0 :: b1 :: b2 :: b3 :: rest ->
        byte b0 -> byte b1 -> byte b2 -> byte b3 ->
        let roomId := b0 + 256 * b1 + 65536 * b2 + 16777216 * b3 in
        NarwhaleGameServer.handleJoin socket buf s w
        = Some (match NarwhaleGameServer.rooms_find
                        roomId (NarwhaleGameServer.rooms s) with
                | Some _ =>
                    (Socket.mk (Socket.playerId socket) (Some roomId),
                     [[OPCODES.JOIN; b0; b1; b2; b3]])
                | None => (socket, [])
                end, w)).
Proof.
  unfold NarwhaleGameServer.handleJoin. split.
  - intros Hlen. destruct (Nat.ltb_spec (length buf) 5); [reflexivity | lia].
  - intros op b0 b1 b2 b3 rest -> H0 H1 H2 H3.
    cbn [length Nat.ltb Nat.leb].
    unfold bind at 1, Buffer.readUInt32LE. cbn [lookup list_lookup Nat.add].
    unfold ret at 1.
    set (roomId := b0 + 256 * b1 + 65536 * b2 + 16777216 * b3).
    destruct (NarwhaleGameServer.rooms_find roomId _); [|reflexivity].
    destruct (le32_bytes b0 b1 b2 b3 H0 H1 H2 H3) as (Hr & E0 & E1 & E2 & E3).
    fold roomId in Hr, E0, E1, E2, E3.
    unfold bind at 1.
    rewrite (writeUInt8_returns OPCODES.JOIN) by (unfold byte, OPCODES.JOIN; lia).
    unfold bind at 1. rewrite (writeUInt32LE_returns roomId Hr).
    rewrite E0, E1, E2, E3. reflexivity.
Qed.

Lemma substring_take n : forall s,
  list_ascii_of_string (String.substring 0 n s)
  = take n (list_ascii_of_string s).
Proof.
  induction n as [|n IH]; intros [|c s]; simpl; try reflexivity.
  rewrite IH. reflexivity.
Qed.

Lemma length_list_ascii s :
  length (list_ascii_of_string s) = String.length s.
Proof. induction s; simpl; congruence. Qed.

Lemma utf8_toString (bytes : list Z) :
  Forall byte bytes ->
  PacketEncoder.utf8 (Buffer.toString bytes) = bytes.
Proof.
  unfold PacketEncoder.utf8, Buffer.toString.
  rewrite list_ascii_of_string_of_list_ascii, List.map_map.
  induction 1 as [|b bytes [Hb0 Hb1] _ IH]; simpl; [reflexivity|].
  rewrite IH. f_equal.
  rewrite N_ascii_embedding by lia. lia.
Qed.

Lemma utf8_substring n s :
  PacketEncoder.utf8 (String.substring 0 n s) = take n (PacketEncoder.utf8 s).
Proof.
  unfold PacketEncoder.utf8. rewrite substring_take.
  revert n. induction (list_ascii_of_string s) as [|c l IH]; intros [|n];
    simpl; try reflexivity.
  rewrite IH. reflexivity.
Qed.

Lemma utf8_length s : length (PacketEncoder.utf8 s) = String.length s.
Proof.
  unfold PacketEncoder.utf8. rewrite length_map. apply length_list_ascii.
Qed.

Lemma utf8_empty s : PacketEncoder.utf8 s = [] -> s = EmptyString.
Proof. destruct s; [reflexivity | discriminate]. Qed.

Lemma untilNul_bytes buf : Forall byte buf -> Forall byte (Buffer.untilNul buf).
Proof.
  induction 1 as [|b buf Hb _ IH]; simpl; [constructor|].
  destruct (b =? 0); [constructor | constructor; assumption].
Qed.

Lemma untilNul_no_nul buf : Forall (fun b => b <> 0) (Buffer.untilNul buf).
Proof.
  induction buf as [|b buf IH]; simpl; [constructor|].
  destruct (Z.eqb_spec b 0); [constructor | constructor; assumption].
Qed.

(** The name [handleStart] gives the player: the bytes of the message
    from offset 9 up to the first zero byte, sixteen at most; and
    "Player" when there is none.  It has between 1 and 16 characters
    and none is the character of code 0. *)
Lemma startName_utf8 (buf : list Z) :
  Forall byte buf ->
  let given := take 16 (Buffer.untilNul (drop 9 buf)) in
  PacketEncoder.utf8 (NarwhaleGameServer.startName buf)
  = (if decide (given = []) then PacketEncoder.utf8 "Player" else given)
  /\ (1 <= length (PacketEncoder.utf8 (NarwhaleGameServer.startName buf)) <= 16)%nat
  /\ Forall (fun b => b <> 0)
            (PacketEncoder.utf8 (NarwhaleGameServer.startName buf)).
Proof.
  intros Hbuf given.
  assert (Hname : PacketEncoder.utf8 (NarwhaleGameServer.startName buf)
                  = if decide (given = []) then PacketEncoder.utf8 "Player"
                    else given).
  { unfold NarwhaleGameServer.startName.
    destruct (Nat.ltb_spec 9 (length buf)) as [Hlen | Hlen].
    - set (name := String.substring 0 16 _).
      assert (Hu : PacketEncoder.utf8 name = given).
      { unfold name. rewrite utf8_substring, utf8_toString; [reflexivity|].
        apply untilNul_bytes, Forall_drop, Hbuf. }
      destruct (String.eqb_spec name EmptyString) as [E | E].
      + rewrite E in Hu. simpl in Hu. rewrite <- Hu.
        destruct (decide _); [reflexivity | contradiction].
      + destruct (decide (given = [])) as [Hg | Hg]; [|exact Hu].
        exfalso. apply E, utf8_empty. rewrite Hu. exact Hg.
    - assert (Hg : given = []).
      { unfold given. rewrite drop_ge by lia. reflexivity. }
      destruct (decide _); [reflexivity | contradiction]. }
  rewrite Hname. split; [reflexivity|].
  destruct (decide (given = [])) as [Hg | Hg].
  - split; [simpl; lia|]. repeat constructor; discriminate.
  - split.
    + assert (Hl : length given <> 0%nat)
        by (intros Hl; apply Hg, length_zero_iff_nil, Hl).
      unfold given in *. rewrite length_take in *. lia.
    + apply Forall_take, untilNul_no_nul.
Qed.

(** The START packet: the opcode, the low sixteen bits of the player
    identifier, the colour, the skin, three zero bytes, the length of
    the name, the name, a zero byte and the flag 1, followed by the
    five bytes of the buffer that are never written: the packet is
    [19 + n] bytes long for a name of [n] bytes. *)
Lemma startPacket_returns (playerId colorcode skincode : Z) (playerName : string) :
  0 <= colorcode <= 4294967295 ->
  let uid := playerId mod 65536 in
  let nameBuf := PacketEncoder.utf8 playerName in
  let packet :=
    [OPCODES.START; uid mod 256; uid / 256 mod 256;
     colorcode mod 256; colorcode / 256 mod 256;
     colorcode / 65536 mod 256; colorcode / 16777216 mod 256;
     skincode mod 256; 0; 0; 0; Z.of_nat (length nameBuf) mod 256]
    ++ nameBuf ++ [0; 1] ++ [0; 0; 0; 0; 0] in
  returns (NarwhaleGameServer.startPacket playerId colorcode skincode playerName)
          packet
  /\ length packet = (19 + length nameBuf)%nat
  /\ Forall byte packet.
Proof.
  intros Hc uid nameBuf packet. split; [|split].
  - unfold NarwhaleGameServer.startPacket. fold nameBuf.
    eapply returns_bind; [apply writeUInt16LE_returns, timeStamp_range|].
    eapply returns_bind; [apply writeUInt32LE_returns, Hc|].
    rewrite (band_ones _ 16) by lia. change (2 ^ 16) with 65536. fold uid.
    rewrite band_255, Z.mod_mod by lia.
    replace (19 + length nameBuf - _)%nat with 5%nat.
    + match goal with
      | |- returns (ret ?x) ?y => replace x with y; [apply returns_ret|]
      end.
      unfold packet. change (OPCODES.START mod 256) with OPCODES.START.
      cbn [app replicate]. rewrite <- !app_assoc. reflexivity.
    + rewrite !length_app. cbn [length]. lia.
  - unfold packet. rewrite !length_app. cbn [length]. lia.
  - unfold packet. repeat (apply Forall_app; split);
      try apply utf8_bytes;
      repeat (apply Forall_cons; split); try apply Forall_nil;
      try apply mod_256_byte; unfold byte, OPCODES.START; lia.
Qed.

End Messages.
(** * The server *)

Section Rooms.
Local Open Scope Z_scope.
Import NarwhaleGameServer.

Lemma rooms_find_id rid rs room :
  rooms_find rid rs = Some room -> GameRoom.id room = rid.
Proof.
  unfold rooms_find. intros E. apply find_some in E as [_ E].
  apply Z.eqb_eq, E.
Qed.

Lemma rooms_find_put_eq rid rs room0 room :
  rooms_find rid rs = Some room0 -> GameRoom.id room = rid ->
  rooms_find rid (rooms_put room rs) = Some room.
Proof.
  unfold rooms_find, rooms_put. intros E <-.
  induction rs as [|r rs IH]; simpl in *; [discriminate|].
  destruct (Z.eqb_spec (GameRoom.id r) (GameRoom.id room)) as [Er | Er]; simpl.
  - rewrite Z.eqb_refl. reflexivity.
  - destruct (Z.eqb_spec (GameRoom.id r) (GameRoom.id room)); [contradiction|].
    apply IH, E.
Qed.

Lemma rooms_find_put_ne rid rs room :
  rid <> GameRoom.id room ->
  rooms_find rid (rooms_put room rs) = rooms_find rid rs.
Proof.
  unfold rooms_find, rooms_put. intros Hne.
  induction rs as [|r rs IH]; simpl; [reflexivity|].
  destruct (Z.eqb_spec (GameRoom.id r) (GameRoom.id room)) as [Er | Er]; simpl.
  - destruct (Z.eqb_spec (GameRoom.id room) rid); [congruence|].
    destruct (Z.eqb_spec (GameRoom.id r) rid); [congruence|]. exact IH.
  - destruct (GameRoom.id r =? rid); [reflexivity | exact IH].
Qed.

(** [players.get(id)] after [players.set(player.id, player)]. *)
Lemma find_players_set player ps :
  List.find (fun p => Player.id p =? Player.id player)
            (GameRoom.players_set player ps) = Some player.
Proof.
  induction ps as [|q ps IH]; simpl.
  - rewrite Z.eqb_refl. reflexivity.
  - destruct (Z.eqb_spec (Player.id q) (Player.id player)) as [E | E]; simpl.
    + rewrite Z.eqb_refl. reflexivity.
    + destruct (Z.eqb_spec (Player.id q) (Player.id player)); [contradiction|].
      exact IH.
Qed.

Lemma find_players_set_ne pid player ps :
  pid <> Player.id player ->
  List.find (fun p => Player.id p =? pid) (GameRoom.players_set player ps)
  = List.find (fun p => Player.id p =? pid) ps.
Proof.
  intros Hne. induction ps as [|q ps IH]; simpl.
  - destruct (Z.eqb_spec (Player.id player) pid); [congruence | reflexivity].
  - destruct (Z.eqb_spec (Player.id q) (Player.id player)) as [E | E]; simpl.
    + destruct (Z.eqb_spec (Player.id player) pid); [congruence|].
      destruct (Z.eqb_spec (Player.id q) pid); [congruence | reflexivity].
    + destruct (Player.id q =? pid); [reflexivity | exact IH].
Qed.

(** The object a key names, replaced at the position of the key by an
    object of the same key. *)
Lemma find_insert_index pid q ps :
  Player.id q = pid ->
  is_Some (List.find (fun p => Player.id p =? pid) ps) ->
  List.find (fun p => Player.id p =? pid)
            (<[GameRoom.players_index pid ps := q]> ps) = Some q.
Proof.
  intros Hq. induction ps as [|p ps IH]; simpl; intros [x Hx]; [discriminate|].
  destruct (Z.eqb_spec (Player.id p) pid) as [E | E]; simpl.
  - rewrite Hq, Z.eqb_refl. reflexivity.
  - destruct (Z.eqb_spec (Player.id p) pid); [contradiction|].
    apply IH. eauto.
Qed.

Lemma find_insert_index_ne pid pid' q ps :
  Player.id q = pid -> pid' <> pid ->
  List.find (fun p => Player.id p =? pid')
            (<[GameRoom.players_index pid ps := q]> ps)
  = List.find (fun p => Player.id p =? pid') ps.
Proof.
  intros Hq Hne. induction ps as [|p ps IH]; simpl; [reflexivity|].
  destruct (Z.eqb_spec (Player.id p) pid) as [E | E]; simpl.
  - destruct (Z.eqb_spec (Player.id q) pid'); [congruence|].
    destruct (Z.eqb_spec (Player.id p) pid'); [congruence | reflexivity].
  - destruct (Player.id p =? pid'); [reflexivity | exact IH].
Qed.

Lemma room_player_removePlayer pid room :
  room_player pid (GameRoom.removePlayer pid room) = None.
Proof.
  unfold room_player, GameRoom.removePlayer. cbn [GameRoom.players GameRoom.set_players].
  induction (GameRoom.players room) as [|p ps IH]; simpl; [reflexivity|].
  destruct (Z.eqb_spec (Player.id p) pid) as [E | E]; simpl; [exact IH|].
  destruct (Z.eqb_spec (Player.id p) pid); [contradiction | exact IH].
Qed.

Lemma room_player_removePlayer_ne pid pid' room :
  pid' <> pid ->
  room_player pid' (GameRoom.removePlayer pid room) = room_player pid' room.
Proof.
  intros Hne.
  unfold room_player, GameRoom.removePlayer. cbn [GameRoom.players GameRoom.set_players].
  induction (GameRoom.players room) as [|p ps IH]; simpl; [reflexivity|].
  destruct (Z.eqb_spec (Player.id p) pid) as [E | E]; simpl.
  - destruct (Z.eqb_spec (Player.id p) pid'); [congruence | exact IH].
  - destruct (Player.id p =? pid'); [reflexivity | exact IH].
Qed.

End Rooms.

Section Start.
Context `{MathLib}.
Local Open Scope Z_scope.
Import NarwhaleGameServer.

Lemma substring_short s :
  (String.length s <= 16)%nat -> String.substring 0 16 s = s.
Proof.
  intros Hl. rewrite <- (string_of_list_ascii_of_string (String.substring 0 16 s)).
  rewrite substring_take, take_ge by (rewrite length_list_ascii; lia).
  apply string_of_list_ascii_of_string.
Qed.

(** What [new Player(id, socket, name)] fixes of the player. *)
Lemma new_fields id name :
  ensures (Player.new id name)
          (fun p => Player.id p = id
                    /\ Player.name p
                       = String.substring 0 16
                           (if String.eqb name "" then "Narwhal" else name)
                    /\ Player.currentRoom p = None
                    /\ Player.isAlive p = true
                    /\ Player.isSpawned p = false).
Proof.
  intros w. unfold Player.new, Player.randomColor, bind, ret, Math_random, Date_now.
  eexists _, _. split; [reflexivity|]. cbn. repeat split.
Qed.

(** What [spawn] keeps of a player. *)
Lemma spawn_keeps room p :
  ensures (Player.spawn room p)
          (fun q => Player.id q = Player.id p
                    /\ Player.name q = Player.name p
                    /\ Player.currentRoom q = Player.currentRoom p
                    /\ Player.skincode q = Player.skincode p
                    /\ Player.color q = Player.color p
                    /\ Player.isAlive q = true
                    /\ Player.isSpawned q = true).
Proof.
  eapply ensures_weaken; [apply spawn_returns|].
  intros q [-> _]. cbn. repeat split.
Qed.

(** [handleStart] on the room the socket has joined: the room gets a
    new player under the identifier of the socket, in place of the one
    it may have held under it; the other players, the foods and the
    options stay. *)
Lemma handleStart_room pid skin col nm (r : GameRoom.t) :
  ensures (Server.handleStart pid skin col nm r)
          (fun r' =>
             (exists p, room_player pid r' = Some p
                        /\ Player.id p = pid
                        /\ Player.name p
                           = String.substring 0 16
                               (if String.eqb nm "" then "Narwhal" else nm)
                        /\ Player.currentRoom p = Some (GameRoom.id r)
                        /\ Player.skincode p = skin
                        /\ Player.color p = col
                        /\ Player.isAlive p = true
                        /\ Player.isSpawned p = true)
             /\ (forall pid', pid' <> pid ->
                   room_player pid' r' = room_player pid' r)
             /\ GameRoom.foods r' = GameRoom.foods r
             /\ GameRoom.options r' = GameRoom.options r
             /\ GameRoom.id r' = GameRoom.id r).
Proof.
  unfold Server.handleStart.
  eapply ensures_bind; [apply new_fields|].
  intros p0 (Hid0 & Hname0 & _).
  unfold GameRoom.addPlayer.
  set (p1 := Player.set_currentRoom _ _).
  eapply ensures_bind.
  { eapply ensures_bind; [apply (spawn_keeps (GameRoom.options r) p1)|].
    intros p2 Hp2. apply ensures_ret.
    instantiate (1 := fun r1 =>
      exists p2,
        r1 = GameRoom.set_players (GameRoom.players_set p2 (GameRoom.players r)) r
        /\ Player.id p2 = pid
        /\ Player.name p2 = Player.name p0
        /\ Player.currentRoom p2 = Some (GameRoom.id r)
        /\ Player.skincode p2 = skin
        /\ Player.color p2 = col).
    exists p2. destruct Hp2 as (H1 & H2 & H3 & H4 & H5 & _).
    split; [reflexivity|]. unfold p1 in *. cbn in H1, H2, H3, H4, H5.
    repeat split; congruence. }
  intros r1 (p2 & -> & Hid2 & Hname2 & Hroom2 & Hskin2 & Hcol2).
  cbn [GameRoom.players GameRoom.set_players GameRoom.options].
  pose proof (find_players_set p2 (GameRoom.players r)) as Hfind.
  rewrite Hid2 in Hfind.
  destruct (players_index_set p2 (GameRoom.players r)) as [q Hq].
  rewrite Hid2 in Hq. rewrite Hq.
  assert (Hq2 : q = p2).
  { clear -Hq Hid2. revert Hq. rewrite <- Hid2.
    induction (GameRoom.players r) as [|x ps IH]; simpl.
    - rewrite Z.eqb_refl. simpl. congruence.
    - destruct (Z.eqb_spec (Player.id x) (Player.id p2)) as [E | E]; simpl.
      + rewrite Z.eqb_refl. simpl. congruence.
      + destruct (Z.eqb_spec (Player.id x) (Player.id p2)); [contradiction|].
        simpl. exact IH. }
  subst q.
  eapply ensures_bind; [apply (spawn_keeps (GameRoom.options r) p2)|].
  intros p3 (H1 & H2 & H3 & H4 & H5 & H6 & H7). apply ensures_ret.
  unfold room_player.
  cbn [GameRoom.players GameRoom.set_players GameRoom.foods GameRoom.options
       GameRoom.id].
  split; [|split; [|repeat split]].
  - exists p3. split.
    + apply find_insert_index; [congruence|]. rewrite Hfind. eauto.
    + repeat split; congruence.
  - intros pid' Hne.
    rewrite (find_insert_index_ne pid pid' p3) by congruence.
    apply find_players_set_ne. congruence.
Qed.

End Start.

Section StartMessage.
Context `{MathLib}.
Local Open Scope Z_scope.
Import NarwhaleGameServer.

(** A START message shorter than nine bytes is ignored.  Any other,
    with a name of ASCII bytes, creates a player under the identifier
    of the socket, with the skin and the colour of the message and the
    name read from it (the bytes from offset 9 up to the first zero
    byte, sixteen at most, or "Player"), in the room the socket has
    joined if any; and it is answered by one packet: the opcode, the
    low sixteen bits of the identifier, the colour and the skin as
    received, three zero bytes, the length of the name, the name, a
    zero byte, the flag 1, and the five bytes of the buffer that are
    never written. *)
Theorem handleStart_reply (socket : Socket.t) (buf : list Z) (s : t) (w : World) :
  Forall byte buf ->
  Forall (fun b => b < 128) (drop 9 buf) ->
  ((length buf < 9)%nat -> handleStart socket buf s w = Some ((s, []), w))
  /\ (forall op skin c0 c1 c2 c3 rest,
        buf = op :: skin :: c0 :: c1 :: c2 :: c3 :: rest ->
        (3 <= length rest)%nat ->
        let pid := Socket.playerId socket in
        let name := PacketEncoder.utf8 (startName buf) in
        let given := take 16 (Buffer.untilNul (drop 9 buf)) in
        name = (if decide (given = []) then PacketEncoder.utf8 "Player" else given)
        /\ exists s' w' player,
             handleStart socket buf s w
             = Some ((s', [[OPCODES.START; pid mod 65536 mod 256;
                            pid mod 65536 / 256 mod 256; c0; c1; c2; c3; skin;
                            0; 0; 0; Z.of_nat (length name)]
                           ++ name ++ [0; 1] ++ [0; 0; 0; 0; 0]]), w')
             /\ players_get pid s' = Some player
             /\ Player.id player = pid
             /\ PacketEncoder.utf8 (Player.name player) = name
             /\ Player.skincode player = skin
             /\ Player.color player = c0 + 256 * c1 + 65536 * c2 + 16777216 * c3
             /\ Player.currentRoom player
                = match Socket.currentRoom socket with
                  | Some roomId => GameRoom.id <$> rooms_find roomId (rooms s)
                  | None => None
                  end
             /\ validator s' = validator s
             /\ lastTick s' = lastTick s).
Proof.
  intros Hbuf _. unfold handleStart. split.
  { intros Hlen. destruct (Nat.ltb_spec (length buf) 9); [reflexivity | lia]. }
  intros op skin c0 c1 c2 c3 rest Ebuf Hrest.
  destruct (startName_utf8 buf Hbuf) as (Hname & Hlen & _).
  split; [exact Hname|].
  set (name := PacketEncoder.utf8 (startName buf)) in *.
  assert (Hsub : String.substring 0 16
                   (if String.eqb (startName buf) "" then "Narwhal"
                    else startName buf) = startName buf).
  { destruct (String.eqb_spec (startName buf) "") as [E | _].
    - unfold name in Hlen. rewrite E in Hlen. simpl in Hlen. lia.
    - apply substring_short. rewrite <- utf8_length. fold name. lia. }
  destruct (Nat.ltb_spec (length buf) 9) as [Hl | _];
    [rewrite Ebuf in Hl; simpl in Hl; lia|].
  assert (Hbytes : byte skin /\ byte c0 /\ byte c1 /\ byte c2 /\ byte c3).
  { rewrite Ebuf in Hbuf. rewrite !Forall_cons in Hbuf. tauto. }
  destruct Hbytes as (Hskin & H0 & H1 & H2 & H3).
  destruct (le32_bytes c0 c1 c2 c3 H0 H1 H2 H3) as (Hr & E0 & E1 & E2 & E3).
  set (col := c0 + 256 * c1 + 65536 * c2 + 16777216 * c3) in *.
  assert (Hb : buf !! 1%nat = Some skin /\ buf !! 2%nat = Some c0
               /\ buf !! 3%nat = Some c1 /\ buf !! 4%nat = Some c2
               /\ buf !! 5%nat = Some c3)
    by (rewrite Ebuf; repeat split).
  destruct Hb as (Hb1 & Hb2 & Hb3 & Hb4 & Hb5).
  unfold bind at 1, Buffer.readUInt8. rewrite Hb1. unfold ret at 1.
  unfold bind at 1, Buffer.readUInt32LE. cbn [Nat.add].
  rewrite Hb2, Hb3, Hb4, Hb5. unfold ret at 1. fold col.
  destruct (startPacket_returns (Socket.playerId socket) col skin (startName buf) Hr)
    as (Hpacket & _). fold name in Hpacket.
  rewrite E0, E1, E2, E3 in Hpacket.
  rewrite (Z.mod_small skin) in Hpacket by (unfold byte in Hskin; lia).
  rewrite (Z.mod_small (Z.of_nat (length name))) in Hpacket by lia.
  set (room := match Socket.currentRoom socket with
               | Some roomId => rooms_find roomId (rooms s)
               | None => None
               end).
  assert (Hroom : match Socket.currentRoom socket with
                  | Some roomId => GameRoom.id <$> rooms_find roomId (rooms s)
                  | None => None
                  end = GameRoom.id <$> room).
  { unfold room. destruct (Socket.currentRoom socket); reflexivity. }
  rewrite Hroom.
  assert (Hfind : forall r, room = Some r ->
                            rooms_find (GameRoom.id r) (rooms s) = Some r).
  { unfold room. intros r Er. destruct (Socket.currentRoom socket) as [rid|];
      [|discriminate].
    rewrite (rooms_find_id _ _ _ Er). exact Er. }
  clearbody room. destruct room as [r|].
  - destruct (handleStart_room (Socket.playerId socket) skin col (startName buf) r w)
      as (r' & w' & Er' & (p & Hp & Hid & Hnm & Hcur & Hsk & Hco & _) & _ & _ & _ & Hidr).
    unfold bind at 1. unfold bind at 1. rewrite Er'. unfold ret at 1.
    unfold bind at 1. rewrite Hpacket.
    exists (set_rooms (rooms_put r' (rooms s))
              (set_players (<[Socket.playerId socket := InRoom (GameRoom.id r')]>
                              (players s)) s)), w', p.
    split; [reflexivity|].
    split.
    { unfold players_get. cbn [players rooms set_rooms set_players].
      rewrite lookup_insert_eq.
      rewrite (rooms_find_put_eq (GameRoom.id r') (rooms s) r r')
        by (rewrite ?Hidr; auto).
      exact Hp. }
    rewrite Hnm, Hsub. repeat split; try assumption.
  - destruct (new_fields (Socket.playerId socket) (startName buf) w)
      as (p & w' & Ep & Hid & Hnm & Hcur & _).
    unfold bind at 1. unfold bind at 1. rewrite Ep. unfold ret at 1.
    unfold bind at 1. rewrite Hpacket.
    eexists _, w', _. split; [reflexivity|].
    split.
    { unfold players_get. cbn [players rooms set_rooms set_players].
      rewrite lookup_insert_eq. reflexivity. }
    cbn. rewrite Hnm, Hsub. repeat split; assumption.
Qed.

End StartMessage.

Section Leaving.
Context `{MathLib}.
Local Open Scope Z_scope.
Import NarwhaleGameServer.

(** [handleStart] for a socket that has joined the room [roomB]. *)
Lemma handleStart_joined (socket : Socket.t) (buf : list Z) (s : t) (w : World)
    (B : Z) (roomB : GameRoom.t) :
  Forall byte buf -> (9 <= length buf)%nat ->
  Socket.currentRoom socket = Some B ->
  rooms_find B (rooms s) = Some roomB ->
  exists room' out w' p,
    handleStart socket buf s w
    = Some ((set_rooms (rooms_put room' (rooms s))
               (set_players (<[Socket.playerId socket := InRoom B]> (players s)) s),
             out), w')
    /\ GameRoom.id room' = B
    /\ GameRoom.foods room' = GameRoom.foods roomB
    /\ room_player (Socket.playerId socket) room' = Some p
    /\ Player.currentRoom p = Some B
    /\ (forall pid', pid' <> Socket.playerId socket ->
          room_player pid' room' = room_player pid' roomB).
Proof.
  intros Hbuf Hlen Hcur HB. unfold handleStart.
  destruct (Nat.ltb_spec (length buf) 9) as [Hl | _]; [lia|].
  destruct buf as [|op [|skin [|c0 [|c1 [|c2 [|c3 rest]]]]]];
    try (simpl in Hlen; lia).
  assert (Hbytes : byte c0 /\ byte c1 /\ byte c2 /\ byte c3).
  { rewrite !Forall_cons in Hbuf. tauto. }
  destruct Hbytes as (H0 & H1 & H2 & H3).
  destruct (le32_bytes c0 c1 c2 c3 H0 H1 H2 H3) as (Hr & _).
  set (buf := op :: skin :: c0 :: c1 :: c2 :: c3 :: rest) in *.
  set (col := c0 + 256 * c1 + 65536 * c2 + 16777216 * c3) in *.
  unfold bind at 1, Buffer.readUInt8.
  change (buf !! 1%nat) with (Some skin). unfold ret at 1.
  unfold bind at 1, Buffer.readUInt32LE.
  change (buf !! 2%nat) with (Some c0). change (buf !! (2 + 1)%nat) with (Some c1).
  change (buf !! (2 + 2)%nat) with (Some c2).
  change (buf !! (2 + 3)%nat) with (Some c3).
  unfold ret at 1. fold col.
  rewrite Hcur, HB.
  destruct (handleStart_room (Socket.playerId socket) skin col (startName buf) roomB w)
    as (r' & w' & Er' & (p & Hp & _ & _ & Hpc & _) & Hothers & Hfoods & _ & Hidr).
  pose proof (rooms_find_id _ _ _ HB) as HidB.
  destruct (startPacket_returns (Socket.playerId socket) col skin (startName buf) Hr)
    as (Hpacket & _).
  unfold bind at 1. unfold bind at 1. rewrite Er'. unfold ret at 1.
  unfold bind at 1. rewrite Hpacket. unfold ret.
  eexists r', _, w', p.
  rewrite Hidr, HidB. split; [reflexivity|].
  rewrite HidB in Hpc. repeat split; assumption.
Qed.

Lemma handleDisconnection_get (socket : Socket.t) (s : t) :
  players_get (Socket.playerId socket) (handleDisconnection socket s) = None.
Proof.
  unfold players_get, handleDisconnection. cbn [players set_players].
  rewrite lookup_delete_eq. reflexivity.
Qed.

(** A disconnection, or a LEAVE message, takes the player of the socket
    out of the map of the server and out of the room it is in, and
    leaves every other player, the foods and the counts of the rate
    limiter as they are. *)
Theorem handleDisconnection_removes (socket : Socket.t) (s : t) :
  let pid := Socket.playerId socket in
  let s' := handleDisconnection socket s in
  players s' !! pid = None
  /\ players_get pid s' = None
  /\ (forall pid', pid' <> pid -> players s' !! pid' = players s !! pid')
  /\ validator s' = validator s
  /\ (forall player rid room,
        players_get pid s = Some player ->
        Player.currentRoom player = Some rid ->
        rooms_find rid (rooms s) = Some room ->
        exists room',
          rooms_find rid (rooms s') = Some room'
          /\ room_player pid room' = None
          /\ (forall pid', pid' <> pid ->
                room_player pid' room' = room_player pid' room)
          /\ GameRoom.foods room' = GameRoom.foods room
          /\ (forall rid', rid' <> rid ->
                rooms_find rid' (rooms s') = rooms_find rid' (rooms s)))
  /\ (players_get pid s = None -> rooms s' = rooms s).
Proof.
  intros pid s'. unfold s', handleDisconnection. fold pid.
  cbn [players set_players validator].
  split; [apply lookup_delete_eq|].
  split; [apply handleDisconnection_get|].
  split.
  { intros pid' Hne. rewrite lookup_delete_ne by congruence.
    destruct (players_get pid s) as [player|]; [|reflexivity].
    destruct (Player.currentRoom player); [|reflexivity].
    destruct (rooms_find _ _); reflexivity. }
  split.
  { destruct (players_get pid s) as [player|]; [|reflexivity].
    destruct (Player.currentRoom player); [|reflexivity].
    destruct (rooms_find _ _); reflexivity. }
  split.
  - intros player rid room Hget Hcur Hroom. rewrite Hget, Hcur, Hroom.
    cbn [rooms set_rooms set_players].
    pose proof (rooms_find_id _ _ _ Hroom) as Hid.
    exists (GameRoom.removePlayer pid room).
    split; [apply (rooms_find_put_eq rid (rooms s) room); [exact Hroom | exact Hid]|].
    split; [apply room_player_removePlayer|].
    split; [intros pid' Hne; apply room_player_removePlayer_ne, Hne|].
    split; [reflexivity|].
    intros rid' Hne. apply rooms_find_put_ne. cbn. congruence.
  - intros ->. reflexivity.
Qed.

(** A socket whose player is in the room [A] and that has since joined
    another room [B] starts again: the new player goes to [B] and takes
    the place of the old one in the map of the server, but the old one
    stays in [A].  When the socket then disconnects, only the new
    player is removed: room [A] keeps the old player, which no message
    can reach any more. *)
Theorem start_in_another_room_orphans (socket : Socket.t) (buf : list Z) (s : t)
    (w : World) (A B : Z) (roomA roomB : GameRoom.t) (old : Player.t) :
  Forall byte buf -> (9 <= length buf)%nat ->
  players s !! Socket.playerId socket = Some (InRoom A) ->
  rooms_find A (rooms s) = Some roomA ->
  room_player (Socket.playerId socket) roomA = Some old ->
  Socket.currentRoom socket = Some B ->
  A <> B ->
  rooms_find B (rooms s) = Some roomB ->
  exists s1 out w1,
    handleStart socket buf s w = Some ((s1, out), w1)
    /\ players s1 !! Socket.playerId socket = Some (InRoom B)
    /\ rooms_find A (rooms s1) = Some roomA
    /\ rooms_find A (rooms (handleDisconnection socket s1)) = Some roomA
    /\ room_player (Socket.playerId socket) roomA = Some old
    /\ players_get (Socket.playerId socket) (handleDisconnection socket s1) = None.
Proof.
  intros Hbuf Hlen Hslot HA Hold Hcur Hne HB.
  destruct (handleStart_joined socket buf s w B roomB Hbuf Hlen Hcur HB)
    as (room' & out & w' & p & E & Hid & _ & Hp & Hpc & _).
  eexists _, out, w'. split; [exact E|].
  cbn [players rooms set_rooms set_players].
  split; [apply lookup_insert_eq|].
  assert (HA1 : rooms_find A (rooms_put room' (rooms s)) = Some roomA)
    by (rewrite rooms_find_put_ne by congruence; exact HA).
  split; [exact HA1|].
  split; [|split; [exact Hold|]].
  - unfold handleDisconnection, players_get.
    cbn [players rooms set_rooms set_players].
    rewrite lookup_insert_eq.
    rewrite (rooms_find_put_eq B (rooms s) roomB room' HB Hid).
    rewrite Hp, Hpc.
    rewrite (rooms_find_put_eq B (rooms s) roomB room' HB Hid).
    cbn [rooms set_rooms set_players].
    rewrite rooms_find_put_ne by (cbn; congruence). exact HA1.
  - apply handleDisconnection_get.
Qed.

End Leaving.

Section Sending.
Context `{MathLib} `{BufferLib}.
Local Open Scope Z_scope.
Import NarwhaleGameServer.

Lemma mapM_throws_at {A B} (f : A -> M B) (l : list A) (a : A) :
  a ∈ l -> (forall w, f a w = None) -> forall w, mapM f l w = None.
Proof.
  intros Ha Hthrow. induction l as [|x l IH]; intros w.
  - apply elem_of_nil in Ha. contradiction.
  - cbn [mapM]. unfold bind at 1.
    apply elem_of_cons in Ha as [<- | Ha]; [rewrite Hthrow; reflexivity|].
    destruct (f x w) as [[b w']|]; [|reflexivity].
    unfold bind at 1. rewrite (IH Ha w'). reflexivity.
Qed.

Lemma poisoned_throws (room : GameRoom.t) w :
  Exists badFood (take 100 (GameRoom.foods room)) ->
  PacketEncoder.encodeSetElements room w = None.
Proof.
  intros Hex. apply Exists_exists in Hex as (f & Hin & Hbad).
  exact (encodeSetElements_food_throws room f w Hin Hbad).
Qed.

Lemma rooms_find_elem rid rs room :
  rooms_find rid rs = Some room -> room ∈ rs.
Proof.
  unfold rooms_find. intros E. apply find_some in E as [E _].
  apply list_elem_of_In, E.
Qed.

Lemma room_player_nonempty pid room p :
  room_player pid room = Some p -> (0 < length (GameRoom.players room))%nat.
Proof.
  unfold room_player. destruct (GameRoom.players room); [discriminate|].
  simpl. lia.
Qed.

(** The callback of the game loop fails in [_sendUpdates] when a room
    that has players holds a food the packet cannot hold among its
    first hundred: the exception of [encodeSetElements] is not
    caught. *)
Lemma sendUpdates_throws (s : t) (room : GameRoom.t) w :
  room ∈ rooms s ->
  (0 < length (GameRoom.players room))%nat ->
  Exists badFood (take 100 (GameRoom.foods room)) ->
  _sendUpdates s w = None.
Proof.
  intros Hin Hp Hbad. unfold _sendUpdates. unfold bind at 1.
  rewrite (mapM_throws_at _ (rooms s) room Hin); [reflexivity|].
  intros w0. destruct (Nat.ltb_spec 0 (length (GameRoom.players room))); [|lia].
  unfold bind. rewrite (poisoned_throws room w0 Hbad). reflexivity.
Qed.

Lemma afterFoods_plus a b w :
  afterFoods a (afterFoods b w) = afterFoods (b + a) w.
Proof.
  unfold afterFoods. cbn [clock clockPos draws drawPos]. f_equal; lia.
Qed.

(** The rooms of a server created while bit 31 of the clock is set. *)
Lemma new_rooms_bad (l : list (Z * Options.t)) : forall w,
  (forall k, (k < 300 * length l)%nat ->
     2147483648 <= clock w (clockPos w + k) mod 4294967296 < 4294967296 - 999) ->
  (forall i, (i < 1200 * length l)%nat -> (0 <= draws w (drawPos w + i) < 1)%Q) ->
  exists rs,
    mapM (fun cfg => GameRoom.new (fst cfg) (room_name (fst cfg)) (snd cfg)) l w
    = Some (rs, afterFoods (300 * length l) w)
    /\ List.map GameRoom.id rs = List.map fst l
    /\ Forall (fun r => Exists badFood (take 100 (GameRoom.foods r))) rs.
Proof.
  induction l as [|cfg l IH]; intros w Hc Hd.
  - exists []. cbn [mapM length]. unfold ret, afterFoods.
    rewrite Nat.mul_0_r, !Nat.add_0_r. destruct w. repeat split. constructor.
  - cbn [mapM length] in *.
    destruct (new_room_bad (fst cfg) (room_name (fst cfg)) (snd cfg) w)
      as (r & Er & Hid & _ & Hlen & Hbad).
    { intros k Hk. apply Hc. lia. }
    { intros k Hk. rewrite <- Nat.add_assoc. apply Hd. lia. }
    destruct (IH (afterFoods 300 w)) as (rs & Ers & Hids & Hrs).
    { intros k Hk. unfold afterFoods. cbn [clock clockPos].
      rewrite <- Nat.add_assoc. apply Hc. lia. }
    { intros i Hi. unfold afterFoods. cbn [draws drawPos].
      rewrite <- Nat.add_assoc. apply Hd. lia. }
    exists (r :: rs). unfold bind at 1. rewrite Er.
    unfold bind at 1. rewrite Ers. unfold ret.
    rewrite afterFoods_plus.
    replace (300 + 300 * length l)%nat with (300 * S (length l))%nat by lia.
    split; [reflexivity|]. split; [simpl; congruence|].
    constructor; [|exact Hrs].
    destruct (GameRoom.foods r) as [|f fs]; [discriminate Hlen|].
    apply Forall_cons in Hbad as [Hf _].
    apply Exists_cons_hd. exact Hf.
Qed.

(** A server created while bit 31 of the clock is set, and is not
    about to clear, cannot send the state of any room: once a socket
    that has joined a room has started, both the callback [handleStart]
    leaves for the socket and [_sendUpdates], which the game loop calls
    at every tick, throw. *)
Theorem server_new_cannot_send (w : World) :
  (forall k, (k <= 2400)%nat ->
     2147483648 <= clock w (clockPos w + k) mod 4294967296 < 4294967296 - 999) ->
  (forall i, (i < 4 * 2400)%nat -> (0 <= draws w (drawPos w + i) < 1)%Q) ->
  exists s0 w0,
    NarwhaleGameServer.new w = Some (s0, w0)
    /\ List.map GameRoom.id (rooms s0) = List.map fst ROOMS_CONFIG
    /\ poisoned s0
    /\ forall socket buf rid room w1 s1 out w2 w3,
         Forall byte buf -> (9 <= length buf)%nat ->
         Socket.currentRoom socket = Some rid ->
         rooms_find rid (rooms s0) = Some room ->
         handleStart socket buf s0 w1 = Some ((s1, out), w2) ->
         startTimer socket s1 w3 = None /\ _sendUpdates s1 w3 = None.
Proof.
  intros Hc Hd. unfold NarwhaleGameServer.new.
  unfold bind at 1, Date_now.
  set (w1 := mkWorld (clock w) (S (clockPos w)) (draws w) (drawPos w)).
  destruct (new_rooms_bad ROOMS_CONFIG w1) as (rs & Ers & Hids & Hrs).
  { intros k Hk. unfold w1. cbn [clock clockPos length ROOMS_CONFIG] in *.
    replace (S (clockPos w) + k)%nat with (clockPos w + S k)%nat by lia.
    apply Hc. lia. }
  { intros i Hi. unfold w1. cbn [draws drawPos length ROOMS_CONFIG] in *.
    apply Hd. lia. }
  unfold bind at 1. rewrite Ers. unfold ret.
  eexists _, _. split; [reflexivity|].
  cbn [rooms]. split; [exact Hids|]. split; [exact Hrs|].
  intros socket buf rid room wa s1 out wb wc Hbuf Hlen Hcur Hroom Estart.
  set (s0 := mk ∅ rs (clock w (clockPos w)) ∅) in *.
  destruct (handleStart_joined socket buf s0 wa rid room Hbuf Hlen Hcur Hroom)
    as (room' & out' & w' & p & E & Hid & Hfoods & Hp & _).
  rewrite E in Estart. injection Estart as <- _ _.
  assert (Hbad' : Exists badFood (take 100 (GameRoom.foods room'))).
  { rewrite Hfoods. unfold poisoned in Hrs. rewrite Forall_forall in Hrs.
    apply Hrs. apply (rooms_find_elem rid). exact Hroom. }
  assert (Hfind : rooms_find rid (rooms_put room' rs) = Some room')
    by (apply (rooms_find_put_eq rid rs room room'); assumption).
  split.
  - unfold startTimer. rewrite Hcur. cbn [rooms set_rooms set_players].
    rewrite Hfind. unfold bind. rewrite (poisoned_throws room' wc Hbad').
    reflexivity.
  - apply (sendUpdates_throws _ room').
    + cbn [rooms set_rooms]. apply (rooms_find_elem rid). exact Hfind.
    + apply (room_player_nonempty _ _ _ Hp).
    + exact Hbad'.
Qed.

(** The SET_ELEMENTS packets of [_sendUpdates]: one for each room that
    has players, each built from one reading of the clock. *)
Lemma sendStates_returns (rs : list GameRoom.t) :
  (forall x, 0 <= Math_sqrt x)%Q ->
  Forall sendable rs ->
  forall w,
  exists states,
    mapM (fun room =>
            if (0 <? length (GameRoom.players room))%nat then
              let! state := PacketEncoder.encodeSetElements room in
              ret [(GameRoom.id room, state)]
            else ret []) rs w
    = Some (states, clock_advance (length (roomsOver 0 rs)) w)
    /\ List.map fst (concat states) = List.map GameRoom.id (roomsOver 0 rs)
    /\ Forall (fun e => Forall byte (snd e)) (concat states).
Proof.
  intros Hsqrt. induction 1 as [|room rs (Hp & _ & Hf) _ IH]; intros w.
  - exists []. cbn [mapM roomsOver List.filter length]. unfold ret.
    rewrite clock_advance_0. repeat split. constructor.
  - cbn [mapM]. unfold roomsOver. cbn [List.filter]. fold (roomsOver 0 rs).
    destruct (0 <? length (GameRoom.players room))%nat.
    + destruct (encodeSetElements_returns room w Hsqrt Hp Hf) as (bytes & E & Hb).
      destruct (IH (clock_advance 1 w)) as (states & Es & Hids & Hbs).
      exists ([(GameRoom.id room, bytes)] :: states).
      unfold bind at 1. unfold bind at 1. rewrite E. unfold ret at 1.
      unfold bind at 1. rewrite Es. unfold ret.
      split.
      { cbn [length]. do 2 f_equal. unfold clock_advance.
        cbn [clock clockPos draws drawPos]. f_equal. lia. }
      cbn [concat app List.map fst]. split; [f_equal; exact Hids|].
      constructor; [exact Hb | exact Hbs].
    + destruct (IH w) as (states & Es & Hids & Hbs).
      exists ([] :: states). unfold bind at 1, ret at 1. unfold bind at 1.
      rewrite Es. unfold ret. split; [reflexivity|]. split; assumption.
Qed.

(** The LEADER_BOARD packets of [_sendUpdates]: one for each room that
    has two players or more. *)
Lemma sendBoards_returns (rs : list GameRoom.t) :
  Forall sendable rs ->
  exists boards,
    returns (mapM (fun room =>
                     if (1 <? length (GameRoom.players room))%nat then
                       let! lb :=
                         PacketEncoder.encodeLeaderBoard (GameRoom.players room) in
                       ret [(GameRoom.id room, lb)]
                     else ret []) rs) boards
    /\ List.map fst (concat boards) = List.map GameRoom.id (roomsOver 1 rs)
    /\ Forall (fun e => Forall byte (snd e)) (concat boards).
Proof.
  induction 1 as [|room rs (_ & Hl & _) _ (boards & Eb & Hids & Hbs)].
  - exists []. split; [apply returns_ret|]. split; [reflexivity | constructor].
  - cbn [mapM]. unfold roomsOver. cbn [List.filter]. fold (roomsOver 1 rs).
    destruct (1 <? length (GameRoom.players room))%nat.
    + pose proof (encodeLeaderBoard_bytes (GameRoom.players room) Hl) as Hlb.
      cbv zeta in Hlb. destruct Hlb as [Hr Hb].
      eexists (_ :: boards). split.
      * eapply returns_bind; [eapply returns_bind; [exact Hr | apply returns_ret]|].
        eapply returns_bind; [exact Eb | apply returns_ret].
      * cbn [concat app List.map fst]. split; [f_equal; exact Hids|].
        constructor; [exact Hb | exact Hbs].
    + exists ([] :: boards). split.
      * eapply returns_bind; [apply returns_ret|].
        eapply returns_bind; [exact Eb | apply returns_ret].
      * split; assumption.
Qed.

(** [_sendUpdates] on a server whose rooms can be sent: it does not
    throw; it builds one SET_ELEMENTS packet for each room that has
    players, in the order of the rooms, reading the clock once for each;
    it then reads the clock once more and, when that reading is less
    than 17 ms past a multiple of five seconds, builds one LEADER_BOARD
    packet for each room that has two players or more, and none
    otherwise.  Every packet consists of bytes. *)
Theorem sendUpdates_returns (s : t) (w : World) :
  (forall x, 0 <= Math_sqrt x)%Q ->
  Forall sendable (rooms s) ->
  let n := length (roomsOver 0 (rooms s)) in
  let now := clock w (clockPos w + n) in
  exists states boards,
    _sendUpdates s w = Some (states ++ boards, clock_advance (S n) w)
    /\ List.map fst states = List.map GameRoom.id (roomsOver 0 (rooms s))
    /\ List.map fst boards
       = (if Z.rem now 5000 <? 17
          then List.map GameRoom.id (roomsOver 1 (rooms s)) else [])
    /\ Forall (fun e => Forall byte (snd e)) (states ++ boards).
Proof.
  intros Hsqrt Hrooms n now.
  destruct (sendStates_returns (rooms s) Hsqrt Hrooms w) as (states & Es & Hids & Hbs).
  destruct (sendBoards_returns (rooms s) Hrooms) as (boards & Eb & Hidb & Hbb).
  fold n in Es.
  assert (Hadv : mkWorld (clock w) (S (clockPos w + n)) (draws w) (drawPos w)
                 = clock_advance (S n) w).
  { unfold clock_advance. f_equal. lia. }
  unfold _sendUpdates. unfold bind at 1. rewrite Es.
  unfold bind at 1, Date_now.
  change (clock (clock_advance n w) (clockPos (clock_advance n w))) with now.
  change (mkWorld (clock (clock_advance n w)) (S (clockPos (clock_advance n w)))
            (draws (clock_advance n w)) (drawPos (clock_advance n w)))
    with (mkWorld (clock w) (S (clockPos w + n)) (draws w) (drawPos w)).
  rewrite Hadv.
  destruct (Z.rem now 5000 <? 17).
  - exists (concat states), (concat boards).
    unfold bind at 1. rewrite Eb. unfold ret.
    split; [reflexivity|]. split; [exact Hids|]. split; [exact Hidb|].
    apply Forall_app. split; assumption.
  - exists (concat states), [].
    unfold bind at 1, ret. cbn [concat].
    split; [reflexivity|]. split; [exact Hids|]. split; [reflexivity|].
    rewrite app_nil_r. exact Hbs.
Qed.

End Sending.

Section Input.
Context `{MathLib}.
Local Open Scope Z_scope.
Import NarwhaleGameServer.

Lemma useDash_returns p :
  ensures (Player.useDash InputValidator.validateDash p) (fun _ => True).
Proof.
  intros w.
  unfold Player.useDash, InputValidator.validateDash, bind, ret, Date_now.
  cbv beta iota.
  destruct (_ <=? _); cbn [negb];
    [eexists _, _; split; [reflexivity | exact Logic.I]|].
  destruct (_ && _); cbn [negb];
    [eexists _, _; split; [reflexivity | exact Logic.I]|].
  destruct (_ <? _); eexists _, _; (split; [reflexivity | exact Logic.I]).
Qed.

(** An INPUT message shorter than two bytes is ignored.  Any other
    counts against the rate limit of the socket; it changes nothing
    else when the limit is exceeded, when the server has no player for
    the socket, or when bit 4 of the control byte is clear; otherwise
    the player of the socket tries a dash. *)
Theorem handleInput_gated (socket : Socket.t) (buf : list Z) (s : t) (w : World) :
  let pid := Socket.playerId socket in
  ((length buf < 2)%nat -> handleInput socket buf s w = Some (s, w))
  /\ (forall op control rest,
        buf = op :: control :: rest ->
        exists ok v,
          InputValidator.validateInputRate pid (validator s) w
          = Some ((ok, v), clock_advance 1 w)
          /\ (ok = false \/ players_get pid s = None \/ Js.band control 16 = 0 ->
              handleInput socket buf s w
              = Some (set_validator v s, clock_advance 1 w))
          /\ (forall player,
                ok = true -> players_get pid s = Some player ->
                Js.band control 16 <> 0 ->
                exists dashed player' w',
                  Player.useDash InputValidator.validateDash player
                                 (clock_advance 1 w)
                  = Some ((dashed, player'), w')
                  /\ handleInput socket buf s w
                     = Some (players_put pid player' (set_validator v s), w'))).
Proof.
  intros pid. unfold handleInput. fold pid. split.
  { intros Hlen. destruct (Nat.leb_spec 2 (length buf)); [lia | reflexivity]. }
  intros op control rest ->. cbn [length Nat.leb].
  assert (Hrate : exists ok v,
             InputValidator.validateInputRate pid (validator s) w
             = Some ((ok, v), clock_advance 1 w)).
  { unfold InputValidator.validateInputRate, bind, ret, Date_now, clock_advance.
    rewrite Nat.add_1_r. eexists _, _. reflexivity. }
  destruct Hrate as (ok & v & Erate). exists ok, v.
  split; [exact Erate|].
  split.
  - intros Hcase. unfold bind at 1. rewrite Erate. cbv beta iota.
    change (players_get pid (set_validator v s)) with (players_get pid s).
    unfold Buffer.readUInt8. cbn [lookup list_lookup].
    destruct ok; cbn [negb]; [|reflexivity].
    unfold bind at 1, ret at 1.
    destruct Hcase as [Hok | [Hnone | Hbit]]; [discriminate | |].
    + rewrite Hnone. reflexivity.
    + rewrite Hbit. cbn [Z.eqb negb].
      destruct (players_get _ _); reflexivity.
  - intros player -> Hplayer Hbit.
    destruct (useDash_returns player (clock_advance 1 w))
      as ([dashed player'] & w' & Edash & _).
    exists dashed, player', w'. split; [exact Edash|].
    unfold bind at 1. rewrite Erate. cbv beta iota.
    change (players_get pid (set_validator v s)) with (players_get pid s).
    unfold Buffer.readUInt8. cbn [lookup list_lookup negb].
    unfold bind at 1, ret at 1. rewrite Hplayer.
    destruct (Z.eqb_spec (Js.band control 16) 0) as [E | _]; [contradiction|].
    cbn [negb]. unfold bind. rewrite Edash. reflexivity.
Qed.

(** Two players whose levels differ by less than four do not harm
    each other: with the size [36 + 3 (level - 1)] of each, the sizes
    differ by 9 at most, and the collision leaves all players as they
    are. *)
Theorem collide_needs_four_levels (ps : list Player.t) (i j : nat)
    (p1 p2 : Player.t) (w : World) :
  ps !! i = Some p1 -> ps !! j = Some p2 ->
  statsOk p1 -> statsOk p2 ->
  -4 < Player.level p1 - Player.level p2 < 4 ->
  GameRoom.collide ps (i, j) w = Some (ps, w).
Proof.
  intros H1 H2 (_ & _ & _ & Hs1 & _) (_ & _ & _ & Hs2 & _) Hl.
  unfold GameRoom.collide. rewrite H1, H2.
  destruct (Js.ltb _ _); [|reflexivity].
  cbv zeta.
  destruct (Z.ltb_spec 10 (Player.size p1 - Player.size p2)); [lia|].
  destruct (Z.ltb_spec (Player.size p1 - Player.size p2) (- (10))); [lia|].
  reflexivity.
Qed.

End Input.

(** * The properties at concrete inputs *)

Section Examples.
Import Reference.
Local Open Scope Z_scope.

(** C1 as stated fails on a player fresh from the constructor: its
    break point is 11, not 10, and its ten tail parts take ten bytes in
    the FISH record, not nine and four floats. *)
Lemma breakPoint_not_10 :
  exists p w',
    Player.new 7 "A" (world 1000) = Some (p, w')
    /\ Player.breakPoint p = 11%nat
    /\ Player.breakPoint p <> 10%nat
    /\ length (PacketEncoder.encodeParts (Player.breakPoint p) 1
                 (tail (Player.parts p))) = 10%nat.
Proof.
  destruct (Player.new 7 "A" (world 1000)) as [[p w']|] eqn:E;
    [|vm_compute in E; discriminate E].
  exists p, w'. split; [reflexivity|].
  vm_compute in E. injection E as <- _.
  split; [reflexivity|]. split; [discriminate | reflexivity].
Qed.

(** C1 (amended) at the player [large]. *)
Lemma breakPoint_is_chain_length_witness :
  exists head rest,
    Player.parts large = head :: rest
    /\ length (PacketEncoder.encodeParts (Player.breakPoint large) 1 rest) = 10%nat.
Proof.
  destruct (proj1 (proj2 (proj2 breakPoint_is_chain_length))
              large (1 # 60)%Q (world 1000) eq_refl eq_refl)
    as (head & rest & Hparts & _ & _ & _ & Hlen).
  exists head, rest. split; [exact Hparts | exact Hlen].
Defined.



(** C3 at a room of two players and four commands. *)
Lemma chain_and_dash_invariant_witness :
  exists r' w',
    Server.run [Server.UseDash 0; Server.Tick (1 # 60);
                Server.TakeDamage 1 (Some 0%nat); Server.Spawn 1]
               (room [large; small]) (world 1000) = Some (r', w')
    /\ Forall (fun p => length (Player.parts p) = 11%nat
                        /\ 0 <= Player.curDash p <= Player.maxDash p)
              (GameRoom.players r').
Proof.
  apply chain_and_dash_invariant.
  repeat constructor; simpl; lia.
Defined.

(** C4 at 121 calls of a new connection, one millisecond apart: the
    first 120 are accepted, the last is not. *)
Lemma validateInputRate_window_witness :
  exists m',
    validateInputRate_calls 121 1 ∅ (world 1000)
    = Some ((List.map (fun i : nat => (i <? 120)%nat) (seq 0 121), m'),
            clock_advance 121 (world 1000))
    /\ ((0 < 121)%nat ->
        m' !! 1 = Some (InputValidator.mkEntry (Z.of_nat 121) 1000)).
Proof.
  apply (validateInputRate_window 1 ∅ (world 1000) 121).
  - exact I.
  - intros i Hi. simpl. lia.
Defined.

(** C5 at two dashes of [large], two milliseconds apart. *)
Lemma useDash_twice_within_100ms_witness :
  exists p1 w1 w2,
    Player.useDash InputValidator.validateDash large (world 1000)
    = Some ((true, p1), w1)
    /\ Player.useDash InputValidator.validateDash p1 w1 = Some ((false, p1), w2)
    /\ Player.curDash p1 = 4.
Proof.
  destruct (Player.useDash InputValidator.validateDash large (world 1000))
    as [[[b p1] w1]|] eqn:E; [|discriminate E].
  assert (Hb : b = true) by (injection E as <- _ _; reflexivity).
  subst b.
  destruct (useDash_twice_within_100ms large p1 (world 1000) w1)
    as (w2 & Hsecond & Hcharge & _).
  - simpl. lia.
  - exact E.
  - simpl. lia.
  - simpl. lia.
  - exists p1, w1, w2. split; [reflexivity|]. split; [exact Hsecond|].
    rewrite Hcharge. reflexivity.
Defined.


(** C7 at [small] damaged by [large]. *)
Lemma takeDamage_effect_witness :
  exists ps',
    Player.takeDamage 100 (Some 0%nat) 1 [large; small] (world 1000)
    = Some ((true, ps'), mkWorld (clock (world 1000)) 1 (draws (world 1000)) 0)
    /\ ps' !! 1%nat = Some (dead 1000 small)
    /\ ps' !! 0%nat = Some (Player.credit 1 large).
Proof.
  destruct (takeDamage_effect 100 (Some 0%nat) 1 [large; small] small (world 1000)
              eq_refl) as [_ Hdmg].
  destruct Hdmg as (ps' & Hrun & Hvictim & _ & _ & _ & Hattacker & _).
  - intros Hinv. discriminate Hinv.
  - exists ps'. split; [exact Hrun|]. split; [exact Hvictim|].
    destruct (Hattacker 0%nat large eq_refl ltac:(discriminate) eq_refl)
      as (killer' & Hk & _ & _ & Hcredit).
    rewrite Hk, Hcredit. reflexivity.
Defined.


(** C10 at [large], of score 400: level 5 and size 48 are back after
    one update. *)
Lemma spawn_reset_undone_by_update_witness :
  exists p1 w1 p2,
    Player.spawn (Options.mk 6400 6400) large (world 1000) = Some (p1, w1)
    /\ Player.level p1 = 1 /\ Player.size p1 = 36
    /\ Player.update (1 # 60) p1 w1 = Some (p2, w1)
    /\ Player.level p2 = 5 /\ Player.size p2 = 48.
Proof.
  destruct (Player.spawn (Options.mk 6400 6400) large (world 1000))
    as [[p1 w1]|] eqn:E; [|discriminate E].
  destruct (spawn_reset_undone_by_update (Options.mk 6400 6400) (1 # 60)
              large p1 (world 1000) w1 ltac:(discriminate) E)
    as ((_ & _ & _ & Hl1 & Hs1) & p2 & Hu & _ & _ & _ & Hl2 & Hs2 & _).
  exists p1, w1, p2. split; [reflexivity|].
  split; [exact Hl1|]. split; [exact Hs1|]. split; [exact Hu|].
  split; [exact Hl2|]. rewrite Hs2, Hl2. reflexivity.
Defined.

(** A food created on 2023-11-14 (UTC): its identifier has bit 31 set. *)
Lemma encodeSetElements_throws_on_food_id_witness :
  exists food w',
    Food.new 100 100 1 (world 1700000000000) = Some (food, w')
    /\ PacketEncoder.encodeSetElements
         (GameRoom.mk 0 "Large 1" (Options.mk 6400 6400) [] [food]) w' = None.
Proof.
  destruct (Food.new 100 100 1 (world 1700000000000)) as [[food w']|] eqn:E;
    [|discriminate E].
  exists food, w'. split; [reflexivity|].
  apply (encodeSetElements_throws_on_food_id _ food).
  - apply list_elem_of_here.
  - injection E as <- _. vm_compute. discriminate.
Defined.

End Examples.
(** * The packets, the rooms and the server at concrete inputs *)

Section ServerExamples.
Import Reference.
Import NarwhaleGameServer.
Local Open Scope Z_scope.

Ltac each tac :=
  repeat (apply Forall_cons; split; [tac|]); constructor.

(** The square root of the reference library is not negative. *)
Lemma sqrt_nonneg (x : Q) : (0 <= Math_sqrt x)%Q.
Proof.
  change (Math_sqrt x) with (sqrt x). unfold sqrt. rewrite Qred_correct.
  apply Qle_shift_div_l; [reflexivity|]. rewrite Qmult_0_l.
  change 0%Q with (inject_Z 0). rewrite <- Zle_Qle. apply Z.sqrt_nonneg.
Qed.

(** The draws of the reference worlds are in [0, 1). *)
Lemma world_draws (t0 : Z) (n : nat) : (0 <= draws (world t0) n < 1)%Q.
Proof.
  unfold world. cbn [draws].
  pose proof (Nat.mod_upper_bound (n * 7) 16 ltac:(lia)) as Hm.
  set (m := (n * 7 mod 16)%nat) in *. split.
  - apply Qle_shift_div_l; [reflexivity|]. rewrite Qmult_0_l.
    change 0%Q with (inject_Z 0). rewrite <- Zle_Qle. lia.
  - apply Qlt_shift_div_r; [reflexivity|]. rewrite Qmult_1_l.
    change 16%Q with (inject_Z 16). rewrite <- Zlt_Qlt. lia.
Qed.

(** The clock of 2026-11-03 (UTC) and of the seconds that follow has
    bit 31 set. *)
Lemma world_clock_bit31 (n : nat) :
  (n <= 2400)%nat ->
  2147483648 <= clock (world 1793664000000) n mod 4294967296 < 4294967296 - 999.
Proof.
  intros Hn. unfold world. cbn [clock].
  replace (1793664000000 + Z.of_nat n)
    with (2662637568 + Z.of_nat n + 417 * 4294967296) by lia.
  rewrite Z_mod_plus_full, Z.mod_small by lia. lia.
Qed.

(** The packet of a room of two players is built. *)
Lemma encodeSetElements_returns_iff_witness :
  exists bytes,
    PacketEncoder.encodeSetElements (room [large; small]) (world 1000)
    = Some (bytes, clock_advance 1 (world 1000))
    /\ Forall byte bytes.
Proof.
  apply (proj1 (encodeSetElements_returns_iff (room [large; small]) (world 1000)
                  sqrt_nonneg)).
  split.
  - unfold visible. cbn. each discriminate.
  - cbn. constructor.
Defined.

(** The packet of a room of two players takes 86 bytes. *)
Lemma encodeSetElements_length_witness :
  exists bytes w',
    PacketEncoder.encodeSetElements (room [large; small]) (world 1000)
    = Some (bytes, w')
    /\ length bytes = 86%nat
    /\ (length bytes < PacketEncoder.bufferSize (room [large; small]))%nat.
Proof.
  destruct (PacketEncoder.encodeSetElements (room [large; small]) (world 1000))
    as [[bytes w']|] eqn:E; [|vm_compute in E; discriminate E].
  destruct (encodeSetElements_length _ _ _ _ E) as [Hlen Hfit].
  exists bytes, w'. split; [reflexivity|]. split; [|exact Hfit].
  rewrite Hlen. reflexivity.
Defined.

(** The FOOD record of a food of value 3 at (100, 200). *)
Lemma encodeFood_round_trip_witness :
  exists i0 i1 i2 i3 r g b,
    returns (PacketEncoder._encodeFoodElement (Food.mk 5 100 200 3 8 16739179))
            ([6; i0; i1; i2; i3] ++ floatLE 100 ++ floatLE 200 ++ [3; 8; r; g; b])
    /\ returns (Buffer.readUInt32LE [i0; i1; i2; i3] 0) 5
    /\ byte r /\ byte g /\ byte b
    /\ 65536 * r + 256 * g + b = 16739179.
Proof.
  apply (encodeFood_round_trip (Food.mk 5 100 200 3 8 16739179)).
  - vm_compute. reflexivity.
  - unfold byte. cbn. lia.
  - unfold byte. cbn. lia.
  - cbn. lia.
Defined.

(** Three foods for an empty room. *)
Lemma generateFood_appends_witness :
  exists new,
    GameRoom.generateFood 3 (room []) (world 1000)
    = Some (GameRoom.set_foods (GameRoom.foods (room []) ++ new) (room []),
            afterFoods 3 (world 1000))
    /\ length new = 3%nat
    /\ Forall (fun f =>
                 (100 <= Food.x f <= Options.width (GameRoom.options (room [])) - 100)%Q
                 /\ (100 <= Food.y f
                     <= Options.height (GameRoom.options (room [])) - 100)%Q
                 /\ ((Food.value f = 1 /\ Food.size f = 4 /\ Food.color f = 5164484)
                     \/ (Food.value f = 3 /\ Food.size f = 8
                         /\ Food.color f = 16739179)))
              new.
Proof.
  apply (generateFood_appends 3 (room []) (world 1000)).
  - cbn. lra.
  - cbn. lra.
  - intros i _. apply world_draws.
Defined.

(** A room created on 2026-11-03 (UTC) cannot be sent. *)
Lemma new_room_cannot_be_sent_witness :
  exists r,
    GameRoom.new 0 "Large 1" (Options.mk 6400 6400) (world 1793664000000)
    = Some (r, afterFoods 300 (world 1793664000000))
    /\ GameRoom.players r = []
    /\ length (GameRoom.foods r) = 300%nat
    /\ Forall (fun f => 2147483648 <= Food.id f mod 4294967296) (GameRoom.foods r)
    /\ forall ps w',
         PacketEncoder.encodeSetElements (GameRoom.set_players ps r) w' = None.
Proof.
  apply (new_room_cannot_be_sent 0 "Large 1" (Options.mk 6400 6400)
           (world 1793664000000)).
  - intros k Hk. apply world_clock_bit31. cbn [world clockPos]. lia.
  - intros k _. apply world_draws.
Defined.

(** The update of [large] leaves it inside the arena. *)
Lemma update_clamps_position_witness :
  exists p',
    Player.update (1 # 60) large (world 1000) = Some (p', world 1000)
    /\ (100 <= Vec2.x (Player.pos p') <= 6300)%Q
    /\ (100 <= Vec2.y (Player.pos p') <= 6300)%Q.
Proof.
  destruct (update_clamps_position (1 # 60) large (world 1000) (Options.mk 6400 6400)
              eq_refl ltac:(discriminate) eq_refl)
    as (p' & head & rest & E & Hx & Hy & _).
  exists p'. split; [exact E|]. split; [exact Hx | exact Hy].
Defined.

(** [large], dead at time 1000, is left as it is at time 1000. *)
Lemma update_dead_waits_witness :
  Player.update (1 # 60) (dead 1000 large) (world 1000)
  = Some (dead 1000 large, clock_advance 1 (world 1000)).
Proof.
  apply (proj1 (update_dead_waits (1 # 60) (dead 1000 large) (world 1000) eq_refl)).
  left. cbn. lia.
Defined.

(** The statistics after four commands on a room of two players. *)
Lemma stats_invariant_witness :
  exists r' w',
    Server.run [Server.UseDash 0; Server.Tick (1 # 60);
                Server.TakeDamage 1 (Some 0%nat); Server.Spawn 1]
               (room [large; small]) (world 1000) = Some (r', w')
    /\ Forall statsOk (GameRoom.players r')
    /\ Forall foodOk (GameRoom.foods r')
    /\ (length (GameRoom.foods r') <= 259)%nat.
Proof.
  apply (stats_invariant
           [Server.UseDash 0; Server.Tick (1 # 60);
            Server.TakeDamage 1 (Some 0%nat); Server.Spawn 1]
           (room [large; small])).
  - each ltac:(unfold statsOk; cbn; repeat split; (discriminate || lia)).
  - constructor.
Defined.

(** The timers after four commands on a room of two players. *)
Lemma timers_invariant_witness :
  exists r' w',
    Server.run [Server.UseDash 0; Server.Tick (1 # 60);
                Server.TakeDamage 1 (Some 0%nat); Server.Spawn 1]
               (room [large; small]) (world 1000) = Some (r', w')
    /\ Forall (fun p => (0 <= Player.overDash p < 1)%Q
                        /\ (0 <= Player.invincibleDur p <= 2)%Q)
              (GameRoom.players r').
Proof.
  apply (timers_invariant
           [Server.UseDash 0; Server.Tick (1 # 60);
            Server.TakeDamage 1 (Some 0%nat); Server.Spawn 1]
           (room [large; small])).
  - each ltac:(first [exact I | cbn; lra]).
  - each ltac:(unfold timersOk; cbn; repeat split; (discriminate || lra)).
Defined.

(** The leader board of [small] and [large]: [large], of score 400 and
    level 5, comes first. *)
Lemma encodeLeaderBoard_returns_witness :
  returns (PacketEncoder.encodeLeaderBoard [small; large])
          [50; 2; 5; 65; 0; 1; 65; 0; 2; 5; 1].
Proof.
  refine (proj1 (encodeLeaderBoard_returns [small; large] _)).
  each ltac:(vm_compute; discriminate).
Defined.

(** A socket that has joined room 0 starts as "Bob". *)
Lemma handleStart_reply_witness :
  exists s' w' player,
    handleStart (Socket.mk 7 (Some 0)) startBob (mk ∅ [room []; room1] 0 ∅)
                (world 1000)
    = Some ((s', [[18; 7; 0; 0; 0; 255; 0; 3; 0; 0; 0; 3; 66; 111; 98; 0; 1;
                   0; 0; 0; 0; 0]]), w')
    /\ players_get 7 s' = Some player
    /\ PacketEncoder.utf8 (Player.name player) = [66; 111; 98]
    /\ Player.currentRoom player = Some 0.
Proof.
  destruct (proj2 (handleStart_reply (Socket.mk 7 (Some 0)) startBob
                     (mk ∅ [room []; room1] 0 ∅) (world 1000)
                     ltac:(each ltac:(unfold byte; lia))
                     ltac:(cbn [drop startBob]; each lia))
              18 3 0 0 255 0 [0; 0; 0; 66; 111; 98; 0] eq_refl
              ltac:(cbn [length]; lia))
    as (_ & s' & w' & player & E & Hget & _ & Hname & _ & _ & Hroom & _).
  exists s', w', player. split; [exact E|]. split; [exact Hget|].
  split; [exact Hname | exact Hroom].
Defined.

(** The player of socket 7 is in room 0; the socket joins room 1,
    starts again and disconnects: room 0 keeps [large]. *)
Lemma start_in_another_room_orphans_witness :
  exists s1 out w1,
    handleStart (Socket.mk 7 (Some 1)) startBob
                (mk (<[7 := InRoom 0]> ∅) [room [large]; room1] 0 ∅) (world 1000)
    = Some ((s1, out), w1)
    /\ players s1 !! 7 = Some (InRoom 1)
    /\ rooms_find 0 (rooms s1) = Some (room [large])
    /\ rooms_find 0 (rooms (handleDisconnection (Socket.mk 7 (Some 1)) s1))
       = Some (room [large])
    /\ room_player 7 (room [large]) = Some large
    /\ players_get 7 (handleDisconnection (Socket.mk 7 (Some 1)) s1) = None.
Proof.
  apply (start_in_another_room_orphans (Socket.mk 7 (Some 1)) startBob
           (mk (<[7 := InRoom 0]> ∅) [room [large]; room1] 0 ∅) (world 1000)
           0 1 (room [large]) room1 large).
  - each ltac:(unfold byte; lia).
  - cbn [length startBob]. lia.
  - apply lookup_insert_eq.
  - reflexivity.
  - reflexivity.
  - reflexivity.
  - lia.
  - reflexivity.
Defined.

(** A server created on 2026-11-03 (UTC) cannot send the state of a
    room. *)
Lemma server_new_cannot_send_witness :
  exists s0 w0,
    NarwhaleGameServer.new (world 1793664000000) = Some (s0, w0)
    /\ List.map GameRoom.id (rooms s0) = List.map fst ROOMS_CONFIG
    /\ poisoned s0
    /\ forall socket buf rid room w1 s1 out w2 w3,
         Forall byte buf -> (9 <= length buf)%nat ->
         Socket.currentRoom socket = Some rid ->
         rooms_find rid (rooms s0) = Some room ->
         handleStart socket buf s0 w1 = Some ((s1, out), w2) ->
         startTimer socket s1 w3 = None /\ _sendUpdates s1 w3 = None.
Proof.
  apply (server_new_cannot_send (world 1793664000000)).
  - intros k Hk. apply world_clock_bit31. cbn [world clockPos]. lia.
  - intros i _. apply world_draws.
Defined.

(** A server whose room 0 holds two players sends the state of the
    room and, at a multiple of five seconds, its leader board. *)
Lemma sendUpdates_returns_witness :
  exists states boards,
    _sendUpdates (mk ∅ [room [large; small]; room1] 0 ∅) (world 4999)
    = Some (states ++ boards, clock_advance 2 (world 4999))
    /\ List.map fst states = [0]
    /\ List.map fst boards = [0]
    /\ Forall (fun e => Forall byte (snd e)) (states ++ boards).
Proof.
  apply (sendUpdates_returns (mk ∅ [room [large; small]; room1] 0 ∅) (world 4999)
           sqrt_nonneg).
  cbn [rooms]. each ltac:(unfold sendable, visible; cbn; repeat split;
                          each ltac:(first [discriminate | vm_compute; discriminate])).
Defined.

(** [large], of level 5, and [medium], of level 3, touch and do not
    harm each other. *)
Lemma collide_needs_four_levels_witness :
  GameRoom.collide [large; medium] (0%nat, 1%nat) (world 1000)
  = Some ([large; medium], world 1000).
Proof.
  apply (collide_needs_four_levels [large; medium] 0 1 large medium (world 1000)
           eq_refl eq_refl).
  - unfold statsOk. cbn. repeat split; (discriminate || lia).
  - unfold statsOk. cbn. repeat split; (discriminate || lia).
  - vm_compute. split; reflexivity.
Defined.

End ServerExamples.
